(** * Secretly: the realtime state-synchronisation layer of [src/App.jsx]

    A shallow embedding of the non-presentational part of the [App]
    component: the document store it talks to, the React state it keeps,
    its event handlers, its two data effects and the snapshot callbacks
    they install.  The theorems at the end of the file relate this
    embedding to the statements of the specification. *)

From Stdlib Require Import ZArith NArith Ascii String.
From stdpp Require Import gmap strings list fin_maps sorting.

Open Scope Z_scope.

(* ===================================================================== *)
(** ** JavaScript strings *)
(* ===================================================================== *)

(** A JavaScript string is a sequence of UTF-16 code units. *)
Abbreviation jsstring := (list N).

Module JS.

(** A string literal of the source, as code units (the literals of the
    program are ASCII). *)
Definition lit (s : string) : jsstring :=
  map N_of_ascii (list_ascii_of_string s).

(** The double quote, which the template literals of the source embed. *)
Definition dquote : jsstring := [34%N].

(** [WhiteSpace] and [LineTerminator] code points of ECMAScript, the ones
    [String.prototype.trim] strips. *)
Definition isWhiteSpace (c : N) : bool :=
  (  (c =? 9) || (c =? 10) || (c =? 11) || (c =? 12) || (c =? 13)
  || (c =? 32) || (c =? 160) || (c =? 5760)
  || ((8192 <=? c) && (c <=? 8202))
  || (c =? 8232) || (c =? 8233) || (c =? 8239) || (c =? 8287)
  || (c =? 12288) || (c =? 65279))%N.

Fixpoint trimStart (s : jsstring) : jsstring :=
  match s with
  | c :: s' => if isWhiteSpace c then trimStart s' else s
  | [] => []
  end.

Definition trimEnd (s : jsstring) : jsstring :=
  rev (trimStart (rev s)).

(** [s.trim()] *)
Definition trim (s : jsstring) : jsstring := trimEnd (trimStart s).

(** Truthiness of a string: the empty string is the only falsy one. *)
Definition truthy (s : jsstring) : bool :=
  match s with [] => false | _ => true end.

(** Truthiness of a value that is [null] or a string. *)
Definition truthy_opt (o : option jsstring) : bool :=
  match o with Some s => truthy s | None => false end.

(** [n || 0] on a number that is an integer. *)
Definition or_zero (n : Z) : Z := if n =? 0 then 0 else n.

End JS.

(* ===================================================================== *)
(** ** The document store *)
(* ===================================================================== *)

Module Firestore.

(** A timestamp value: the whole seconds since the epoch and the
    nanoseconds within the second.  The program reads [seconds] only. *)
Record Timestamp := { seconds : Z; nanoseconds : Z }.

(** The instant a timestamp stands for, in nanoseconds since the epoch. *)
Definition instant (t : Timestamp) : Z :=
  seconds t * 1000000000 + nanoseconds t.

(** [users/{uid}]: kept as a map from field names to values, because
    [setDoc] without the merge option replaces the whole document. *)
Abbreviation ProfileDoc := (gmap string (list N)).

(** [groups/{gid}] *)
Record GroupDoc := {
  groupName : jsstring;
  creatorId : option jsstring;
  createdAt : Timestamp }.

(** [groups/{gid}/members/{uid}] *)
Record MemberDoc := {
  userName : jsstring;
  joinedAt : Timestamp }.

(** [compliments/{id}].  [senderId] and [groupId] are written from
    state variables that are [null] or a string.  [timestamp] is absent
    in a snapshot delivered while the server has not yet assigned it. *)
Record ComplimentDoc := {
  senderId : option jsstring;
  receiverId : jsstring;
  groupId : option jsstring;
  message : jsstring;
  timestamp : option Timestamp }.

(** The collections.  A document id is a single path segment; the roster
    of a group is the sub-collection [members] under its document. *)
Record Store := {
  users : gmap (list N) ProfileDoc;
  groups : gmap (list N) GroupDoc;
  members : gmap (list N) (gmap (list N) MemberDoc);
  compliments : gmap (list N) ComplimentDoc }.

Definition empty_store : Store :=
  {| users := ∅; groups := ∅; members := ∅; compliments := ∅ |}.

(** A single document write. *)
Inductive Write :=
| SetUser (uid : jsstring) (d : ProfileDoc)
| SetGroup (gid : jsstring) (d : GroupDoc)
| SetMember (gid uid : jsstring) (d : MemberDoc)
| SetCompliment (id : jsstring) (d : ComplimentDoc).

(** The roster sub-collection of a group, empty when nothing was written
    under it. *)
Definition roster_of (s : Store) (gid : jsstring) : gmap (list N) MemberDoc :=
  default ∅ (members s !! gid).

Definition apply_write (s : Store) (w : Write) : Store :=
  match w with
  | SetUser uid d =>
      {| users := <[uid := d]> (users s); groups := groups s;
         members := members s; compliments := compliments s |}
  | SetGroup gid d =>
      {| users := users s; groups := <[gid := d]> (groups s);
         members := members s; compliments := compliments s |}
  | SetMember gid uid d =>
      {| users := users s; groups := groups s;
         members := <[gid := <[uid := d]> (roster_of s gid)]> (members s);
         compliments := compliments s |}
  | SetCompliment id d =>
      {| users := users s; groups := groups s;
         members := members s; compliments := <[id := d]> (compliments s) |}
  end.

(** A commit applies all its writes and publishes the result as one new
    state of the store: a single [setDoc]/[addDoc] is a commit of one
    write, a [writeBatch] a commit of all the writes put in the batch. *)
Definition commit (ws : list Write) (s : Store) : Store :=
  foldl apply_write s ws.

(** *** Document references

    [doc(db, path, ...pathSegments)] builds the path of the reference from
    its string arguments: [path] must not be empty, an argument that
    contains "//" is refused, every argument is split on '/' and its empty
    segments are dropped, and the path must have an even number of
    segments.  The reference exists whether or not a document is stored
    under it. *)

(** The code unit of '/'. *)
Definition slash : N := 47%N.

(** [path.indexOf('//') >= 0] *)
Fixpoint hasDoubleSlash (s : jsstring) : bool :=
  match s with
  | a :: ((b :: _) as rest) =>
      ((a =? slash) && (b =? slash))%N || hasDoubleSlash rest
  | _ => false
  end.

(** [path.split('/')] *)
Fixpoint split (s : jsstring) : list jsstring :=
  match s with
  | [] => [[]]
  | c :: s' =>
      if (c =? slash)%N then [] :: split s'
      else match split s' with
           | seg :: segs => (c :: seg) :: segs
           | [] => [[c]]
           end
  end.

(** [path.split('/').filter(segment => segment.length > 0)] *)
Definition segments (s : jsstring) : list jsstring :=
  List.filter JS.truthy (split s).

(** [ResourcePath.fromString(...pathComponents)]; [None] is the
    [FirestoreError] it throws. *)
Definition fromString (components : list jsstring) : option (list jsstring) :=
  if existsb hasDoubleSlash components then None
  else Some (concat (map segments components)).

(** [doc(db, path, ...pathSegments)]: the path of the reference, or [None]
    when the call throws. *)
Definition doc (components : list jsstring) : option (list jsstring) :=
  if JS.truthy_opt (head components)
  then match fromString components with
       | Some p => if Nat.even (length p) then Some p else None
       | None => None
       end
  else None.

(** [ref.id]: the last segment of the path. *)
Definition refId (path : list jsstring) : jsstring := List.last path [].

(** What a document snapshot holds.  The database has the collections the
    program uses and no others. *)
Inductive DocData :=
| ProfileData (d : ProfileDoc)
| GroupData (d : GroupDoc)
| MemberData (d : MemberDoc)
| ComplimentData (d : ComplimentDoc).

(** The document stored under a path; [None] is a snapshot whose
    [exists()] is false. *)
Definition getDoc (s : Store) (path : list jsstring) : option DocData :=
  match path with
  | [c; id] =>
      if bool_decide (c = JS.lit "users") then ProfileData <$> users s !! id
      else if bool_decide (c = JS.lit "groups")
      then GroupData <$> groups s !! id
      else if bool_decide (c = JS.lit "compliments")
      then ComplimentData <$> compliments s !! id
      else None
  | [c; g; sub; u] =>
      if bool_decide (c = JS.lit "groups")
         && bool_decide (sub = JS.lit "members")
      then MemberData <$> roster_of s g !! u
      else None
  | _ => None
  end.

(** [snapshot.data().groupName] inside a template literal: a field that
    is missing prints as "undefined". *)
Definition groupNameField (d : DocData) : jsstring :=
  match d with
  | GroupData g => groupName g
  | ProfileData p => default (JS.lit "undefined") (p !! "groupName"%string)
  | MemberData _ | ComplimentData _ => JS.lit "undefined"
  end.

(** A document of a query result with its id: [{ id: d.id, ...d.data() }]. *)
Record Item (D : Type) := { item_id : jsstring; item_data : D }.
Arguments item_id {D} _.
Arguments item_data {D} _.

Definition withId {D} (d : jsstring * D) : Item D :=
  {| item_id := d.1; item_data := d.2 |}.

(** [query(collection(db, `groups/${gid}/members`))] *)
Definition membersQuery (s : Store) (gid : jsstring)
  : list (jsstring * MemberDoc) :=
  map_to_list (roster_of s gid).

(** [where("receiverId", "==", u), where("groupId", "==", g)] *)
Definition receivedMatch (u g : jsstring) (d : jsstring * ComplimentDoc) : bool :=
  bool_decide (receiverId d.2 = u) && bool_decide (groupId d.2 = Some g).

(** [where("senderId", "==", u), where("groupId", "==", g)] *)
Definition sentMatch (u g : jsstring) (d : jsstring * ComplimentDoc) : bool :=
  bool_decide (senderId d.2 = Some u) && bool_decide (groupId d.2 = Some g).

Definition receivedQuery (s : Store) (u g : jsstring)
  : list (jsstring * ComplimentDoc) :=
  List.filter (receivedMatch u g) (map_to_list (compliments s)).

Definition sentQuery (s : Store) (u g : jsstring)
  : list (jsstring * ComplimentDoc) :=
  List.filter (sentMatch u g) (map_to_list (compliments s)).

End Firestore.

(* ===================================================================== *)
(** ** Arrays *)
(* ===================================================================== *)

Module JSArray.

(** [Array.prototype.sort(cmp)].  ECMAScript requires the sort to be stable
    and, for a consistent comparator, to return the elements in an order
    where [cmp a b <= 0] for [a] before [b].  For a comparator that
    subtracts keys there is one such result ([sort_is_the_stable_sort]
    below); it is computed here by insertion from the right. *)
Fixpoint insertBy {A} (cmp : A → A → Z) (x : A) (l : list A) : list A :=
  match l with
  | [] => [x]
  | y :: l' => if cmp x y <=? 0 then x :: l else y :: insertBy cmp x l'
  end.

Definition sort {A} (cmp : A → A → Z) (l : list A) : list A :=
  foldr (insertBy cmp) [] l.

End JSArray.

(* ===================================================================== *)
(** ** The component *)
(* ===================================================================== *)

Module App.

Import JS.

Inductive NoticeType := success | error.

(** The [notification] state object. *)
Record Notification := {
  show : bool;
  message : jsstring;
  type : NoticeType }.

(** The state variables of [App], in the order of their [useState]. *)
Record AppState := {
  userId : option jsstring;
  isAuthReady : bool;
  userName : jsstring;
  editingName : jsstring;
  isEditingName : bool;
  currentGroupId : option jsstring;
  groupName : jsstring;
  groupMembers : list (Firestore.Item Firestore.MemberDoc);
  receivedCompliments : list (Firestore.Item Firestore.ComplimentDoc);
  sentCompliments : list (Firestore.Item Firestore.ComplimentDoc);
  complimentMessage : jsstring;
  selectedFriendId : jsstring;
  notification : Notification }.

(** What a live subscription listens to; the callback installed by
    [onSnapshot] is determined by it (see [deliver]).  The ids of a target
    are document ids: the user id the identity provider issued, and the
    group id of the state, which the program takes from the id of a
    reference or reads back from [localStorage]. *)
Inductive Target :=
| TProfile (uid : jsstring)
| TGroup (gid : jsstring)
| TMembers (gid : jsstring)
| TReceived (uid gid : jsstring)
| TSent (uid gid : jsstring).

(** A registered listener; [handle] identifies the disposer that
    [onSnapshot] returned for it. *)
Record Listener := { handle : nat; target : Target }.

(** What React remembers of an effect between two renders: the dependency
    values of its last run and the disposers its cleanup will call. *)
Record EffectSlot (D : Type) := {
  last_deps : option D;
  cleanup : list nat }.
Arguments last_deps {D} _.
Arguments cleanup {D} _.

(** Everything a session can observe or change. *)
Record World := {
  db : Firestore.Store;
  (** the states the store published, one per commit, oldest first *)
  published : list Firestore.Store;
  ui : AppState;
  (** [localStorage.getItem('lastGroupId')] *)
  lastGroupId : option jsstring;
  (** the calls of [showNotification], oldest first *)
  shown : list Notification;
  listeners : list Listener;
  next_handle : nat;
  profile_fx : EffectSlot (bool * option jsstring);
  group_fx : EffectSlot (bool * option jsstring * option jsstring) }.

(** *** Updating the world *)

Definition with_ui (f : AppState → AppState) (w : World) : World :=
  {| db := db w; published := published w; ui := f (ui w);
     lastGroupId := lastGroupId w; shown := shown w;
     listeners := listeners w; next_handle := next_handle w;
     profile_fx := profile_fx w; group_fx := group_fx w |}.

Definition with_db (s : Firestore.Store) (w : World) : World :=
  {| db := s; published := published w ++ [s]; ui := ui w;
     lastGroupId := lastGroupId w; shown := shown w;
     listeners := listeners w; next_handle := next_handle w;
     profile_fx := profile_fx w; group_fx := group_fx w |}.

Definition with_lastGroupId (o : option jsstring) (w : World) : World :=
  {| db := db w; published := published w; ui := ui w;
     lastGroupId := o; shown := shown w;
     listeners := listeners w; next_handle := next_handle w;
     profile_fx := profile_fx w; group_fx := group_fx w |}.

Definition with_shown (l : list Notification) (w : World) : World :=
  {| db := db w; published := published w; ui := ui w;
     lastGroupId := lastGroupId w; shown := l;
     listeners := listeners w; next_handle := next_handle w;
     profile_fx := profile_fx w; group_fx := group_fx w |}.

Definition with_listeners (l : list Listener) (n : nat) (w : World) : World :=
  {| db := db w; published := published w; ui := ui w;
     lastGroupId := lastGroupId w; shown := shown w;
     listeners := l; next_handle := n;
     profile_fx := profile_fx w; group_fx := group_fx w |}.

Definition with_profile_fx (e : EffectSlot (bool * option jsstring))
    (w : World) : World :=
  {| db := db w; published := published w; ui := ui w;
     lastGroupId := lastGroupId w; shown := shown w;
     listeners := listeners w; next_handle := next_handle w;
     profile_fx := e; group_fx := group_fx w |}.

Definition with_group_fx
    (e : EffectSlot (bool * option jsstring * option jsstring))
    (w : World) : World :=
  {| db := db w; published := published w; ui := ui w;
     lastGroupId := lastGroupId w; shown := shown w;
     listeners := listeners w; next_handle := next_handle w;
     profile_fx := profile_fx w; group_fx := e |}.

(** *** The state setters of [useState] *)

Definition setUserId (v : option jsstring) : World → World :=
  with_ui (λ s,
    {| userId := v; isAuthReady := isAuthReady s; userName := userName s;
       editingName := editingName s; isEditingName := isEditingName s;
       currentGroupId := currentGroupId s; groupName := groupName s;
       groupMembers := groupMembers s;
       receivedCompliments := receivedCompliments s;
       sentCompliments := sentCompliments s;
       complimentMessage := complimentMessage s;
       selectedFriendId := selectedFriendId s;
       notification := notification s |}).

Definition setIsAuthReady (v : bool) : World → World :=
  with_ui (λ s,
    {| userId := userId s; isAuthReady := v; userName := userName s;
       editingName := editingName s; isEditingName := isEditingName s;
       currentGroupId := currentGroupId s; groupName := groupName s;
       groupMembers := groupMembers s;
       receivedCompliments := receivedCompliments s;
       sentCompliments := sentCompliments s;
       complimentMessage := complimentMessage s;
       selectedFriendId := selectedFriendId s;
       notification := notification s |}).

Definition setUserName (v : jsstring) : World → World :=
  with_ui (λ s,
    {| userId := userId s; isAuthReady := isAuthReady s; userName := v;
       editingName := editingName s; isEditingName := isEditingName s;
       currentGroupId := currentGroupId s; groupName := groupName s;
       groupMembers := groupMembers s;
       receivedCompliments := receivedCompliments s;
       sentCompliments := sentCompliments s;
       complimentMessage := complimentMessage s;
       selectedFriendId := selectedFriendId s;
       notification := notification s |}).

Definition setEditingName (v : jsstring) : World → World :=
  with_ui (λ s,
    {| userId := userId s; isAuthReady := isAuthReady s;
       userName := userName s;
       editingName := v; isEditingName := isEditingName s;
       currentGroupId := currentGroupId s; groupName := groupName s;
       groupMembers := groupMembers s;
       receivedCompliments := receivedCompliments s;
       sentCompliments := sentCompliments s;
       complimentMessage := complimentMessage s;
       selectedFriendId := selectedFriendId s;
       notification := notification s |}).

Definition setIsEditingName (v : bool) : World → World :=
  with_ui (λ s,
    {| userId := userId s; isAuthReady := isAuthReady s;
       userName := userName s;
       editingName := editingName s; isEditingName := v;
       currentGroupId := currentGroupId s; groupName := groupName s;
       groupMembers := groupMembers s;
       receivedCompliments := receivedCompliments s;
       sentCompliments := sentCompliments s;
       complimentMessage := complimentMessage s;
       selectedFriendId := selectedFriendId s;
       notification := notification s |}).

Definition setCurrentGroupId (v : option jsstring) : World → World :=
  with_ui (λ s,
    {| userId := userId s; isAuthReady := isAuthReady s;
       userName := userName s;
       editingName := editingName s; isEditingName := isEditingName s;
       currentGroupId := v; groupName := groupName s;
       groupMembers := groupMembers s;
       receivedCompliments := receivedCompliments s;
       sentCompliments := sentCompliments s;
       complimentMessage := complimentMessage s;
       selectedFriendId := selectedFriendId s;
       notification := notification s |}).

Definition setGroupName (v : jsstring) : World → World :=
  with_ui (λ s,
    {| userId := userId s; isAuthReady := isAuthReady s;
       userName := userName s;
       editingName := editingName s; isEditingName := isEditingName s;
       currentGroupId := currentGroupId s; groupName := v;
       groupMembers := groupMembers s;
       receivedCompliments := receivedCompliments s;
       sentCompliments := sentCompliments s;
       complimentMessage := complimentMessage s;
       selectedFriendId := selectedFriendId s;
       notification := notification s |}).

Definition setGroupMembers
    (v : list (Firestore.Item Firestore.MemberDoc)) : World → World :=
  with_ui (λ s,
    {| userId := userId s; isAuthReady := isAuthReady s;
       userName := userName s;
       editingName := editingName s; isEditingName := isEditingName s;
       currentGroupId := currentGroupId s; groupName := groupName s;
       groupMembers := v;
       receivedCompliments := receivedCompliments s;
       sentCompliments := sentCompliments s;
       complimentMessage := complimentMessage s;
       selectedFriendId := selectedFriendId s;
       notification := notification s |}).

Definition setReceivedCompliments
    (v : list (Firestore.Item Firestore.ComplimentDoc)) : World → World :=
  with_ui (λ s,
    {| userId := userId s; isAuthReady := isAuthReady s;
       userName := userName s;
       editingName := editingName s; isEditingName := isEditingName s;
       currentGroupId := currentGroupId s; groupName := groupName s;
       groupMembers := groupMembers s;
       receivedCompliments := v;
       sentCompliments := sentCompliments s;
       complimentMessage := complimentMessage s;
       selectedFriendId := selectedFriendId s;
       notification := notification s |}).

Definition setSentCompliments
    (v : list (Firestore.Item Firestore.ComplimentDoc)) : World → World :=
  with_ui (λ s,
    {| userId := userId s; isAuthReady := isAuthReady s;
       userName := userName s;
       editingName := editingName s; isEditingName := isEditingName s;
       currentGroupId := currentGroupId s; groupName := groupName s;
       groupMembers := groupMembers s;
       receivedCompliments := receivedCompliments s;
       sentCompliments := v;
       complimentMessage := complimentMessage s;
       selectedFriendId := selectedFriendId s;
       notification := notification s |}).

Definition setComplimentMessage (v : jsstring) : World → World :=
  with_ui (λ s,
    {| userId := userId s; isAuthReady := isAuthReady s;
       userName := userName s;
       editingName := editingName s; isEditingName := isEditingName s;
       currentGroupId := currentGroupId s; groupName := groupName s;
       groupMembers := groupMembers s;
       receivedCompliments := receivedCompliments s;
       sentCompliments := sentCompliments s;
       complimentMessage := v;
       selectedFriendId := selectedFriendId s;
       notification := notification s |}).

Definition setSelectedFriendId (v : jsstring) : World → World :=
  with_ui (λ s,
    {| userId := userId s; isAuthReady := isAuthReady s;
       userName := userName s;
       editingName := editingName s; isEditingName := isEditingName s;
       currentGroupId := currentGroupId s; groupName := groupName s;
       groupMembers := groupMembers s;
       receivedCompliments := receivedCompliments s;
       sentCompliments := sentCompliments s;
       complimentMessage := complimentMessage s;
       selectedFriendId := v;
       notification := notification s |}).

Definition setNotification (v : Notification) : World → World :=
  with_ui (λ s,
    {| userId := userId s; isAuthReady := isAuthReady s;
       userName := userName s;
       editingName := editingName s; isEditingName := isEditingName s;
       currentGroupId := currentGroupId s; groupName := groupName s;
       groupMembers := groupMembers s;
       receivedCompliments := receivedCompliments s;
       sentCompliments := sentCompliments s;
       complimentMessage := complimentMessage s;
       selectedFriendId := selectedFriendId s;
       notification := v |}).

(** *** The [localStorage] helpers *)

(** [localStorage.getItem] and [localStorage.removeItem]; [setItem] can
    throw and is defined with the handler steps below. *)
Definition getLastGroupId (w : World) : option jsstring := lastGroupId w.
Definition clearLastGroupId : World → World := with_lastGroupId None.

(** [showNotification(message, type)]: fills the notification slot and
    records the call.  The timer that hides the banner three seconds later
    is presentation and is left out. *)
Definition notice (m : jsstring) (t : NoticeType) : Notification :=
  {| show := true; message := m; type := t |}.

Definition showNotification (m : jsstring) (t : NoticeType) (w : World) : World :=
  with_shown (shown w ++ [notice m t]) (setNotification (notice m t) w).

(** *** Asynchronous handlers

    An asynchronous handler runs against answers of the outside world that
    it does not control: the id the store draws for a new document, the
    time the server stamps on a commit, whether the read and the write
    the handler awaits succeed, and whether [localStorage] accepts a value
    ([setItem] throws when the quota of the origin is used up). *)
Record Env := {
  auto_id : jsstring;
  server_time : Firestore.Timestamp;
  read_ok : bool;
  write_ok : bool;
  storage_ok : bool }.

Inductive Outcome (A : Type) :=
| Returned (a : A)
| Thrown.
Arguments Returned {A} _.
Arguments Thrown {A}.

(** A handler step: it reads the answers of the outside world, changes the
    world and either returns or throws. *)
Definition Act (A : Type) : Type := Env → World → Outcome A * World.

Definition ret {A} (a : A) : Act A := λ _ w, (Returned a, w).

Definition bind {A B} (m : Act A) (k : A → Act B) : Act B :=
  λ env w,
    match m env w with
    | (Returned a, w') => k a env w'
    | (Thrown, w') => (Thrown, w')
    end.

Definition throw {A} : Act A := λ _ w, (Thrown, w).

(** [try { body } catch (error) { handler }] *)
Definition try_catch {A} (body handler : Act A) : Act A :=
  λ env w,
    match body env w with
    | (Returned a, w') => (Returned a, w')
    | (Thrown, w') => handler env w'
    end.

(** A synchronous state change used inside a handler. *)
Definition act (f : World → World) : Act unit := λ _ w, (Returned tt, f w).

Definition getState : Act AppState := λ _ w, (Returned (ui w), w).

(** The world a handler leaves behind. *)
Definition exec {A} (m : Act A) (env : Env) (w : World) : World :=
  (m env w).2.

Declare Scope act_scope.
Delimit Scope act_scope with act.
Bind Scope act_scope with Act.
Notation "x <- m ;; k" := (bind m (λ x, k))
  (at level 100, m at next level, right associativity) : act_scope.
Notation "m ;; k" := (bind m (λ _, k))
  (at level 100, right associativity) : act_scope.

(** **** [localStorage] *)

(** [setLastGroupId(id)]: [localStorage.setItem('lastGroupId', id)]. *)
Definition setLastGroupId (id : jsstring) : Act unit :=
  λ env w,
    if storage_ok env
    then (Returned tt, with_lastGroupId (Some id) w)
    else (Thrown, w).

(** **** Store operations *)

(** [doc(collection(db, name))]: a reference with an id drawn by the
    store. *)
Definition newDocId : Act jsstring := λ env w, (Returned (auto_id env), w).

(** [doc(db, ...components)] inside a handler. *)
Definition docRef (components : list jsstring) : Act (list jsstring) :=
  match Firestore.doc components with
  | Some path => ret path
  | None => throw
  end.

(** [doc(db, path, userId)] with the user id as the last segment: the call
    throws on an id that is missing or empty.  User ids are the ones the
    identity provider issues, each a single path segment. *)
Definition docSegment (o : option jsstring) : Act jsstring :=
  match o with
  | Some s => if truthy s then ret s else throw
  | None => throw
  end.

(** [serverTimestamp()]: the time the server stamps on the commit. *)
Definition serverTimestamp : Act Firestore.Timestamp :=
  λ env w, (Returned (server_time env), w).

(** [await batch.commit()], and [await setDoc(..)], [await addDoc(..)] as
    commits of one write: all the writes are applied and published as one
    new state, or the call throws and the store is left as it was. *)
Definition commitWrites (ws : list Firestore.Write) : Act unit :=
  λ env w,
    if write_ok env
    then (Returned tt, with_db (Firestore.commit ws (db w)) w)
    else (Thrown, w).

(** [await getDoc(ref)]: a read of the document under the path of the
    reference; [None] is a snapshot whose [exists()] is false. *)
Definition getDoc (ref : list jsstring) : Act (option Firestore.DocData) :=
  λ env w,
    if read_ok env
    then (Returned (Firestore.getDoc (db w) ref), w)
    else (Thrown, w).

(** **** The handlers *)

Definition handleSaveName : Act unit :=
  (st <- getState ;;
   if negb (truthy (trim (editingName st)))
   then act (showNotification (lit "Please enter a name.") error)
   else if negb (truthy_opt (userId st))
   then act (showNotification
               (lit "User ID not ready. Please wait a moment.") error)
   else
     try_catch
       (uid <- docSegment (userId st) ;;
        commitWrites
          [Firestore.SetUser uid {[ "name"%string := trim (editingName st) ]}] ;;
        act (showNotification (lit "Name updated successfully!") success) ;;
        act (setIsEditingName false))
       (act (showNotification (lit "Could not save your name.") error)))%act.

Definition handleCreateGroup (newGroupName : jsstring) : Act unit :=
  (st <- getState ;;
   if negb (truthy (trim newGroupName))
   then act (showNotification (lit "Please enter a group name.") error)
   else if negb (truthy (userName st))
   then act (showNotification
               (lit "Please set your display name first.") error)
   else
     try_catch
       (newGroupRef <- newDocId ;;
        now <- serverTimestamp ;;
        let batch :=
          [Firestore.SetGroup newGroupRef
             {| Firestore.groupName := trim newGroupName;
                Firestore.creatorId := userId st;
                Firestore.createdAt := now |}] in
        memberId <- docSegment (userId st) ;;
        let batch := batch ++
          [Firestore.SetMember newGroupRef memberId
             {| Firestore.userName := userName st;
                Firestore.joinedAt := now |}] in
        commitWrites batch ;;
        act (setCurrentGroupId (Some newGroupRef)) ;;
        setLastGroupId newGroupRef ;;
        act (showNotification
               (lit "Group " ++ dquote ++ newGroupName ++ dquote
                  ++ lit " created!") success))
       (act (showNotification (lit "Could not create the group.") error)))%act.

Definition handleJoinGroup (groupIdToJoin : jsstring) : Act unit :=
  (st <- getState ;;
   if negb (truthy (trim groupIdToJoin))
   then act (showNotification (lit "Please enter a Group ID.") error)
   else if negb (truthy (userName st))
   then act (showNotification
               (lit "Please set your display name first.") error)
   else
     try_catch
       (groupRef <- docRef [lit "groups"; trim groupIdToJoin] ;;
        groupSnap <- getDoc groupRef ;;
        match groupSnap with
        | None =>
            act (showNotification (lit "No group found with that ID.") error)
        | Some data =>
            let gid := Firestore.refId groupRef in
            memberId <- docSegment (userId st) ;;
            now <- serverTimestamp ;;
            commitWrites
              [Firestore.SetMember gid memberId
                 {| Firestore.userName := userName st;
                    Firestore.joinedAt := now |}] ;;
            act (setCurrentGroupId (Some gid)) ;;
            setLastGroupId gid ;;
            act (showNotification
                   (lit "Successfully joined " ++ dquote
                      ++ Firestore.groupNameField data ++ dquote ++ lit "!")
                   success)
        end)
       (act (showNotification (lit "Could not join the group.") error)))%act.

Definition handleLeaveGroup (w : World) : World :=
  let w := setCurrentGroupId None w in
  let w := clearLastGroupId w in
  showNotification (lit "You have left the group.") success w.

Definition handleSendCompliment : Act unit :=
  (st <- getState ;;
   if negb (truthy (selectedFriendId st))
      || negb (truthy (trim (complimentMessage st)))
   then act (showNotification
               (lit "Please select a member and write a message.") error)
   else
     try_catch
       (id <- newDocId ;;
        now <- serverTimestamp ;;
        commitWrites
          [Firestore.SetCompliment id
             {| Firestore.senderId := userId st;
                Firestore.receiverId := selectedFriendId st;
                Firestore.groupId := currentGroupId st;
                Firestore.message := complimentMessage st;
                Firestore.timestamp := Some now |}] ;;
        act (showNotification (lit "Secret compliment sent!") success) ;;
        act (setComplimentMessage []) ;;
        act (setSelectedFriendId []))
       (act (showNotification
               (lit "Could not send your compliment.") error)))%act.

(** *** Snapshot callbacks *)

(** The callback of the profile subscription; [None] is a snapshot whose
    [exists()] is false. *)
Definition onProfileSnapshot (doc : option Firestore.ProfileDoc)
    (w : World) : World :=
  match doc with
  | Some d =>
      match d !! "name"%string with
      | Some name =>
          if truthy name
          then setIsEditingName false (setEditingName name (setUserName name w))
          else setIsEditingName true w
      | None => setIsEditingName true w
      end
  | None => setIsEditingName true w
  end.

(** The callback of the group-document subscription. *)
Definition onGroupSnapshot (doc : option Firestore.GroupDoc)
    (w : World) : World :=
  match doc with
  | Some d => setGroupName (Firestore.groupName d) w
  | None =>
      let w := showNotification
                 (lit "The group you were in may have been deleted.") error w in
      handleLeaveGroup w
  end.

(** The callback of the roster subscription. *)
Definition onMembersSnapshot (docs : list (jsstring * Firestore.MemberDoc))
    (w : World) : World :=
  setGroupMembers (map Firestore.withId docs) w.

(** [c.timestamp?.seconds || 0] *)
Definition secondsOrZero (c : Firestore.Item Firestore.ComplimentDoc) : Z :=
  match Firestore.timestamp (Firestore.item_data c) with
  | Some t => or_zero (Firestore.seconds t)
  | None => 0
  end.

(** The comparator of both compliment views:
    [(a, b) => (b.timestamp?.seconds || 0) - (a.timestamp?.seconds || 0)] *)
Definition byTimestampDesc (a b : Firestore.Item Firestore.ComplimentDoc) : Z :=
  secondsOrZero b - secondsOrZero a.

(** [snapshot.docs.map(d => ({ id: d.id, ...d.data() })).sort(..)] *)
Definition complimentsOf (docs : list (jsstring * Firestore.ComplimentDoc))
  : list (Firestore.Item Firestore.ComplimentDoc) :=
  JSArray.sort byTimestampDesc (map Firestore.withId docs).

(** The order the specification words for a view, "descending order of
    the server-assigned timestamp (most recent first)", a missing
    timestamp counting as the epoch: no record comes before one of a later
    instant. *)
Definition instantOrZero (c : Firestore.Item Firestore.ComplimentDoc) : Z :=
  match Firestore.timestamp (Firestore.item_data c) with
  | Some t => Firestore.instant t
  | None => 0
  end.

Definition mostRecentFirst
    (v : list (Firestore.Item Firestore.ComplimentDoc)) : Prop :=
  StronglySorted (λ a b, instantOrZero b ≤ instantOrZero a) v.

Definition onReceivedSnapshot (docs : list (jsstring * Firestore.ComplimentDoc))
    (w : World) : World :=
  setReceivedCompliments (complimentsOf docs) w.

Definition onSentSnapshot (docs : list (jsstring * Firestore.ComplimentDoc))
    (w : World) : World :=
  setSentCompliments (complimentsOf docs) w.

(** *** Subscriptions and effects *)

(** [onSnapshot(target, callback)]: registers a listener and returns its
    disposer. *)
Definition onSnapshot (t : Target) (w : World) : nat * World :=
  let h := next_handle w in
  (h, with_listeners (listeners w ++ [{| handle := h; target := t |}]) (S h) w).

(** Calling the disposer [h]. *)
Definition unsubscribe (h : nat) (w : World) : World :=
  with_listeners
    (List.filter (λ l, negb (handle l =? h)%nat) (listeners w))
    (next_handle w) w.

(** The profile effect (dependencies [isAuthReady, userId]): the world
    after its body and the disposers its cleanup calls. *)
Definition profileEffect (w : World) : World * list nat :=
  let st := ui w in
  if negb (isAuthReady st) || negb (truthy_opt (userId st)) then (w, [])
  else
    match userId st with
    | Some uid =>
        let '(unsubscribeProfile, w) := onSnapshot (TProfile uid) w in
        (w, [unsubscribeProfile])
    | None => (w, [])
    end.

(** The group and compliments effect (dependencies
    [isAuthReady, userId, currentGroupId]). *)
Definition groupEffect (w : World) : World * list nat :=
  let st := ui w in
  if negb (isAuthReady st) || negb (truthy_opt (userId st))
     || negb (truthy_opt (currentGroupId st))
  then
    let w := setGroupMembers [] w in
    let w := setReceivedCompliments [] w in
    let w := setSentCompliments [] w in
    let w := setGroupName [] w in
    (w, [])
  else
    match userId st, currentGroupId st with
    | Some uid, Some gid =>
        let '(unsubscribeGroup, w) := onSnapshot (TGroup gid) w in
        let '(unsubscribeMembers, w) := onSnapshot (TMembers gid) w in
        let '(unsubscribeReceived, w) := onSnapshot (TReceived uid gid) w in
        let '(unsubscribeSent, w) := onSnapshot (TSent uid gid) w in
        (w, [unsubscribeGroup; unsubscribeMembers;
             unsubscribeReceived; unsubscribeSent])
    | _, _ => (w, [])
    end.

(** Running a cleanup: its disposers are called in order. *)
Definition runCleanup (hs : list nat) (w : World) : World :=
  foldl (λ w h, unsubscribe h w) w hs.

(** [useEffect(body, deps)] after a render: when a dependency differs from
    the last run (or there was none), the cleanup of the last run is called
    and then the body runs. *)
Definition useEffect {D} `{EqDecision D} (slot : EffectSlot D) (deps : D)
    (body : World → World * list nat) (w : World) : World * EffectSlot D :=
  if bool_decide (last_deps slot = Some deps) then (w, slot)
  else
    let w := runCleanup (cleanup slot) w in
    let '(w, c) := body w in
    (w, {| last_deps := Some deps; cleanup := c |}).

(** The effects of [App] after a render, in source order. *)
Definition commitEffects (w : World) : World :=
  let st := ui w in
  let '(w, p) :=
    useEffect (profile_fx w) (isAuthReady st, userId st) profileEffect w in
  let w := with_profile_fx p w in
  let '(w, g) :=
    useEffect (group_fx w) (isAuthReady st, userId st, currentGroupId st)
      groupEffect w in
  with_group_fx g w.

(** The store pushes a snapshot to the listener of disposer [h]; a
    disposed listener is not called. *)
Definition deliver (h : nat) (w : World) : World :=
  match List.find (λ l, (handle l =? h)%nat) (listeners w) with
  | None => w
  | Some l =>
      match target l with
      | TProfile uid =>
          onProfileSnapshot (Firestore.users (db w) !! uid) w
      | TGroup gid =>
          onGroupSnapshot (Firestore.groups (db w) !! gid) w
      | TMembers gid =>
          onMembersSnapshot (Firestore.membersQuery (db w) gid) w
      | TReceived uid gid =>
          onReceivedSnapshot (Firestore.receivedQuery (db w) uid gid) w
      | TSent uid gid =>
          onSentSnapshot (Firestore.sentQuery (db w) uid gid) w
      end
  end.

(** *** The session as a transition system *)

Inductive Event :=
| AuthStateChanged (user : option jsstring)
| TypeName (s : jsstring)
| ClickEditName
| SubmitName (env : Env)
| Create (env : Env) (newGroupName : jsstring)
| Join (env : Env) (groupIdToJoin : jsstring)
| Leave
| CopyGroupId
| SelectFriend (id : jsstring)
| TypeMessage (s : jsstring)
| SubmitCompliment (env : Env)
| Snapshot (h : nat)
| StoreChanged (s : Firestore.Store)
| StorageChanged (v : option jsstring).

(** Which events the rendered page offers: nothing but "Loading" before
    authentication, [GroupGate] without a current group, the group page
    with one, whose selector lists the members of the roster other than
    the user.  The store and the identity provider act at any time, and so
    does another tab of the origin that writes or removes the remembered
    group id in [localStorage]. *)
Definition enabled (e : Event) (w : World) : bool :=
  let st := ui w in
  match e with
  | AuthStateChanged _ | Snapshot _ | StoreChanged _ | StorageChanged _ =>
      true
  | TypeName _ | SubmitName _ =>
      isAuthReady st && negb (truthy_opt (currentGroupId st))
      && isEditingName st
  | ClickEditName =>
      isAuthReady st && negb (truthy_opt (currentGroupId st))
      && negb (isEditingName st)
  | Create _ _ | Join _ _ =>
      isAuthReady st && negb (truthy_opt (currentGroupId st))
  | Leave | CopyGroupId | TypeMessage _ | SubmitCompliment _ =>
      isAuthReady st && truthy_opt (currentGroupId st)
  | SelectFriend id =>
      isAuthReady st && truthy_opt (currentGroupId st)
      && existsb (λ m, bool_decide (Firestore.item_id m = id))
           (groupMembers st)
      && negb (bool_decide (userId st = Some id))
  end.

Definition handle_event (e : Event) (w : World) : World :=
  match e with
  | AuthStateChanged (Some uid) => setIsAuthReady true (setUserId (Some uid) w)
  | AuthStateChanged None => w
  | TypeName s => setEditingName s w
  | ClickEditName => setIsEditingName true w
  | SubmitName env => exec handleSaveName env w
  | Create env n => exec (handleCreateGroup n) env w
  | Join env g => exec (handleJoinGroup g) env w
  | Leave => handleLeaveGroup w
  | CopyGroupId => showNotification (lit "Group ID copied!") success w
  | SelectFriend id => setSelectedFriendId id w
  | TypeMessage s => setComplimentMessage s w
  | SubmitCompliment env => exec handleSendCompliment env w
  | Snapshot h => deliver h w
  | StoreChanged s => with_db s w
  | StorageChanged v => with_lastGroupId v w
  end.

(** One turn of the event loop: the handler runs, React renders and runs
    the effects whose dependencies changed. *)
Definition step (w : World) (e : Event) : World :=
  if enabled e w then commitEffects (handle_event e w) else w.

Definition run (evs : list Event) (w : World) : World := foldl step w evs.

Definition initialState (last : option jsstring) : AppState :=
  {| userId := None; isAuthReady := false; userName := [];
     editingName := []; isEditingName := false;
     currentGroupId := last; groupName := []; groupMembers := [];
     receivedCompliments := []; sentCompliments := [];
     complimentMessage := []; selectedFriendId := [];
     notification := {| show := false; message := []; type := success |} |}.

(** The world after the first render: [currentGroupId] starts from the
    remembered group id. *)
Definition mount (s : Firestore.Store) (last : option jsstring) : World :=
  commitEffects
    {| db := s; published := [s]; ui := initialState last;
       lastGroupId := last; shown := []; listeners := []; next_handle := 0%nat;
       profile_fx := {| last_deps := None; cleanup := [] |};
       group_fx := {| last_deps := None; cleanup := [] |} |}.

(** The group a listener of the group effect was attached for. *)
Definition target_group (t : Target) : option jsstring :=
  match t with
  | TProfile _ => None
  | TGroup g | TMembers g | TReceived _ g | TSent _ g => Some g
  end.

(** The listeners the group effect attaches for given dependencies. *)
Definition group_targets (d : bool * option jsstring * option jsstring)
  : list Target :=
  match d with
  | (ready, Some u, Some g) =>
      if ready && truthy u && truthy g
      then [TGroup g; TMembers g; TReceived u g; TSent u g]
      else []
  | _ => []
  end.

(** What the received and the sent subscription of user [u] in group [g]
    put into the state when the store is [s]: the query result, mapped and
    sorted by the callback. *)
Definition receivedView (s : Firestore.Store) (u g : jsstring)
  : list (Firestore.Item Firestore.ComplimentDoc) :=
  complimentsOf (Firestore.receivedQuery s u g).

Definition sentView (s : Firestore.Store) (u g : jsstring)
  : list (Firestore.Item Firestore.ComplimentDoc) :=
  complimentsOf (Firestore.sentQuery s u g).

(** The batch [handleCreateGroup] hands to [commit] for creator [uid]:
    the group document and the creator's membership document. *)
Definition createBatch (env : Env) (st : AppState)
    (newGroupName uid : jsstring) : list Firestore.Write :=
  [Firestore.SetGroup (auto_id env)
     {| Firestore.groupName := trim newGroupName;
        Firestore.creatorId := Some uid;
        Firestore.createdAt := server_time env |};
   Firestore.SetMember (auto_id env) uid
     {| Firestore.userName := userName st;
        Firestore.joinedAt := server_time env |}].

(** The record [handleSendCompliment] hands to [addDoc]. *)
Definition complimentRecord (env : Env) (st : AppState)
  : Firestore.ComplimentDoc :=
  {| Firestore.senderId := userId st;
     Firestore.receiverId := selectedFriendId st;
     Firestore.groupId := currentGroupId st;
     Firestore.message := complimentMessage st;
     Firestore.timestamp := Some (server_time env) |}.

(** Invariant I1 on one state of the store: a group that is visible has a
    member. *)
Definition groupsHaveMembers (s : Firestore.Store) : Prop :=
  ∀ gid, is_Some (Firestore.groups s !! gid) →
         (1 ≤ length (Firestore.membersQuery s gid))%nat.

(** *** Which listeners are live

    The notions used to state that the listeners of a session are those of
    its current identity and group. *)

(** Listeners of the group effect, as opposed to the profile effect. *)
Definition isGroupTarget (t : Target) : bool :=
  match target_group t with Some _ => true | None => false end.

Definition isGroupListener (l : Listener) : bool := isGroupTarget (target l).
Definition isProfileListener (l : Listener) : bool :=
  negb (isGroupTarget (target l)).

(** The listeners the profile effect attaches for given dependencies. *)
Definition profile_targets (d : bool * option jsstring) : list Target :=
  match d with
  | (ready, Some u) => if ready && truthy u then [TProfile u] else []
  | _ => []
  end.

(** Listeners for [ts] with consecutive handles from [n] on. *)
Fixpoint fresh_listeners (n : nat) (ts : list Target) : list Listener :=
  match ts with
  | [] => []
  | t :: ts' => {| handle := n; target := t |} :: fresh_listeners (S n) ts'
  end.

(** The targets an effect slot stands for. *)
Definition slot_targets {D} (f : D → list Target) (slot : EffectSlot D)
  : list Target :=
  match last_deps slot with Some d => f d | None => [] end.

(** The registry of listeners agrees with what React remembers of the two
    effects: handles are distinct and below the next one, the listeners of
    each effect are those its cleanup disposes, and they are the ones its
    body attached for the dependencies of its last run. *)
Record Wired (w : World) : Prop := {
  wired_nodup : NoDup (map handle (listeners w));
  wired_below : Forall (λ l, (handle l < next_handle w)%nat) (listeners w);
  wired_group_handles :
    map handle (List.filter isGroupListener (listeners w))
    = cleanup (group_fx w);
  wired_group_targets :
    map target (List.filter isGroupListener (listeners w))
    = slot_targets group_targets (group_fx w);
  wired_profile_handles :
    map handle (List.filter isProfileListener (listeners w))
    = cleanup (profile_fx w);
  wired_profile_targets :
    map target (List.filter isProfileListener (listeners w))
    = slot_targets profile_targets (profile_fx w) }.

(** The part of the world that [onSnapshot], the disposers and React's
    effect bookkeeping change. *)
Definition wiring (w : World) :=
  (listeners w, next_handle w, profile_fx w, group_fx w).

(** A handler that leaves the wiring alone. *)
Definition keeps_wiring {A} (m : Act A) : Prop :=
  ∀ env w, wiring (m env w).2 = wiring w.

(** The dependencies of the effects as the current state has them. *)
Definition profile_deps (w : World) : bool * option jsstring :=
  (isAuthReady (ui w), userId (ui w)).

Definition group_deps (w : World) : bool * option jsstring * option jsstring :=
  (isAuthReady (ui w), userId (ui w), currentGroupId (ui w)).

(** Both effects have run for the current state. *)
Definition Synced (w : World) : Prop :=
  last_deps (profile_fx w) = Some (profile_deps w)
  ∧ last_deps (group_fx w) = Some (group_deps w).

End App.

(* ===================================================================== *)
(** ** A session, for concrete checks *)
(* ===================================================================== *)

Module Scenario.

Import JS App.

Definition alice : jsstring := lit "alice".
Definition bob : jsstring := lit "bob".
Definition g1 : jsstring := lit "g1".

(** The start of second [t]. *)
Definition at_second (t : Z) : Firestore.Timestamp :=
  {| Firestore.seconds := t; Firestore.nanoseconds := 0 |}.

Definition at_time (t : Z) (id : string) : Env :=
  {| auto_id := lit id; server_time := at_second t;
     read_ok := true; write_ok := true; storage_ok := true |}.

(** Alice signs in, finds no profile, and saves her name typed with
    blanks around it. *)
Definition signed_in : World :=
  run [AuthStateChanged (Some alice); Snapshot 0%nat]
      (mount Firestore.empty_store None).

Definition typed_name : World := run [TypeName (lit "  Al ")] signed_in.

Definition named : World :=
  run [SubmitName (at_time 90 "-"); Snapshot 0%nat] typed_name.

(** She creates the group [g1]. *)
Definition in_group : World :=
  run [Create (at_time 100 "g1") (lit " Book Club ")] named.

(** The same session as one list of events. *)
Definition session : list Event :=
  [AuthStateChanged (Some alice); Snapshot 0%nat; TypeName (lit "  Al ");
   SubmitName (at_time 90 "-"); Snapshot 0%nat;
   Create (at_time 100 "g1") (lit " Book Club ")].

(** Bob joins from his own session; the roster listener tells Alice. *)
Definition bob_joined : World :=
  run [StoreChanged
         (Firestore.commit
            [Firestore.SetMember g1 bob
               {| Firestore.userName := lit "Bob";
                  Firestore.joinedAt := at_second 110 |}]
            (db in_group));
       Snapshot 2%nat]
      in_group.

(** She picks Bob and types a message with blanks around it. *)
Definition composing : World :=
  run [SelectFriend bob; TypeMessage (lit " hi ")] bob_joined.

(** Somebody deletes the group document. *)
Definition group_gone : World :=
  run [StoreChanged Firestore.empty_store] in_group.

(** A store with one compliment in each direction between Alice and Bob,
    and a snapshot with a record whose timestamp is still missing. *)
Definition to_bob (t : option Z) : Firestore.ComplimentDoc :=
  {| Firestore.senderId := Some alice; Firestore.receiverId := bob;
     Firestore.groupId := Some g1; Firestore.message := lit "hi";
     Firestore.timestamp := at_second <$> t |}.



(** A snapshot with two compliments stamped within second 5, the earlier
    one first. *)
Definition within_a_second : list (jsstring * Firestore.ComplimentDoc) :=
  [(lit "c5",
    {| Firestore.senderId := Some alice; Firestore.receiverId := bob;
       Firestore.groupId := Some g1; Firestore.message := lit "first";
       Firestore.timestamp :=
         Some {| Firestore.seconds := 5; Firestore.nanoseconds := 100 |} |});
   (lit "c6",
    {| Firestore.senderId := Some alice; Firestore.receiverId := bob;
       Firestore.groupId := Some g1; Firestore.message := lit "second";
       Firestore.timestamp :=
         Some {| Firestore.seconds := 5; Firestore.nanoseconds := 900 |} |})].

Definition pending_snapshot : list (jsstring * Firestore.ComplimentDoc) :=
  [(lit "c3", to_bob None); (lit "c1", to_bob (Some 5));
   (lit "c4", to_bob (Some 9))].

End Scenario.

(* ===================================================================== *)
(** ** What the page derives from the state *)
(* ===================================================================== *)

Module Page.

Import JS App.

(** [new Map(groupMembers.map(m => [m.id, m.userName]))]: the entries are
    set in order, a later entry of a key replacing an earlier one. *)
Definition memberMap (members : list (Firestore.Item Firestore.MemberDoc))
  : gmap (list N) (list N) :=
  foldl (λ m x, <[Firestore.item_id x
                   := Firestore.userName (Firestore.item_data x)]> m)
        ∅ members.

(** The name shown under a sent compliment:
    [memberMap.get(c.receiverId) || 'a member']. *)
Definition sentTo (members : list (Firestore.Item Firestore.MemberDoc))
    (c : Firestore.Item Firestore.ComplimentDoc) : jsstring :=
  match memberMap members !! Firestore.receiverId (Firestore.item_data c) with
  | Some n => if truthy n then n else lit "a member"
  | None => lit "a member"
  end.

(** The members the selector offers:
    [groupMembers.filter(m => m.id !== userId)]. *)
Definition selectableMembers (st : AppState)
  : list (Firestore.Item Firestore.MemberDoc) :=
  List.filter
    (λ m, negb (bool_decide (Some (Firestore.item_id m) = userId st)))
    (groupMembers st).

(** What the group page shows of the group. *)
Definition views (w : World) :=
  (groupName (ui w), groupMembers (ui w),
   receivedCompliments (ui w), sentCompliments (ui w)).

(** An event during which [localStorage] takes what the session writes
    and no other tab writes the remembered group id. *)
Definition storage_quiet (e : Event) : bool :=
  match e with
  | StorageChanged _ => false
  | Create env _ | Join env _ => storage_ok env
  | _ => true
  end.

(** The identity provider keeps handing out the identity [u]. *)
Definition identity_stable (u : jsstring) (evs : list Event) : Prop :=
  Forall (λ e, ∀ u', e = AuthStateChanged (Some u') → u' = u) evs.

End Page.

(* ===================================================================== *)
(** ** More of the concrete session *)
(* ===================================================================== *)

Module Cases.

Import JS App Scenario.

(** Alice has signed in and typed her name, not yet saved it. *)
Definition before_save : list Event :=
  [AuthStateChanged (Some alice); Snapshot 0%nat; TypeName (lit "  Al ")].

(** The store after Bob joined [g1] from his own session. *)
Definition store_with_bob : Firestore.Store :=
  Firestore.commit
    [Firestore.SetMember g1 bob
       {| Firestore.userName := lit "Bob";
          Firestore.joinedAt := at_second 110 |}]
    (db in_group).

(** Alice's session when the store has changed and the roster listener has
    not delivered yet. *)
Definition bob_in_store : World := run [StoreChanged store_with_bob] in_group.

(** Her session up to the point where the send form is filled in. *)
Definition session_composing : list Event :=
  session ++ [StoreChanged store_with_bob; Snapshot 2%nat;
              SelectFriend bob; TypeMessage (lit " hi ")].

(** Her session up to leaving the group. *)
Definition session_left : list Event := session ++ [Leave].

(** The group document of [g1]. *)
Definition book_club : Firestore.GroupDoc :=
  {| Firestore.groupName := lit "Book Club";
     Firestore.creatorId := Some alice;
     Firestore.createdAt := at_second 100 |}.

End Cases.

(* ===================================================================== *)
(** * Properties *)
(* ===================================================================== *)

Import JS App.

(** ** Sorting by a key, descending *)

Section SortByKey.

Context {A : Type} (key : A → Z).

Let cmp (a b : A) : Z := key b - key a.

Lemma insertBy_perm (x : A) (l : list A) :
  JSArray.insertBy cmp x l ≡ₚ x :: l.
Proof.
  induction l as [|y l IH]; simpl; [done|].
  destruct (cmp x y <=? 0); [done|].
  rewrite IH. apply Permutation_swap.
Qed.

Lemma sort_cons (x : A) (l : list A) :
  JSArray.sort cmp (x :: l) = JSArray.insertBy cmp x (JSArray.sort cmp l).
Proof. reflexivity. Qed.

Lemma sort_perm (l : list A) : JSArray.sort cmp l ≡ₚ l.
Proof.
  induction l as [|x l IH]; [done|].
  rewrite sort_cons, insertBy_perm. by rewrite IH.
Qed.

Lemma insertBy_sorted (x : A) (l : list A) :
  StronglySorted (λ a b, key b ≤ key a) l →
  StronglySorted (λ a b, key b ≤ key a) (JSArray.insertBy cmp x l).
Proof.
  induction 1 as [|y l Hl IH Hy]; simpl.
  - repeat constructor.
  - destruct (Z.leb_spec (cmp x y) 0) as [Hle|Hgt];
      [unfold cmp in Hle | unfold cmp in Hgt].
    + constructor; [by constructor|].
      constructor; [lia|].
      eapply Forall_impl; [exact Hy|]. simpl. intros z Hz. lia.
    + constructor; [exact IH|].
      rewrite insertBy_perm. constructor; [lia | exact Hy].
Qed.

Lemma sort_sorted (l : list A) :
  StronglySorted (λ a b, key b ≤ key a) (JSArray.sort cmp l).
Proof.
  induction l as [|x l IH]; [constructor|].
  rewrite sort_cons. by apply insertBy_sorted.
Qed.

(** Insertion never moves an element across another one of the same
    key. *)
Lemma insertBy_stable (k : Z) (x : A) (l : list A) :
  List.filter (λ a, key a =? k) (JSArray.insertBy cmp x l)
  = List.filter (λ a, key a =? k) (x :: l).
Proof.
  induction l as [|y l IH]; [done|].
  cbn [JSArray.insertBy].
  destruct (Z.leb_spec (cmp x y) 0) as [Hle|Hgt]; [done|].
  unfold cmp in Hgt.
  cbn [List.filter] in *. rewrite IH.
  destruct (Z.eqb_spec (key x) k), (Z.eqb_spec (key y) k); try done; lia.
Qed.

Lemma sort_stable (k : Z) (l : list A) :
  List.filter (λ a, key a =? k) (JSArray.sort cmp l)
  = List.filter (λ a, key a =? k) l.
Proof.
  induction l as [|x l IH]; [done|].
  rewrite sort_cons, insertBy_stable. cbn [List.filter]. by rewrite IH.
Qed.

Lemma filter_key_head (k : Z) (x : A) (l : list A) :
  key x = k →
  List.filter (λ a, key a =? k) (x :: l)
  = x :: List.filter (λ a, key a =? k) l.
Proof. intros <-. simpl. by rewrite Z.eqb_refl. Qed.

Lemma filter_key_skip (k : Z) (x : A) (l : list A) :
  key x ≠ k →
  List.filter (λ a, key a =? k) (x :: l) = List.filter (λ a, key a =? k) l.
Proof. intros Hne. simpl. by destruct (Z.eqb_spec (key x) k). Qed.

(** Two lists sorted by descending key that agree on the order of the
    elements of each key are the same list. *)
Lemma sorted_stable_unique (l1 l2 : list A) :
  StronglySorted (λ a b, key b ≤ key a) l1 →
  StronglySorted (λ a b, key b ≤ key a) l2 →
  (∀ k, List.filter (λ a, key a =? k) l1
        = List.filter (λ a, key a =? k) l2) →
  l1 = l2.
Proof.
  intros H1. revert l2. induction H1 as [|x l1 Hs1 IH Hx]; intros l2 H2 Hf.
  - destruct l2 as [|y l2]; [done|].
    specialize (Hf (key y)). rewrite filter_key_head in Hf by done. done.
  - destruct H2 as [|y l2 Hs2 Hy].
    { specialize (Hf (key x)). rewrite filter_key_head in Hf by done. done. }
    assert (Hle : ∀ (a : A) (l l' : list A) (b : A),
              Forall (λ c, key c ≤ key a) l →
              List.filter (λ c, key c =? key b) (a :: l)
              = List.filter (λ c, key c =? key b) (b :: l') →
              key b ≤ key a).
    { intros a l l' b Ha E. rewrite (filter_key_head (key b) b) in E by done.
      assert (Hin : b ∈ List.filter (λ c, key c =? key b) (a :: l))
        by (rewrite E; left).
      apply list_elem_of_In, filter_In in Hin as [Hin Hk].
      apply Z.eqb_eq in Hk. destruct Hin as [->|Hin]; [lia|].
      rewrite Forall_forall in Ha. apply list_elem_of_In in Hin.
      specialize (Ha _ Hin). cbv beta in Ha. lia. }
    assert (Hk : key x = key y).
    { apply Z.le_antisymm.
      - apply (Hle y l2 l1 x Hy). symmetry. apply Hf.
      - apply (Hle x l1 l2 y Hx). apply Hf. }
    pose proof (Hf (key x)) as E.
    rewrite (filter_key_head (key x) x), (filter_key_head (key x) y) in E
      by done.
    injection E as -> E. f_equal. apply IH; [done|].
    intros k. destruct (decide (key y = k)) as [<-|Hne]; [done|].
    specialize (Hf k). by rewrite !filter_key_skip in Hf.
Qed.

(** Whatever stable sorting procedure an engine uses, its result on this
    comparator is the one [JSArray.sort] computes. *)
Lemma sort_is_the_stable_sort (l l' : list A) :
  StronglySorted (λ a b, key b ≤ key a) l' →
  (∀ k, List.filter (λ a, key a =? k) l'
        = List.filter (λ a, key a =? k) l) →
  l' = JSArray.sort cmp l.
Proof.
  intros Hs Hf. apply sorted_stable_unique; [done | apply sort_sorted |].
  intros k. by rewrite sort_stable.
Qed.

End SortByKey.

Lemma complimentsOf_perm docs :
  complimentsOf docs ≡ₚ map Firestore.withId docs.
Proof. apply (sort_perm secondsOrZero). Qed.

Lemma complimentsOf_sorted docs :
  StronglySorted (λ a b, secondsOrZero b ≤ secondsOrZero a) (complimentsOf docs).
Proof. apply (sort_sorted secondsOrZero). Qed.

Lemma complimentsOf_stable k docs :
  List.filter (λ c, secondsOrZero c =? k) (complimentsOf docs)
  = List.filter (λ c, secondsOrZero c =? k) (map Firestore.withId docs).
Proof. apply (sort_stable secondsOrZero). Qed.

(** A sorted list lists its elements by descending key: whatever comes
    later has a key that is not larger. *)
Lemma sorted_later_le {A} (key : A → Z) (l : list A) (i j : nat) (a b : A) :
  StronglySorted (λ a b, key b ≤ key a) l →
  (i < j)%nat → l !! i = Some a → l !! j = Some b → key b ≤ key a.
Proof.
  intros Hs. revert i j a b.
  induction Hs as [|x l Hs IH Hx]; intros i j a b Hij Hi Hj.
  - done.
  - destruct i as [|i], j as [|j]; try lia; simpl in *.
    + injection Hi as <-. rewrite Forall_forall in Hx. apply Hx.
      by eapply list_elem_of_lookup_2.
    + apply (IH i j); [lia|done..].
Qed.

(** ** The compliment views *)

Lemma or_zero_id (n : Z) : or_zero n = n.
Proof. unfold or_zero. destruct (Z.eqb_spec n 0); congruence. Qed.

Lemma secondsOrZero_spec (c : Firestore.Item Firestore.ComplimentDoc) :
  secondsOrZero c
  = match Firestore.timestamp (Firestore.item_data c) with
    | Some t => Firestore.seconds t
    | None => 0
    end.
Proof. unfold secondsOrZero. destruct (Firestore.timestamp _); [apply or_zero_id|done]. Qed.

#[local] Instance withId_inj {D} : Inj (=) (=) (@Firestore.withId D).
Proof. intros [i d] [i' d'] [=]. simpl in *. congruence. Qed.

Lemma elem_of_withId_filter {D} (P : jsstring * D → bool)
    (m : gmap (list N) D) (c : Firestore.Item D) :
  c ∈ map Firestore.withId (List.filter P (map_to_list m))
  ↔ m !! Firestore.item_id c = Some (Firestore.item_data c)
    ∧ P (Firestore.item_id c, Firestore.item_data c) = true.
Proof.
  rewrite list_elem_of_fmap. split.
  - intros [[i d] [-> Hin]]. apply list_elem_of_In, filter_In in Hin.
    destruct Hin as [Hin HP]. apply list_elem_of_In, elem_of_map_to_list in Hin.
    done.
  - intros [Hm HP]. exists (Firestore.item_id c, Firestore.item_data c).
    split; [by destruct c|].
    apply list_elem_of_In, filter_In. split; [|done].
    by apply list_elem_of_In, elem_of_map_to_list.
Qed.


Lemma elem_of_receivedView s u g c :
  c ∈ receivedView s u g
  ↔ Firestore.compliments s !! Firestore.item_id c = Some (Firestore.item_data c)
    ∧ Firestore.receiverId (Firestore.item_data c) = u
    ∧ Firestore.groupId (Firestore.item_data c) = Some g.
Proof.
  unfold receivedView. rewrite complimentsOf_perm.
  unfold Firestore.receivedQuery. rewrite elem_of_withId_filter.
  unfold Firestore.receivedMatch. simpl.
  rewrite andb_true_iff, !bool_decide_eq_true. tauto.
Qed.

Lemma elem_of_sentView s u g c :
  c ∈ sentView s u g
  ↔ Firestore.compliments s !! Firestore.item_id c = Some (Firestore.item_data c)
    ∧ Firestore.senderId (Firestore.item_data c) = Some u
    ∧ Firestore.groupId (Firestore.item_data c) = Some g.
Proof.
  unfold sentView. rewrite complimentsOf_perm.
  unfold Firestore.sentQuery. rewrite elem_of_withId_filter.
  unfold Firestore.sentMatch. simpl.
  rewrite andb_true_iff, !bool_decide_eq_true. tauto.
Qed.




(** ** Strings *)

Lemma truthy_true (s : jsstring) : truthy s = true ↔ s ≠ [].
Proof. by destruct s. Qed.

(** A string literal is its code units: two literals that differ are
    different strings. *)
Lemma lit_inj (a b : string) : lit a = lit b → a = b.
Proof.
  unfold lit. revert b. induction a as [|c a IH]; intros [|d b]; simpl; try done.
  intros [= Hc Hab]. f_equal; [|by apply IH].
  rewrite <- (ascii_N_embedding c), <- (ascii_N_embedding d). by rewrite Hc.
Qed.

(** ** Evaluating the handlers *)

Arguments lit : simpl never.
Arguments trim : simpl never.
Arguments showNotification : simpl never.
Arguments with_db : simpl never.
Arguments setIsEditingName : simpl never.
Arguments setCurrentGroupId : simpl never.
Arguments with_lastGroupId : simpl never.
Arguments clearLastGroupId : simpl never.
Arguments Firestore.doc : simpl never.
Arguments Firestore.getDoc : simpl never.
Arguments Firestore.refId : simpl never.
Arguments Firestore.groupNameField : simpl never.
Arguments setComplimentMessage : simpl never.
Arguments setSelectedFriendId : simpl never.
Arguments Firestore.commit : simpl never.

(** Unfolds a handler down to the primitives of [Act]. *)
Ltac unfold_handler :=
  unfold exec, handleSaveName, handleCreateGroup, handleJoinGroup,
    handleSendCompliment, bind, try_catch, getState, act, ret, throw,
    newDocId, serverTimestamp, docSegment, commitWrites, docRef, getDoc,
    setLastGroupId;
  cbn beta iota.

(** Takes the branches that the hypotheses select. *)
Ltac take_branches :=
  repeat (progress
    (repeat match goal with
            | H : ?l = _ |- context [?l] => rewrite H
            end; simpl)).

Ltac run_handler := unfold_handler; take_branches; try reflexivity.

Section SaveName.

Context (env : Env) (w : World).

Lemma saveName_blank :
  trim (editingName (ui w)) = [] →
  exec handleSaveName env w
  = showNotification (lit "Please enter a name.") error w.
Proof. intros H. run_handler. Qed.

Lemma saveName_committed (uid : jsstring) :
  trim (editingName (ui w)) ≠ [] →
  userId (ui w) = Some uid → uid ≠ [] → write_ok env = true →
  exec handleSaveName env w
  = setIsEditingName false
      (showNotification (lit "Name updated successfully!") success
         (with_db
            (Firestore.commit
               [Firestore.SetUser uid
                  {[ "name"%string := trim (editingName (ui w)) ]}] (db w))
            w)).
Proof.
  intros Hn%truthy_true Hu Hne%truthy_true Hok. run_handler.
Qed.

End SaveName.
(** ** Reading a world *)

(** Replaces a world by its components, so that every projection of a
    world built from it by the setters computes. *)
Ltac open_world w :=
  destruct w as [? ? [] ? ? ? ? ? ?];
  cbn [db published ui lastGroupId shown listeners next_handle
       profile_fx group_fx
       userId isAuthReady userName editingName isEditingName
       currentGroupId groupName groupMembers receivedCompliments
       sentCompliments complimentMessage selectedFriendId notification] in *.

(** Computes the projections of worlds built by the setters, by need: the
    world below a setter is shared, not copied. *)
Ltac proj :=
  lazy beta iota zeta delta
    [handleLeaveGroup showNotification
     clearLastGroupId setUserId setIsAuthReady setUserName
     setEditingName setIsEditingName setCurrentGroupId setGroupName
     setGroupMembers setReceivedCompliments setSentCompliments
     setComplimentMessage setSelectedFriendId setNotification
     with_ui with_db with_shown with_lastGroupId with_listeners
     with_profile_fx with_group_fx
     db published ui lastGroupId shown listeners next_handle
     profile_fx group_fx
     userId isAuthReady userName editingName isEditingName
     currentGroupId groupName groupMembers receivedCompliments
     sentCompliments complimentMessage selectedFriendId notification].

Section CreateGroup.

Context (env : Env) (w : World) (newGroupName : jsstring).

Lemma createGroup_committed (uid : jsstring) :
  trim newGroupName ≠ [] → userName (ui w) ≠ [] →
  userId (ui w) = Some uid → uid ≠ [] → write_ok env = true →
  storage_ok env = true →
  exec (handleCreateGroup newGroupName) env w
  = showNotification
      (lit "Group " ++ dquote ++ newGroupName ++ dquote ++ lit " created!")
      success
      (with_lastGroupId (Some (auto_id env))
         (setCurrentGroupId (Some (auto_id env))
            (with_db (Firestore.commit (createBatch env (ui w) newGroupName uid) (db w)) w))).
Proof.
  intros Hn%truthy_true Hun%truthy_true Hu Hne%truthy_true Hok Hst.
  run_handler.
Qed.

(** The batch is committed and the group entered, then [setItem] throws:
    the handler ends in its [catch]. *)
Lemma createGroup_unremembered (uid : jsstring) :
  trim newGroupName ≠ [] → userName (ui w) ≠ [] →
  userId (ui w) = Some uid → uid ≠ [] → write_ok env = true →
  storage_ok env = false →
  exec (handleCreateGroup newGroupName) env w
  = showNotification (lit "Could not create the group.") error
      (setCurrentGroupId (Some (auto_id env))
         (with_db
            (Firestore.commit (createBatch env (ui w) newGroupName uid)
               (db w)) w)).
Proof.
  intros Hn%truthy_true Hun%truthy_true Hu Hne%truthy_true Hok Hst.
  run_handler.
Qed.

Lemma createGroup_rejected (uid : jsstring) :
  trim newGroupName ≠ [] → userName (ui w) ≠ [] →
  userId (ui w) = Some uid → uid ≠ [] → write_ok env = false →
  exec (handleCreateGroup newGroupName) env w
  = showNotification (lit "Could not create the group.") error w.
Proof.
  intros Hn%truthy_true Hun%truthy_true Hu Hne%truthy_true Hok. run_handler.
Qed.

End CreateGroup.

Section JoinGroup.

Context (env : Env) (w : World) (groupIdToJoin : jsstring).

(** The reference of the typed id cannot be built: [doc] throws inside
    the [try]. *)
Lemma joinGroup_no_ref :
  trim groupIdToJoin ≠ [] → userName (ui w) ≠ [] →
  Firestore.doc [lit "groups"; trim groupIdToJoin] = None →
  exec (handleJoinGroup groupIdToJoin) env w
  = showNotification (lit "Could not join the group.") error w.
Proof.
  intros Hn%truthy_true Hun%truthy_true Hd. run_handler.
Qed.

(** Whenever no document is stored under the reference, all the handler
    does is show one notice. *)
Lemma joinGroup_absent :
  (∀ p, Firestore.doc [lit "groups"; trim groupIdToJoin] = Some p →
        Firestore.getDoc (db w) p = None) →
  ∃ m, exec (handleJoinGroup groupIdToJoin) env w = showNotification m error w.
Proof.
  intros Hg. unfold_handler.
  destruct (truthy (trim groupIdToJoin)); simpl; [|by eexists].
  destruct (truthy (userName (ui w))); simpl; [|by eexists].
  destruct (Firestore.doc _) as [p|]; simpl; [|by eexists].
  destruct (read_ok env); simpl; [|by eexists].
  rewrite (Hg p eq_refl). by eexists.
Qed.

Lemma joinGroup_not_found (p : list jsstring) :
  trim groupIdToJoin ≠ [] → userName (ui w) ≠ [] → read_ok env = true →
  Firestore.doc [lit "groups"; trim groupIdToJoin] = Some p →
  Firestore.getDoc (db w) p = None →
  exec (handleJoinGroup groupIdToJoin) env w
  = showNotification (lit "No group found with that ID.") error w.
Proof.
  intros Hn%truthy_true Hun%truthy_true Hr Hd Hg. run_handler.
Qed.

Lemma joinGroup_unread :
  trim groupIdToJoin ≠ [] → userName (ui w) ≠ [] → read_ok env = false →
  exec (handleJoinGroup groupIdToJoin) env w
  = showNotification (lit "Could not join the group.") error w.
Proof.
  intros Hn%truthy_true Hun%truthy_true Hr. unfold_handler.
  rewrite Hn, Hun. simpl. destruct (Firestore.doc _); simpl; [|done].
  by rewrite Hr.
Qed.

Lemma joinGroup_rejected (uid : jsstring) (p : list jsstring)
    (data : Firestore.DocData) :
  trim groupIdToJoin ≠ [] → userName (ui w) ≠ [] →
  userId (ui w) = Some uid → uid ≠ [] →
  read_ok env = true → write_ok env = false →
  Firestore.doc [lit "groups"; trim groupIdToJoin] = Some p →
  Firestore.getDoc (db w) p = Some data →
  exec (handleJoinGroup groupIdToJoin) env w
  = showNotification (lit "Could not join the group.") error w.
Proof.
  intros Hn%truthy_true Hun%truthy_true Hu Hne%truthy_true Hr Hok Hd Hg.
  run_handler.
Qed.

Lemma joinGroup_committed (uid : jsstring) (p : list jsstring)
    (data : Firestore.DocData) :
  trim groupIdToJoin ≠ [] → userName (ui w) ≠ [] →
  userId (ui w) = Some uid → uid ≠ [] →
  read_ok env = true → write_ok env = true → storage_ok env = true →
  Firestore.doc [lit "groups"; trim groupIdToJoin] = Some p →
  Firestore.getDoc (db w) p = Some data →
  exec (handleJoinGroup groupIdToJoin) env w
  = showNotification
      (lit "Successfully joined " ++ dquote ++ Firestore.groupNameField data
         ++ dquote ++ lit "!") success
      (with_lastGroupId (Some (Firestore.refId p))
         (setCurrentGroupId (Some (Firestore.refId p))
            (with_db
               (Firestore.commit
                  [Firestore.SetMember (Firestore.refId p) uid
                     {| Firestore.userName := userName (ui w);
                        Firestore.joinedAt := server_time env |}] (db w))
               w))).
Proof.
  intros Hn%truthy_true Hun%truthy_true Hu Hne%truthy_true Hr Hok Hst Hd Hg.
  run_handler.
Qed.

(** The membership is written and the group entered, then [setItem]
    throws: the handler ends in its [catch]. *)
Lemma joinGroup_unremembered (uid : jsstring) (p : list jsstring)
    (data : Firestore.DocData) :
  trim groupIdToJoin ≠ [] → userName (ui w) ≠ [] →
  userId (ui w) = Some uid → uid ≠ [] →
  read_ok env = true → write_ok env = true → storage_ok env = false →
  Firestore.doc [lit "groups"; trim groupIdToJoin] = Some p →
  Firestore.getDoc (db w) p = Some data →
  exec (handleJoinGroup groupIdToJoin) env w
  = showNotification (lit "Could not join the group.") error
      (setCurrentGroupId (Some (Firestore.refId p))
         (with_db
            (Firestore.commit
               [Firestore.SetMember (Firestore.refId p) uid
                  {| Firestore.userName := userName (ui w);
                     Firestore.joinedAt := server_time env |}] (db w))
            w)).
Proof.
  intros Hn%truthy_true Hun%truthy_true Hu Hne%truthy_true Hr Hok Hst Hd Hg.
  run_handler.
Qed.

End JoinGroup.

Section SendCompliment.

Context (env : Env) (w : World).

Lemma sendCompliment_invalid :
  selectedFriendId (ui w) = [] ∨ trim (complimentMessage (ui w)) = [] →
  exec handleSendCompliment env w
  = showNotification
      (lit "Please select a member and write a message.") error w.
Proof.
  intros [H|H]; unfold_handler; rewrite H; simpl;
    rewrite ?orb_true_r; reflexivity.
Qed.

Lemma sendCompliment_committed :
  selectedFriendId (ui w) ≠ [] → trim (complimentMessage (ui w)) ≠ [] →
  write_ok env = true →
  exec handleSendCompliment env w
  = setSelectedFriendId []
      (setComplimentMessage []
         (showNotification (lit "Secret compliment sent!") success
            (with_db
               (Firestore.commit
                  [Firestore.SetCompliment (auto_id env)
                     (complimentRecord env (ui w))]
                  (db w))
               w))).
Proof.
  intros Hf%truthy_true Hm%truthy_true Hok. run_handler.
Qed.

Lemma sendCompliment_rejected :
  selectedFriendId (ui w) ≠ [] → trim (complimentMessage (ui w)) ≠ [] →
  write_ok env = false →
  exec handleSendCompliment env w
  = showNotification (lit "Could not send your compliment.") error w.
Proof.
  intros Hf%truthy_true Hm%truthy_true Hok. run_handler.
Qed.

End SendCompliment.

Lemma map_to_list_inhabited {V} (m : gmap (list N) V) (k : list N) (v : V) :
  m !! k = Some v → (1 ≤ length (map_to_list m))%nat.
Proof.
  intros Hk. apply elem_of_map_to_list in Hk.
  destruct (map_to_list m); [by apply elem_of_nil in Hk | simpl; lia].
Qed.

(** A key of a map occurs once in its listing. *)
Lemma map_to_list_key_once {V} (m : gmap (list N) V) (k : list N) (v : V) :
  m !! k = Some v →
  length (List.filter (λ x, bool_decide (x.1 = k)) (map_to_list m)) = 1%nat.
Proof.
  intros Hk. apply elem_of_map_to_list in Hk.
  assert (Hnd : NoDup (map_to_list m).*1) by apply NoDup_fst_map_to_list.
  revert Hk Hnd. generalize (map_to_list m) as l.
  assert (Hnone : ∀ l : list (list N * V), k ∉ l.*1 →
            List.filter (λ x, bool_decide (x.1 = k)) l = []).
  { induction l as [|[k' v'] l IH]; [done|]. simpl.
    rewrite not_elem_of_cons. intros [Hne Hl].
    rewrite bool_decide_eq_false_2 by done. by apply IH. }
  induction l as [|[k' v'] l IH]; intros Hin Hnd.
  - by apply elem_of_nil in Hin.
  - simpl in *. apply NoDup_cons in Hnd as [Hk' Hnd].
    apply elem_of_cons in Hin as [[= <- <-]|Hin].
    + rewrite bool_decide_eq_true_2 by done. simpl.
      by rewrite Hnone.
    + rewrite bool_decide_eq_false_2; [by apply IH|].
      intros ->. apply Hk'. apply list_elem_of_fmap. by exists (k, v).
Qed.

(** ** The store after a write *)

Lemma commit_cons (x : Firestore.Write) (ws : list Firestore.Write)
    (s : Firestore.Store) :
  Firestore.commit (x :: ws) s = Firestore.commit ws (Firestore.apply_write s x).
Proof. reflexivity. Qed.

Lemma commit_nil (s : Firestore.Store) : Firestore.commit [] s = s.
Proof. reflexivity. Qed.

Lemma roster_of_SetMember s g u m :
  Firestore.roster_of (Firestore.apply_write s (Firestore.SetMember g u m)) g
  = <[u := m]> (Firestore.roster_of s g).
Proof.
  unfold Firestore.roster_of at 1.
  cbn [Firestore.apply_write Firestore.members].
  by rewrite lookup_insert_eq.
Qed.

Lemma roster_of_SetMember_ne s g u m g' :
  g ≠ g' →
  Firestore.roster_of (Firestore.apply_write s (Firestore.SetMember g u m)) g'
  = Firestore.roster_of s g'.
Proof.
  intros Hne. unfold Firestore.roster_of.
  cbn [Firestore.apply_write Firestore.members].
  by rewrite lookup_insert_ne.
Qed.

Lemma roster_of_SetGroup s g d g' :
  Firestore.roster_of (Firestore.apply_write s (Firestore.SetGroup g d)) g'
  = Firestore.roster_of s g'.
Proof. reflexivity. Qed.

Lemma groups_SetGroup s g d :
  Firestore.groups (Firestore.apply_write s (Firestore.SetGroup g d))
  = <[g := d]> (Firestore.groups s).
Proof. reflexivity. Qed.

Lemma groups_SetMember s g u m :
  Firestore.groups (Firestore.apply_write s (Firestore.SetMember g u m))
  = Firestore.groups s.
Proof. reflexivity. Qed.

Lemma users_SetUser s u d :
  Firestore.users (Firestore.apply_write s (Firestore.SetUser u d))
  = <[u := d]> (Firestore.users s).
Proof. reflexivity. Qed.

Lemma compliments_SetCompliment s id d :
  Firestore.compliments
    (Firestore.apply_write s (Firestore.SetCompliment id d))
  = <[id := d]> (Firestore.compliments s).
Proof. reflexivity. Qed.

Lemma membersQuery_inhabited s g u m :
  Firestore.roster_of s g !! u = Some m →
  (1 ≤ length (Firestore.membersQuery s g))%nat.
Proof. apply map_to_list_inhabited. Qed.

(** ** Document references *)

Lemma split_no_slash (s : jsstring) :
  Firestore.slash ∉ s → Firestore.split s = [s].
Proof.
  induction s as [|c s IH]; [done|]. intros [Hc Hs]%not_elem_of_cons.
  cbn [Firestore.split]. rewrite IH by done.
  destruct (N.eqb_spec c Firestore.slash); [by subst|done].
Qed.

Lemma hasDoubleSlash_no_slash (s : jsstring) :
  Firestore.slash ∉ s → Firestore.hasDoubleSlash s = false.
Proof.
  induction s as [|a s IH]; [done|]. intros [Ha Hs]%not_elem_of_cons.
  destruct s as [|b s]; [done|].
  change (((a =? Firestore.slash) && (b =? Firestore.slash))%N
          || Firestore.hasDoubleSlash (b :: s) = false).
  rewrite IH by done.
  destruct (N.eqb_spec a Firestore.slash); [by subst|done].
Qed.

(** An id without '/' is the one segment of its reference. *)
Lemma doc_one_segment (c id : jsstring) :
  c ≠ [] → Firestore.slash ∉ c → id ≠ [] → Firestore.slash ∉ id →
  Firestore.doc [c; id] = Some [c; id].
Proof.
  intros Hc Hcs Hid Hids. unfold Firestore.doc, Firestore.fromString.
  cbn [head truthy_opt]. rewrite (proj2 (truthy_true c) Hc).
  cbn [existsb]. rewrite !hasDoubleSlash_no_slash by done.
  cbn [orb map concat]. unfold Firestore.segments.
  rewrite !split_no_slash by done. cbn [List.filter].
  by destruct c, id.
Qed.

Lemma groups_no_slash : Firestore.slash ∉ lit "groups".
Proof.
  intros H%list_elem_of_In. vm_compute in H.
  repeat (destruct H as [H|H]; [discriminate H|]). destruct H.
Qed.

Lemma doc_group_id (id : jsstring) :
  id ≠ [] → Firestore.slash ∉ id →
  Firestore.doc [lit "groups"; id] = Some [lit "groups"; id].
Proof. intros. by apply doc_one_segment; [|apply groups_no_slash|..]. Qed.

Lemma getDoc_group (s : Firestore.Store) (g : jsstring) :
  Firestore.getDoc s [lit "groups"; g]
  = Firestore.GroupData <$> Firestore.groups s !! g.
Proof.
  unfold Firestore.getDoc.
  rewrite (bool_decide_eq_false_2 (lit "groups" = lit "users"))
    by (intros H%lit_inj; discriminate).
  by rewrite bool_decide_eq_true_2.
Qed.

Lemma getDoc_member (s : Firestore.Store) (g u : jsstring) :
  Firestore.getDoc s [lit "groups"; g; lit "members"; u]
  = Firestore.MemberData <$> Firestore.roster_of s g !! u.
Proof.
  unfold Firestore.getDoc. by rewrite !bool_decide_eq_true_2.
Qed.

(** No segment of a path holds a '/', and none is empty. *)
Lemma split_slash_free (s seg : jsstring) :
  seg ∈ Firestore.split s → Firestore.slash ∉ seg.
Proof.
  revert seg. induction s as [|c s IH]; intros seg.
  - cbn [Firestore.split]. intros ->%list_elem_of_singleton.
    apply not_elem_of_nil.
  - cbn [Firestore.split]. destruct (N.eqb_spec c Firestore.slash) as [->|Hc].
    + intros [->|Hin]%elem_of_cons; [apply not_elem_of_nil|by apply IH].
    + destruct (Firestore.split s) as [|seg0 segs].
      * intros ->%list_elem_of_singleton.
        apply not_elem_of_cons. split; [done|apply not_elem_of_nil].
      * intros [->|Hin]%elem_of_cons.
        -- apply not_elem_of_cons. split; [done|]. apply IH. by left.
        -- apply IH. by right.
Qed.

Lemma segments_spec (s seg : jsstring) :
  seg ∈ Firestore.segments s → seg ≠ [] ∧ Firestore.slash ∉ seg.
Proof.
  unfold Firestore.segments.
  intros [Hin Ht]%list_elem_of_In%filter_In. apply list_elem_of_In in Hin.
  split; [by destruct seg|by eapply split_slash_free].
Qed.

(** The reference [doc(db, "groups", id)], when it can be built, is the
    path of "groups" and the segments of the id, and its id is one of
    them. *)
Lemma doc_groups_spec (id : jsstring) (p : list jsstring) :
  Firestore.doc [lit "groups"; id] = Some p →
  p = lit "groups" :: Firestore.segments id
  ∧ Firestore.refId p ∈ Firestore.segments id.
Proof.
  unfold Firestore.doc, Firestore.fromString.
  change (truthy_opt (head [lit "groups"; id])) with true. cbv iota.
  destruct (existsb _ _); [done|].
  cbn [map concat]. rewrite app_nil_r.
  change (Firestore.segments (lit "groups")) with [lit "groups"].
  cbn [app]. destruct (Firestore.segments id) as [|x l] eqn:Hs; [done|].
  destruct (Nat.even (length (lit "groups" :: x :: l))); [|done].
  intros [= <-]. split; [done|].
  unfold Firestore.refId.
  change (List.last (lit "groups" :: x :: l) []) with (List.last (x :: l) []).
  destruct (exists_last (l := x :: l) ltac:(done)) as (l' & y & ->).
  rewrite last_last. apply elem_of_app. right. by left.
Qed.

(** ** Group creation *)

(** The store after the batch of [handleCreateGroup]. *)
Lemma commit_createBatch env st name uid s :
  let s' := Firestore.commit (createBatch env st name uid) s in
  Firestore.groups s'
  = <[auto_id env :=
        {| Firestore.groupName := trim name;
           Firestore.creatorId := Some uid;
           Firestore.createdAt := server_time env |}]> (Firestore.groups s)
  ∧ Firestore.roster_of s' (auto_id env)
    = <[uid := {| Firestore.userName := userName st;
                  Firestore.joinedAt := server_time env |}]>
        (Firestore.roster_of s (auto_id env))
  ∧ ∀ g', auto_id env ≠ g' →
          Firestore.roster_of s' g' = Firestore.roster_of s g'.
Proof.
  unfold createBatch. cbv zeta. rewrite !commit_cons, commit_nil.
  split_and!.
  - by rewrite groups_SetMember, groups_SetGroup.
  - by rewrite roster_of_SetMember, roster_of_SetGroup.
  - intros g' Hne. by rewrite roster_of_SetMember_ne, roster_of_SetGroup.
Qed.

(** C1 (atomic group birth, invariant I1).  A call of [handleCreateGroup]
    that passes its checks, by a signed-in creator, puts the group document
    and the creator's membership document into one batch.  When the commit
    succeeds the store publishes exactly one new state, in which both
    documents are present, so that the roster of the new group has at
    least one entry; if every visible group had a member before, the same
    holds after.  When the commit fails the store is unchanged and nothing
    is published: neither document is visible. *)
Theorem create_group_atomic (env : Env) (w : World)
    (newGroupName uid : jsstring) :
  trim newGroupName ≠ [] → userName (ui w) ≠ [] →
  userId (ui w) = Some uid → uid ≠ [] →
  let gid := auto_id env in
  let w' := exec (handleCreateGroup newGroupName) env w in
  (write_ok env = true →
     published w' = published w ++ [db w']
     ∧ Firestore.groups (db w') !! gid
       = Some {| Firestore.groupName := trim newGroupName;
                 Firestore.creatorId := Some uid;
                 Firestore.createdAt := server_time env |}
     ∧ Firestore.roster_of (db w') gid !! uid
       = Some {| Firestore.userName := userName (ui w);
                 Firestore.joinedAt := server_time env |}
     ∧ (1 ≤ length (Firestore.membersQuery (db w') gid))%nat
     ∧ (groupsHaveMembers (db w) → groupsHaveMembers (db w'))
     ∧ currentGroupId (ui w') = Some gid)
  ∧ (write_ok env = false →
       db w' = db w ∧ published w' = published w
       ∧ currentGroupId (ui w') = currentGroupId (ui w)).
Proof.
  intros Hn Hun Hu Hne gid w'. subst gid w'. split; intros Hok.
  - pose proof (commit_createBatch env (ui w) newGroupName uid (db w)) as Hs.
    cbv zeta in Hs. revert Hs.
    assert (Hmem : ∀ s' : Firestore.Store,
              Firestore.roster_of s' (auto_id env)
              = <[uid := {| Firestore.userName := userName (ui w);
                            Firestore.joinedAt := server_time env |}]>
                  (Firestore.roster_of (db w) (auto_id env)) →
              Firestore.roster_of s' (auto_id env) !! uid
              = Some {| Firestore.userName := userName (ui w);
                        Firestore.joinedAt := server_time env |}).
    { intros s' ->. apply lookup_insert_eq. }
    revert Hmem.
    destruct (storage_ok env) eqn:Hst;
      [rewrite (createGroup_committed env w newGroupName uid) by assumption
      |rewrite (createGroup_unremembered env w newGroupName uid)
         by assumption];
      generalize (Firestore.commit (createBatch env (ui w) newGroupName uid)
                    (db w));
      intros s' Hmem (Hg & Hr & Hr'); specialize (Hmem s' Hr);
      clear Hn Hun Hu Hne Hok Hst; open_world w; proj;
      (split_and!;
       [ reflexivity
       | rewrite Hg; apply lookup_insert_eq
       | exact Hmem
       | exact (membersQuery_inhabited _ _ _ _ Hmem)
       | intros HI g' Hg'; destruct (decide (auto_id env = g')) as [<-|Hd];
         [ exact (membersQuery_inhabited _ _ _ _ Hmem)
         | rewrite Hg, lookup_insert_ne in Hg' by assumption;
           unfold Firestore.membersQuery; rewrite Hr' by assumption;
           apply HI, Hg' ]
       | reflexivity ]).
  - rewrite (createGroup_rejected env w newGroupName uid) by assumption.
    open_world w. proj. by split_and!.
Qed.

(** ** Joining a group *)

(** What a join that reaches its write leaves behind, whether or not the
    group id can be remembered afterwards. *)
Lemma joinGroup_effect (env : Env) (w : World)
    (groupIdToJoin uid : jsstring) (p : list jsstring)
    (data : Firestore.DocData) :
  trim groupIdToJoin ≠ [] → userName (ui w) ≠ [] →
  userId (ui w) = Some uid → uid ≠ [] →
  read_ok env = true → write_ok env = true →
  Firestore.doc [lit "groups"; trim groupIdToJoin] = Some p →
  Firestore.getDoc (db w) p = Some data →
  let w' := exec (handleJoinGroup groupIdToJoin) env w in
  db w' = Firestore.apply_write (db w)
            (Firestore.SetMember (Firestore.refId p) uid
               {| Firestore.userName := userName (ui w);
                  Firestore.joinedAt := server_time env |})
  ∧ published w' = published w ++ [db w']
  ∧ userName (ui w') = userName (ui w) ∧ userId (ui w') = userId (ui w)
  ∧ currentGroupId (ui w') = Some (Firestore.refId p).
Proof.
  intros Hn Hun Hu Hne Hr Hok Hd Hg w'. subst w'.
  destruct (storage_ok env) eqn:Hst;
    [rewrite (joinGroup_committed env w groupIdToJoin uid p data)
       by assumption
    |rewrite (joinGroup_unremembered env w groupIdToJoin uid p data)
       by assumption];
    generalize (Firestore.refId p); intros gid;
    clear; open_world w; proj; rewrite commit_cons, commit_nil;
    by split_and!.
Qed.

(** C4, as the code behaves.  [handleJoinGroup] hands the trimmed id to
    [doc(db, "groups", id)], which splits it on '/'.  When no document is
    stored under the reference, or the reference cannot be built, the
    handler writes nothing and the current and the remembered group stay
    as they were; the notice is "No group found with that ID." when the
    read answered, and "Could not join the group." when the reference
    could not be built.  But an id of the form [g/members/u] names the
    membership document of [u] in [g]: when that document exists the
    handler goes on, although no group document is involved: it writes a
    membership of the user under [u], the last segment, makes [u] the
    current and the remembered group, and reports that it joined
    "undefined". *)
Theorem join_unknown_group (env : Env) (w : World) (groupIdToJoin : jsstring) :
  let w' := exec (handleJoinGroup groupIdToJoin) env w in
  let ref := Firestore.doc [lit "groups"; trim groupIdToJoin] in
  ((∀ p, ref = Some p → Firestore.getDoc (db w) p = None) →
   db w' = db w ∧ published w' = published w
   ∧ currentGroupId (ui w') = currentGroupId (ui w)
   ∧ lastGroupId w' = lastGroupId w
   ∧ (∃ m, shown w' = shown w ++ [notice m error])
   ∧ (trim groupIdToJoin ≠ [] → userName (ui w) ≠ [] →
      (ref ≠ None → read_ok env = true →
       shown w' = shown w
                  ++ [notice (lit "No group found with that ID.") error])
      ∧ (ref = None →
         shown w' = shown w
                    ++ [notice (lit "Could not join the group.") error])))
  ∧ (∀ g u uid m,
       trim groupIdToJoin ≠ [] → userName (ui w) ≠ [] →
       userId (ui w) = Some uid → uid ≠ [] →
       read_ok env = true → write_ok env = true → storage_ok env = true →
       ref = Some [lit "groups"; g; lit "members"; u] →
       Firestore.roster_of (db w) g !! u = Some m →
       db w' = Firestore.commit
                 [Firestore.SetMember u uid
                    {| Firestore.userName := userName (ui w);
                       Firestore.joinedAt := server_time env |}] (db w)
       ∧ published w' = published w ++ [db w']
       ∧ Firestore.roster_of (db w') u !! uid
         = Some {| Firestore.userName := userName (ui w);
                   Firestore.joinedAt := server_time env |}
       ∧ Firestore.groups (db w') !! u = Firestore.groups (db w) !! u
       ∧ currentGroupId (ui w') = Some u ∧ lastGroupId w' = Some u
       ∧ shown w' = shown w
                    ++ [notice (lit "Successfully joined " ++ dquote
                                  ++ lit "undefined" ++ dquote ++ lit "!")
                          success]).
Proof.
  intros w' ref. subst w' ref. split.
  - intros Hg. split_and!.
    1-5: destruct (joinGroup_absent env w groupIdToJoin Hg) as [m ->];
      clear Hg; open_world w; proj; try reflexivity; by exists m.
    intros Hn Hun. split.
    + intros Hsome Hr.
      destruct (Firestore.doc _) as [p|] eqn:Hd; [|done].
      rewrite (joinGroup_not_found env w groupIdToJoin p)
        by (try assumption; by apply Hg).
      clear. open_world w. proj. reflexivity.
    + intros Hnone. rewrite joinGroup_no_ref by assumption.
      clear. open_world w. proj. reflexivity.
  - intros g u uid m Hn Hun Hu Hne Hr Hok Hst Hd Hm.
    assert (Hdoc : Firestore.getDoc (db w) [lit "groups"; g; lit "members"; u]
                   = Some (Firestore.MemberData m))
      by (by rewrite getDoc_member, Hm).
    rewrite (joinGroup_committed env w groupIdToJoin uid _ _
               Hn Hun Hu Hne Hr Hok Hst Hd Hdoc).
    change (Firestore.refId [lit "groups"; g; lit "members"; u]) with u.
    change (Firestore.groupNameField (Firestore.MemberData m))
      with (lit "undefined").
    clear. open_world w. proj. rewrite commit_cons, commit_nil.
    split_and!; try reflexivity.
    rewrite roster_of_SetMember. apply lookup_insert_eq.
Qed.

(** C5 (join is an upsert).  Two accepted calls of [handleJoinGroup] with
    the same group id, by the same identity under the same display name,
    leave one membership document for that identity in the roster of the
    group, and it carries the display name and the server time of the
    second call.  The typed id names the group [gid] through its
    reference [doc(db, "groups", id)]; for an id without '/', as every id
    of a stored document is, [gid] is the trimmed id itself.  Whether the
    group id can be remembered in [localStorage] after either call plays
    no part. *)
Theorem join_twice_upsert (env1 env2 : Env) (w : World)
    (groupIdToJoin gid uid : jsstring) (g : Firestore.GroupDoc) :
  trim groupIdToJoin ≠ [] → userName (ui w) ≠ [] →
  userId (ui w) = Some uid → uid ≠ [] →
  Firestore.doc [lit "groups"; trim groupIdToJoin]
  = Some [lit "groups"; gid] →
  Firestore.groups (db w) !! gid = Some g →
  read_ok env1 = true → write_ok env1 = true →
  read_ok env2 = true → write_ok env2 = true →
  let w1 := exec (handleJoinGroup groupIdToJoin) env1 w in
  let w2 := exec (handleJoinGroup groupIdToJoin) env2 w1 in
  Firestore.roster_of (db w1) gid !! uid
  = Some {| Firestore.userName := userName (ui w);
            Firestore.joinedAt := server_time env1 |}
  ∧ Firestore.roster_of (db w2) gid !! uid
    = Some {| Firestore.userName := userName (ui w);
              Firestore.joinedAt := server_time env2 |}
  ∧ length (List.filter (λ m, bool_decide (m.1 = uid))
              (Firestore.membersQuery (db w2) gid)) = 1%nat
  ∧ length (Firestore.membersQuery (db w2) gid)
    = length (Firestore.membersQuery (db w1) gid)
  ∧ (Firestore.slash ∉ trim groupIdToJoin → gid = trim groupIdToJoin).
Proof.
  intros Hn Hun Hu Hne Hd Hg Hr1 Hw1 Hr2 Hw2 w1 w2.
  assert (Hdoc : Firestore.getDoc (db w) [lit "groups"; gid]
                 = Some (Firestore.GroupData g))
    by (by rewrite getDoc_group, Hg).
  destruct (joinGroup_effect env1 w groupIdToJoin uid _ _
              Hn Hun Hu Hne Hr1 Hw1 Hd Hdoc) as (Hdb1 & _ & Hun1 & Hu1 & _).
  fold w1 in Hdb1, Hun1, Hu1.
  change (Firestore.refId [lit "groups"; gid]) with gid in Hdb1.
  rewrite Hu in Hu1.
  assert (Hg1 : Firestore.getDoc (db w1) [lit "groups"; gid]
                = Some (Firestore.GroupData g)).
  { rewrite getDoc_group, Hdb1, groups_SetMember. by rewrite Hg. }
  assert (Hun1' : userName (ui w1) ≠ []) by (by rewrite Hun1).
  destruct (joinGroup_effect env2 w1 groupIdToJoin uid _ _
              Hn Hun1' Hu1 Hne Hr2 Hw2 Hd Hg1) as (Hdb2 & _).
  fold w2 in Hdb2. clearbody w1 w2.
  change (Firestore.refId [lit "groups"; gid]) with gid in Hdb2.
  rewrite Hun1 in Hdb2.
  assert (R1 := roster_of_SetMember (db w) gid uid
                  {| Firestore.userName := userName (ui w);
                     Firestore.joinedAt := server_time env1 |}).
  assert (R2 := roster_of_SetMember (db w1) gid uid
                  {| Firestore.userName := userName (ui w);
                     Firestore.joinedAt := server_time env2 |}).
  rewrite <- Hdb1 in R1. rewrite <- Hdb2 in R2.
  split_and!.
  - rewrite R1. apply lookup_insert_eq.
  - rewrite R2. apply lookup_insert_eq.
  - unfold Firestore.membersQuery. eapply map_to_list_key_once.
    rewrite R2. apply lookup_insert_eq.
  - unfold Firestore.membersQuery. rewrite !length_map_to_list.
    rewrite R2, R1, insert_insert_eq.
    rewrite !map_size_insert. reflexivity.
  - intros Hs. rewrite doc_group_id in Hd by done. by injection Hd as <-.
Qed.

(** ** Saving the profile name *)

(** C6 (profile save).  [handleSaveName] saves the name being edited for
    the signed-in identity.  When the name trims to empty the handler only
    shows the validation notice: the store is unchanged and nothing is
    published.  When it does not, and the write is accepted, the profile
    document of the identity is replaced by the document whose only field
    is [name], holding the trimmed name, whatever the document held
    before; no other profile is touched; and the profile subscription of
    the identity then yields exactly the trimmed name as [userName]. *)
Theorem save_name_validates_and_replaces (env : Env) (w : World) :
  let name := editingName (ui w) in
  let w' := exec handleSaveName env w in
  (trim name = [] →
     db w' = db w ∧ published w' = published w
     ∧ shown w' = shown w ++ [notice (lit "Please enter a name.") error])
  ∧ (trim name ≠ [] →
     ∀ uid, userId (ui w) = Some uid → uid ≠ [] → write_ok env = true →
       Firestore.users (db w') !! uid = Some {[ "name"%string := trim name ]}
       ∧ (∀ uid', uid' ≠ uid →
            Firestore.users (db w') !! uid' = Firestore.users (db w) !! uid')
       ∧ published w' = published w ++ [db w']
       ∧ userName (ui (onProfileSnapshot (Firestore.users (db w') !! uid) w'))
         = trim name
       ∧ ∀ h l,
           List.find (λ l, (handle l =? h)%nat) (listeners w') = Some l →
           target l = TProfile uid →
           userName (ui (deliver h w')) = trim name).
Proof.
  intros name w'. subst name w'. split.
  - intros He. rewrite saveName_blank by assumption.
    clear. open_world w. proj. by split_and!.
  - intros Hne uid Hu Hnu Hok.
    rewrite (saveName_committed env w uid Hne Hu Hnu Hok).
    apply truthy_true in Hne. revert Hne.
    generalize (trim (editingName (ui w))). intros name Hne.
    assert (Hcb : ∀ w0, userName (ui (onProfileSnapshot
                     (Some {[ "name"%string := name ]}) w0)) = name).
    { intros w0. unfold onProfileSnapshot.
      rewrite lookup_singleton_eq, Hne. open_world w0. proj. reflexivity. }
    assert (Hdoc : ∀ s, Firestore.users
                     (Firestore.commit
                        [Firestore.SetUser uid {[ "name"%string := name ]}] s)
                     !! uid = Some {[ "name"%string := name ]}).
    { intros s. rewrite commit_cons, commit_nil, users_SetUser.
      apply lookup_insert_eq. }
    split_and!.
    + open_world w. proj. apply Hdoc.
    + intros uid' Hd. open_world w. proj.
      rewrite commit_cons, commit_nil, users_SetUser.
      by apply lookup_insert_ne.
    + open_world w. proj. reflexivity.
    + replace (Firestore.users (db _) !! uid)
        with (Some ({[ "name"%string := name ]} : Firestore.ProfileDoc));
        [apply Hcb|].
      open_world w. proj. symmetry. apply Hdoc.
    + intros h l Hf Ht. unfold deliver. rewrite Hf, Ht.
      replace (Firestore.users (db _) !! uid)
        with (Some ({[ "name"%string := name ]} : Firestore.ProfileDoc));
        [apply Hcb|].
      open_world w. proj. symmetry. apply Hdoc.
Qed.

(** ** Sending a compliment *)

(** C7 (send).  [handleSendCompliment] shows the validation notice exactly
    when no receiver is selected or the message trims to empty, and then
    the store is unchanged.  Otherwise, when the write is accepted under a
    fresh document id, the compliments collection gains exactly one
    record, with the sender, receiver, group and message of the call and
    the server's timestamp; the other collections are unchanged. *)
Theorem send_validates_and_writes_one (env : Env) (w : World) :
  let st := ui w in
  let w' := exec handleSendCompliment env w in
  let invalid :=
    selectedFriendId st = [] ∨ trim (complimentMessage st) = [] in
  (shown w' = shown w ++
     [notice (lit "Please select a member and write a message.") error]
   ↔ invalid)
  ∧ (invalid → db w' = db w ∧ published w' = published w)
  ∧ (¬ invalid → write_ok env = true →
     Firestore.compliments (db w) !! auto_id env = None →
       Firestore.compliments (db w')
       = <[auto_id env := complimentRecord env st]>
           (Firestore.compliments (db w))
       ∧ size (Firestore.compliments (db w'))
         = S (size (Firestore.compliments (db w)))
       ∧ Firestore.users (db w') = Firestore.users (db w)
       ∧ Firestore.groups (db w') = Firestore.groups (db w)
       ∧ Firestore.members (db w') = Firestore.members (db w)
       ∧ published w' = published w ++ [db w']).
Proof.
  intros st w' invalid. subst st w' invalid.
  assert (Hdec : ∀ s : jsstring, s = [] ∨ s ≠ []) by (intros []; auto).
  split_and!.
  - split.
    + intros Hs.
      destruct (Hdec (selectedFriendId (ui w))) as [|Hf]; [by left|].
      destruct (Hdec (trim (complimentMessage (ui w)))) as [|Hm]; [by right|].
      exfalso. destruct (write_ok env) eqn:Hok.
      * rewrite sendCompliment_committed in Hs by assumption. revert Hs.
        clear. open_world w. proj.
        intros [_ Hn]%app_inj_tail. apply (f_equal type) in Hn.
        discriminate Hn.
      * rewrite sendCompliment_rejected in Hs by assumption. revert Hs.
        clear. open_world w. proj.
        intros [_ Hn]%app_inj_tail. apply (f_equal message) in Hn.
        cbn [notice message] in Hn. apply lit_inj in Hn. discriminate Hn.
    + intros H. rewrite sendCompliment_invalid by assumption.
      clear. open_world w. proj. reflexivity.
  - intros H. rewrite sendCompliment_invalid by assumption.
    clear. open_world w. proj. by split.
  - intros Hv Hok Hfresh.
    rewrite sendCompliment_committed by tauto.
    generalize (complimentRecord env (ui w)). intros d. clear Hv.
    open_world w. proj.
    rewrite commit_cons, commit_nil, compliments_SetCompliment.
    split_and!; try reflexivity.
    by rewrite map_size_insert, Hfresh.
Qed.

(** C10 (the message is stored as typed).  For every message that does not
    trim to empty, sent to a selected receiver with the write accepted,
    the record written to the store holds the message string as it is in
    the state, whitespace around it included: [trim] is used by the check
    only. *)
Theorem compliment_message_stored_verbatim (env : Env) (w : World) :
  trim (complimentMessage (ui w)) ≠ [] →
  selectedFriendId (ui w) ≠ [] → write_ok env = true →
  let w' := exec handleSendCompliment env w in
  ∃ d, Firestore.compliments (db w') !! auto_id env = Some d
       ∧ Firestore.message d = complimentMessage (ui w).
Proof.
  intros Hm Hf Hok w'. subst w'.
  rewrite sendCompliment_committed by done.
  exists (complimentRecord env (ui w)). split; [|reflexivity].
  generalize (complimentRecord env (ui w)). intros d.
  clear. open_world w. proj.
  rewrite commit_cons, commit_nil, compliments_SetCompliment.
  apply lookup_insert_eq.
Qed.

(** ** Deletion of the current group *)

(** C8, as the code behaves.  When the group-document listener receives a
    snapshot whose document does not exist, the session leaves the group
    and the remembered group id is cleared, but [showNotification] is
    called twice: first with the deletion notice (an error), then, by
    [handleLeaveGroup], with "You have left the group." (a success), which
    replaces the deletion notice in the notification slot. *)
Theorem group_deleted_raises_two_notices (w : World) (h : nat)
    (l : Listener) (g : jsstring) :
  List.find (λ l, (handle l =? h)%nat) (listeners w) = Some l →
  target l = TGroup g →
  Firestore.groups (db w) !! g = None →
  let w' := deliver h w in
  currentGroupId (ui w') = None
  ∧ lastGroupId w' = None
  ∧ shown w' = shown w ++
      [notice (lit "The group you were in may have been deleted.") error;
       notice (lit "You have left the group.") success]
  ∧ notification (ui w') = notice (lit "You have left the group.") success.
Proof.
  intros Hf Ht Hg w'. subst w'. unfold deliver. rewrite Hf, Ht, Hg.
  unfold onGroupSnapshot. clear. open_world w. proj.
  split_and!; try reflexivity. by rewrite <- app_assoc.
Qed.

(** ** Order of the compliment views *)

Lemma StronglySorted_weaken {A} (R R' : A → A → Prop) (l : list A) :
  (∀ a b, R a b → R' a b) → StronglySorted R l → StronglySorted R' l.
Proof.
  intros HR. induction 1 as [|x l Hl IH Hx]; constructor; [exact IH|].
  eapply Forall_impl; [exact Hx|]. intros b. apply HR.
Qed.

(** C3, corrected (most recent first, to the second).  On every push,
    the received view and the sent view hold the pushed documents sorted
    by descending whole [seconds] of their timestamp, the only part the
    comparator reads, a missing timestamp counting as 0: such a record
    comes after every record stamped after the epoch.  Records of the
    same second keep the order of the snapshot, whatever their
    nanoseconds; so a record can come before a more recent one, but by
    less than a second. *)
Theorem views_sorted_by_timestamp_desc
    (docs : list (jsstring * Firestore.ComplimentDoc)) (w : World) :
  let key c :=
    match Firestore.timestamp (Firestore.item_data c) with
    | Some t => Firestore.seconds t
    | None => 0
    end in
  let newest_first v :=
    v ≡ₚ map Firestore.withId docs
    ∧ StronglySorted (λ a b, key b ≤ key a) v
    ∧ (∀ k, List.filter (λ c, key c =? k) v
            = List.filter (λ c, key c =? k) (map Firestore.withId docs))
    ∧ (∀ i j a b t,
         v !! i = Some a → v !! j = Some b →
         Firestore.timestamp (Firestore.item_data a) = None →
         Firestore.timestamp (Firestore.item_data b) = Some t →
         0 < Firestore.seconds t → (j < i)%nat)
    ∧ (∀ i j a b ta tb,
         v !! i = Some a → v !! j = Some b → (i < j)%nat →
         Firestore.timestamp (Firestore.item_data a) = Some ta →
         Firestore.timestamp (Firestore.item_data b) = Some tb →
         0 ≤ Firestore.nanoseconds ta →
         Firestore.nanoseconds tb < 1000000000 →
         Firestore.instant tb < Firestore.instant ta + 1000000000) in
  newest_first (receivedCompliments (ui (onReceivedSnapshot docs w)))
  ∧ newest_first (sentCompliments (ui (onSentSnapshot docs w))).
Proof.
  intros key newest_first.
  assert (Hkey : ∀ c, secondsOrZero c = key c) by apply secondsOrZero_spec.
  assert (H : newest_first (complimentsOf docs)).
  { unfold newest_first. split_and!.
    - apply complimentsOf_perm.
    - eapply StronglySorted_weaken; [|apply complimentsOf_sorted].
      intros a b. cbv beta. by rewrite !Hkey.
    - intros k.
      rewrite (filter_ext _ (λ c, secondsOrZero c =? k))
        by (intros c; by rewrite Hkey).
      rewrite complimentsOf_stable. apply filter_ext.
      intros c. by rewrite Hkey.
    - intros i j a b t Hi Hj Ha Hb Ht.
      destruct (decide (j < i)%nat) as [|Hge]; [done|]. exfalso.
      assert (Hkb : key b = Firestore.seconds t) by (unfold key; by rewrite Hb).
      assert (Hka : key a = 0) by (unfold key; by rewrite Ha).
      destruct (decide (i = j)) as [->|Hne].
      + rewrite Hi in Hj. injection Hj as ->. congruence.
      + pose proof (sorted_later_le secondsOrZero _ i j a b
                      (complimentsOf_sorted docs)) as Hle.
        specialize (Hle ltac:(lia) Hi Hj). rewrite !Hkey in Hle. lia.
    - intros i j a b ta tb Hi Hj Hij Ha Hb Hna Hnb.
      pose proof (sorted_later_le secondsOrZero _ i j a b
                    (complimentsOf_sorted docs) Hij Hi Hj) as Hle.
      rewrite !Hkey in Hle. unfold key in Hle. rewrite Ha, Hb in Hle.
      unfold Firestore.instant. lia. }
  split; exact H.
Qed.

(** ** Listeners and effects *)

Lemma filter_filter_b {A} (f g : A → bool) (l : list A) :
  List.filter f (List.filter g l) = List.filter (λ x, g x && f x) l.
Proof.
  induction l as [|x l IH]; [done|]. simpl.
  destruct (g x); simpl; [destruct (f x)|]; by rewrite IH.
Qed.

Lemma filter_all {A} (f : A → bool) (l : list A) :
  Forall (λ x, f x = true) l → List.filter f l = l.
Proof. induction 1 as [|x l Hx Hl IH]; [done|]. simpl. by rewrite Hx, IH. Qed.

Lemma filter_none {A} (f : A → bool) (l : list A) :
  Forall (λ x, f x = false) l → List.filter f l = [].
Proof. induction 1 as [|x l Hx Hl IH]; [done|]. simpl. by rewrite Hx. Qed.

Lemma handle_inj_on (L : list Listener) (a b : Listener) :
  NoDup (map handle L) → a ∈ L → b ∈ L → handle a = handle b → a = b.
Proof.
  induction L as [|x L IH]; intros Hnd Ha Hb Hab.
  - by apply elem_of_nil in Ha.
  - simpl in Hnd. apply NoDup_cons in Hnd as [Hx Hnd].
    apply elem_of_cons in Ha as [->|Ha], Hb as [->|Hb]; try done.
    + exfalso. apply Hx. rewrite Hab. apply list_elem_of_fmap. by exists b.
    + exfalso. apply Hx. rewrite <- Hab. apply list_elem_of_fmap. by exists a.
    + by apply IH.
Qed.

Lemma fresh_listeners_handles (n : nat) (ts : list Target) :
  map handle (fresh_listeners n ts) = seq n (length ts).
Proof.
  revert n. induction ts as [|t ts IH]; intros n; simpl; [done|].
  by rewrite IH.
Qed.

Lemma fresh_listeners_targets (n : nat) (ts : list Target) :
  map target (fresh_listeners n ts) = ts.
Proof.
  revert n. induction ts as [|t ts IH]; intros n; simpl; [done|].
  by rewrite IH.
Qed.

Lemma fresh_listeners_Forall (P : Target → Prop) (n : nat) (ts : list Target) :
  Forall P ts → Forall (λ l, P (target l)) (fresh_listeners n ts).
Proof.
  intros H. revert n. induction H as [|t ts Ht Hts IH]; intros n; simpl;
    constructor; [done | apply IH].
Qed.

Section Rewire.

(** One effect runs again: the listeners it owns, those selected by [sel],
    are disposed through their handles [hs], and listeners for [ts] are
    attached with handles from [n] on. *)

Context (sel : Target → bool) (L : list Listener) (n : nat)
  (hs : list nat) (ts : list Target).

Let selL (l : Listener) : bool := sel (target l).
Let L' : list Listener :=
  List.filter (λ l, negb (bool_decide (handle l ∈ hs))) L
  ++ fresh_listeners n ts.

Hypothesis Hnodup : NoDup (map handle L).
Hypothesis Hbelow : Forall (λ l, (handle l < n)%nat) L.
Hypothesis Hhs : map handle (List.filter selL L) = hs.
Hypothesis Hts : Forall (λ t, sel t = true) ts.

(** Disposing the handles of the selected listeners leaves the others. *)
Lemma dispose_selected :
  List.filter (λ l, negb (bool_decide (handle l ∈ hs))) L
  = List.filter (λ l, negb (selL l)) L.
Proof.
  apply filter_ext_in. intros l Hl%list_elem_of_In. f_equal.
  destruct (selL l) eqn:Hs.
  - apply bool_decide_eq_true_2. rewrite <- Hhs.
    apply list_elem_of_fmap. exists l. split; [done|].
    apply list_elem_of_In, filter_In. split; [by apply list_elem_of_In|done].
  - apply bool_decide_eq_false_2. rewrite <- Hhs.
    intros (l' & Hh & Hl')%list_elem_of_fmap.
    apply list_elem_of_In, filter_In in Hl' as [Hl' Hs'].
    apply list_elem_of_In in Hl'.
    assert (l = l') by by eapply handle_inj_on. subst l'. congruence.
Qed.

Lemma rewire_selected : List.filter selL L' = fresh_listeners n ts.
Proof.
  unfold L'. rewrite dispose_selected, List.filter_app, filter_filter_b.
  rewrite filter_none.
  - simpl. apply filter_all.
    apply (fresh_listeners_Forall (λ t, sel t = true) n ts Hts).
  - apply Forall_forall. intros l _. by destruct (selL l).
Qed.

Lemma rewire_others :
  List.filter (λ l, negb (selL l)) L' = List.filter (λ l, negb (selL l)) L.
Proof.
  unfold L'. rewrite dispose_selected, List.filter_app, filter_filter_b.
  rewrite (filter_none _ (fresh_listeners n ts)).
  - rewrite app_nil_r. apply filter_ext. intros l. by destruct (selL l).
  - eapply Forall_impl;
      [apply (fresh_listeners_Forall (λ t, sel t = true) n ts Hts)|].
    intros l Hl. unfold selL. cbv beta in Hl. by rewrite Hl.
Qed.

Lemma rewire_others_ext (f : Listener → bool) :
  (∀ l, f l = negb (selL l)) → List.filter f L' = List.filter f L.
Proof.
  intros Hf. rewrite !(filter_ext f (λ l, negb (selL l)) Hf).
  apply rewire_others.
Qed.

Lemma rewire_below : Forall (λ l, (handle l < length ts + n)%nat) L'.
Proof.
  unfold L'. apply Forall_app. split.
  - apply Forall_forall. intros l Hl%list_elem_of_In%filter_In.
    destruct Hl as [Hl%list_elem_of_In _].
    rewrite Forall_forall in Hbelow. specialize (Hbelow l Hl). lia.
  - apply Forall_forall. intros l Hl.
    assert (Hh : handle l ∈ map handle (fresh_listeners n ts)).
    { apply list_elem_of_fmap. by exists l. }
    rewrite fresh_listeners_handles in Hh.
    apply list_elem_of_In, in_seq in Hh. lia.
Qed.

Lemma rewire_nodup : NoDup (map handle L').
Proof.
  unfold L'. rewrite map_app. apply NoDup_app. split_and!.
  - rewrite dispose_selected. clear -Hnodup.
    induction L as [|x l IH]; simpl; [constructor|].
    simpl in Hnodup. apply NoDup_cons in Hnodup as [Hx Hl].
    destruct (negb (selL x)); [|by apply IH]. simpl.
    apply NoDup_cons. split; [|by apply IH].
    intros (y & Hy & Hin)%list_elem_of_fmap. apply Hx.
    apply list_elem_of_fmap. exists y. split; [done|].
    apply list_elem_of_In, filter_In in Hin as [Hin _].
    by apply list_elem_of_In.
  - intros h (l & -> & Hl)%list_elem_of_fmap Hfresh.
    apply list_elem_of_In, filter_In in Hl as [Hl%list_elem_of_In _].
    rewrite Forall_forall in Hbelow. specialize (Hbelow l Hl).
    rewrite fresh_listeners_handles in Hfresh.
    apply list_elem_of_In, in_seq in Hfresh. lia.
  - rewrite fresh_listeners_handles. apply NoDup_ListNoDup, seq_NoDup.
Qed.

End Rewire.

(** *** The wiring of a world *)

Lemma Wired_ext (w w' : World) : wiring w = wiring w' → Wired w → Wired w'.
Proof.
  unfold wiring. intros [= HL Hn Hp Hg] [H1 H2 H3 H4 H5 H6].
  constructor; rewrite <- ?HL, <- ?Hn, <- ?Hp, <- ?Hg; assumption.
Qed.

Lemma group_targets_selected d :
  Forall (λ t, isGroupTarget t = true) (group_targets d).
Proof.
  destruct d as [[ready [u|]] [g|]]; simpl; try constructor.
  destruct (ready && truthy u && truthy g); repeat constructor.
Qed.

Lemma profile_targets_selected d :
  Forall (λ t, negb (isGroupTarget t) = true) (profile_targets d).
Proof.
  destruct d as [ready [u|]]; simpl; try constructor.
  destruct (ready && truthy u); repeat constructor.
Qed.

(** The targets of the group effect are those of the identity and group
    in its dependencies. *)
Lemma group_targets_keyed d t :
  t ∈ group_targets d →
  ∃ u g, d = (true, Some u, Some g) ∧ u ≠ [] ∧ g ≠ []
         ∧ target_group t = Some g
         ∧ (∀ u' g', t = TReceived u' g' ∨ t = TSent u' g' → u' = u).
Proof.
  destruct d as [[ready [u|]] [g|]]; simpl; try by intros ?%elem_of_nil.
  destruct ready, u as [|c u], g as [|c' g]; simpl;
    try by intros ?%elem_of_nil.
  intros Ht. exists (c :: u), (c' :: g).
  repeat (apply elem_of_cons in Ht as [->|Ht]);
    [..|by apply elem_of_nil in Ht];
    (split_and!; [done..|]); intros u' g' [[=]|[=]]; by subst.
Qed.

(** *** Disposers *)

Lemma runCleanup_spec (hs : list nat) (w : World) :
  listeners (runCleanup hs w)
  = List.filter (λ l, negb (bool_decide (handle l ∈ hs))) (listeners w)
  ∧ next_handle (runCleanup hs w) = next_handle w
  ∧ profile_fx (runCleanup hs w) = profile_fx w
  ∧ group_fx (runCleanup hs w) = group_fx w
  ∧ ui (runCleanup hs w) = ui w
  ∧ db (runCleanup hs w) = db w
  ∧ published (runCleanup hs w) = published w
  ∧ shown (runCleanup hs w) = shown w
  ∧ lastGroupId (runCleanup hs w) = lastGroupId w.
Proof.
  revert w. induction hs as [|h hs IH]; intros w.
  - split_and!; try reflexivity.
    change (listeners (runCleanup [] w)) with (listeners w).
    symmetry. apply filter_all, Forall_forall. intros l _.
    rewrite bool_decide_eq_false_2; [done | apply not_elem_of_nil].
  - change (runCleanup (h :: hs) w) with (runCleanup hs (unsubscribe h w)).
    destruct (IH (unsubscribe h w))
      as (HL & H1 & H2 & H3 & H4 & H5 & H6 & H7 & H8).
    rewrite H1, H2, H3, H4, H5, H6, H7, H8.
    split_and!; try reflexivity.
    rewrite HL. change (listeners (unsubscribe h w))
      with (List.filter (λ l, negb (handle l =? h)%nat) (listeners w)).
    rewrite filter_filter_b. apply filter_ext. intros l.
    rewrite <- negb_orb. f_equal.
    destruct (Nat.eqb_spec (handle l) h) as [->|Hne]; simpl.
    + symmetry. apply bool_decide_eq_true_2. left.
    + apply bool_decide_ext. rewrite elem_of_cons.
      split; [by right | by intros [?|?]].
Qed.

(** *** The bodies of the effects *)

Lemma groupEffect_spec (w : World) :
  let ts := group_targets (group_deps w) in
  let w' := (groupEffect w).1 in
  listeners w' = listeners w ++ fresh_listeners (next_handle w) ts
  ∧ (groupEffect w).2 = seq (next_handle w) (length ts)
  ∧ next_handle w' = (length ts + next_handle w)%nat
  ∧ profile_fx w' = profile_fx w ∧ group_fx w' = group_fx w
  ∧ group_deps w' = group_deps w
  ∧ userName (ui w') = userName (ui w)
  ∧ db w' = db w ∧ published w' = published w
  ∧ shown w' = shown w ∧ lastGroupId w' = lastGroupId w.
Proof.
  open_world w. unfold groupEffect, group_deps, group_targets.
  cbn [ui isAuthReady userId currentGroupId].
  destruct isAuthReady0, userId0 as [[|c u]|], currentGroupId0 as [[|c' g]|];
    cbn [negb orb andb truthy truthy_opt length fresh_listeners];
    unfold onSnapshot; proj; cbn [fst snd];
    rewrite <- ?app_assoc, ?app_nil_r; split_and!; reflexivity.
Qed.

Lemma profileEffect_spec (w : World) :
  let ts := profile_targets (profile_deps w) in
  let w' := (profileEffect w).1 in
  listeners w' = listeners w ++ fresh_listeners (next_handle w) ts
  ∧ (profileEffect w).2 = seq (next_handle w) (length ts)
  ∧ next_handle w' = (length ts + next_handle w)%nat
  ∧ profile_fx w' = profile_fx w ∧ group_fx w' = group_fx w
  ∧ ui w' = ui w
  ∧ db w' = db w ∧ published w' = published w
  ∧ shown w' = shown w ∧ lastGroupId w' = lastGroupId w.
Proof.
  open_world w. unfold profileEffect, profile_deps, profile_targets.
  cbn [ui isAuthReady userId].
  destruct isAuthReady0, userId0 as [[|c u]|];
    cbn [negb orb andb truthy truthy_opt length fresh_listeners];
    unfold onSnapshot; proj; cbn [fst snd];
    rewrite <- ?app_assoc, ?app_nil_r; split_and!; reflexivity.
Qed.

(** *** Running the effects *)

Lemma useEffect_eq {D} `{EqDecision D} (slot : EffectSlot D) (deps : D)
    (body : World → World * list nat) (w : World) :
  useEffect slot deps body w
  = if bool_decide (last_deps slot = Some deps) then (w, slot)
    else ((body (runCleanup (cleanup slot) w)).1,
          {| last_deps := Some deps;
             cleanup := (body (runCleanup (cleanup slot) w)).2 |}).
Proof.
  unfold useEffect. destruct (bool_decide _); [done|].
  by destruct (body _).
Qed.

(** The profile effect after a render keeps the world wired, and has run
    for the current dependencies. *)
Lemma profile_effect_wired (w : World) :
  Wired w →
  let r := useEffect (profile_fx w) (profile_deps w) profileEffect w in
  let w' := with_profile_fx r.2 r.1 in
  Wired w'
  ∧ last_deps (profile_fx w') = Some (profile_deps w)
  ∧ group_fx w' = group_fx w ∧ ui w' = ui w
  ∧ (next_handle w ≤ next_handle w')%nat
  ∧ db w' = db w ∧ published w' = published w
  ∧ shown w' = shown w ∧ lastGroupId w' = lastGroupId w.
Proof.
  intros HW r w'. subst r w'. rewrite useEffect_eq.
  destruct (bool_decide_reflect (last_deps (profile_fx w) = Some (profile_deps w)))
    as [Heq|Hne].
  - cbn [fst snd]. split_and!; by destruct w.
  - cbn [fst snd].
    destruct (runCleanup_spec (cleanup (profile_fx w)) w)
      as (HL & Hn & Hp & Hg & Hui & Hdb & Hpub & Hsh & Hlast).
    set (w1 := runCleanup (cleanup (profile_fx w)) w) in *.
    destruct (profileEffect_spec w1)
      as (HL2 & Hc2 & Hn2 & Hp2 & Hg2 & Hui2 & Hdb2 & Hpub2 & Hsh2 & Hlast2).
    cbv zeta in *. unfold profile_deps in *. rewrite Hui in *.
    set (ts := profile_targets (isAuthReady (ui w), userId (ui w))) in *.
    set (w2 := (profileEffect w1).1) in *.
    set (c2 := (profileEffect w1).2) in *.
    clearbody w1 w2 c2. rewrite HL, Hn in *. clear HL.
    destruct HW as [W1 W2 W3 W4 W5 W6].
    pose proof (profile_targets_selected (isAuthReady (ui w), userId (ui w)))
      as Hsel. fold ts in Hsel.
    cbn [with_profile_fx listeners next_handle profile_fx group_fx ui db
         published shown lastGroupId].
    split_and!.
    + constructor;
        cbn [with_profile_fx listeners next_handle profile_fx group_fx];
        rewrite ?HL2, ?Hn2, ?Hg2, ?Hg.
      * by apply (rewire_nodup (λ t, negb (isGroupTarget t))).
      * by apply rewire_below.
      * rewrite <- W3. f_equal.
        apply (rewire_others_ext (λ t, negb (isGroupTarget t))); try done.
        intros l. unfold isGroupListener. by rewrite negb_involutive.
      * rewrite <- W4. f_equal.
        apply (rewire_others_ext (λ t, negb (isGroupTarget t))); try done.
        intros l. unfold isGroupListener. by rewrite negb_involutive.
      * cbn [cleanup]. rewrite Hc2.
        rewrite <- fresh_listeners_handles with (ts := ts). f_equal.
        by apply (rewire_selected (λ t, negb (isGroupTarget t))).
      * unfold slot_targets. cbn [last_deps]. fold ts.
        rewrite <- (fresh_listeners_targets (next_handle w) ts) at 2. f_equal.
        by apply (rewire_selected (λ t, negb (isGroupTarget t))).
    + reflexivity.
    + by rewrite Hg2.
    + by rewrite Hui2.
    + rewrite Hn2. lia.
    + by rewrite Hdb2.
    + by rewrite Hpub2.
    + by rewrite Hsh2.
    + by rewrite Hlast2.
Qed.

(** The same for the group effect.  When it runs again, every disposer
    its new cleanup holds was handed out by this run. *)
Lemma group_effect_wired (w : World) :
  Wired w →
  let r := useEffect (group_fx w) (group_deps w) groupEffect w in
  let w' := with_group_fx r.2 r.1 in
  Wired w'
  ∧ last_deps (group_fx w') = Some (group_deps w)
  ∧ profile_fx w' = profile_fx w ∧ group_deps w' = group_deps w
  ∧ userName (ui w') = userName (ui w)
  ∧ (next_handle w ≤ next_handle w')%nat
  ∧ db w' = db w ∧ published w' = published w
  ∧ shown w' = shown w ∧ lastGroupId w' = lastGroupId w
  ∧ (last_deps (group_fx w) ≠ Some (group_deps w) →
     Forall (λ h, (next_handle w ≤ h)%nat) (cleanup (group_fx w'))).
Proof.
  intros HW r w'. subst r w'. rewrite useEffect_eq.
  destruct (bool_decide_reflect (last_deps (group_fx w) = Some (group_deps w)))
    as [Heq|Hne].
  - cbn [fst snd]. split_and!; by destruct w.
  - cbn [fst snd].
    destruct (runCleanup_spec (cleanup (group_fx w)) w)
      as (HL & Hn & Hp & Hg & Hui & Hdb & Hpub & Hsh & Hlast).
    set (w1 := runCleanup (cleanup (group_fx w)) w) in *.
    destruct (groupEffect_spec w1)
      as (HL2 & Hc2 & Hn2 & Hp2 & Hg2 & Hd2 & Hun2 & Hdb2 & Hpub2 & Hsh2
          & Hlast2).
    cbv zeta in *.
    assert (Hd : group_deps w1 = group_deps w)
      by (unfold group_deps; by rewrite Hui).
    rewrite Hd in *.
    set (ts := group_targets (group_deps w)) in *.
    set (w2 := (groupEffect w1).1) in *.
    set (c2 := (groupEffect w1).2) in *.
    clearbody w1 w2 c2. rewrite HL, Hn in *. clear HL.
    destruct HW as [W1 W2 W3 W4 W5 W6].
    pose proof (group_targets_selected (group_deps w)) as Hsel.
    fold ts in Hsel.
    cbn [with_group_fx listeners next_handle profile_fx group_fx ui db
         published shown lastGroupId cleanup last_deps].
    split_and!.
    + constructor;
        cbn [with_group_fx listeners next_handle profile_fx group_fx];
        rewrite ?HL2, ?Hn2, ?Hp2, ?Hp.
      * by apply (rewire_nodup isGroupTarget).
      * by apply rewire_below.
      * cbn [cleanup]. rewrite Hc2.
        rewrite <- fresh_listeners_handles with (ts := ts). f_equal.
        by apply (rewire_selected isGroupTarget).
      * unfold slot_targets. cbn [last_deps]. fold ts.
        rewrite <- (fresh_listeners_targets (next_handle w) ts) at 2. f_equal.
        by apply (rewire_selected isGroupTarget).
      * rewrite <- W5. f_equal.
        by apply (rewire_others_ext isGroupTarget).
      * rewrite <- W6. f_equal.
        by apply (rewire_others_ext isGroupTarget).
    + reflexivity.
    + by rewrite Hp2.
    + change (group_deps w2 = group_deps w). exact Hd2.
    + by rewrite Hun2, Hui.
    + rewrite Hn2. lia.
    + by rewrite Hdb2.
    + by rewrite Hpub2.
    + by rewrite Hsh2.
    + by rewrite Hlast2.
    + intros _. rewrite Hc2. apply Forall_forall.
      intros h Hh%list_elem_of_In%in_seq. lia.
Qed.

Lemma commitEffects_eq (w : World) :
  commitEffects w
  = let r1 := useEffect (profile_fx w) (profile_deps w) profileEffect w in
    let w2 := with_profile_fx r1.2 r1.1 in
    let r2 := useEffect (group_fx w2) (group_deps w) groupEffect w2 in
    with_group_fx r2.2 r2.1.
Proof.
  unfold commitEffects, profile_deps, group_deps. cbv zeta.
  destruct (useEffect (profile_fx w) _ _ _) as [w1 p]. cbn [fst snd].
  by destruct (useEffect _ _ _ _) as [w3 g].
Qed.

(** After a render and its effects the world is wired for the current
    state. *)
Lemma commitEffects_wired (w : World) :
  Wired w →
  let w' := commitEffects w in
  Wired w' ∧ Synced w'
  ∧ group_deps w' = group_deps w
  ∧ userName (ui w') = userName (ui w)
  ∧ db w' = db w ∧ published w' = published w
  ∧ shown w' = shown w ∧ lastGroupId w' = lastGroupId w
  ∧ (last_deps (group_fx w) ≠ Some (group_deps w) →
     Forall (λ h, (next_handle w ≤ h)%nat) (cleanup (group_fx w'))).
Proof.
  intros HW w'. subst w'. rewrite commitEffects_eq. cbv zeta.
  destruct (profile_effect_wired w HW)
    as (HW2 & Hp2 & Hg2 & Hui2 & Hn2 & Hdb2 & Hpub2 & Hsh2 & Hlast2).
  cbv zeta in *.
  set (w2 := with_profile_fx _ _) in *. clearbody w2.
  assert (Hd2 : group_deps w2 = group_deps w)
    by (unfold group_deps; by rewrite Hui2).
  rewrite <- Hd2.
  destruct (group_effect_wired w2 HW2)
    as (HW3 & Hg3 & Hp3 & Hd3 & Hun3 & Hn3 & Hdb3 & Hpub3 & Hsh3 & Hlast3
        & Hnew).
  cbv zeta in *.
  set (w3 := with_group_fx _ _) in *. clearbody w3.
  split_and!.
  - exact HW3.
  - split.
    + rewrite Hp3, Hp2. f_equal. unfold profile_deps, group_deps in *.
      congruence.
    + by rewrite Hg3, Hd3.
  - by rewrite Hd3.
  - by rewrite Hun3, Hui2.
  - by rewrite Hdb3.
  - by rewrite Hpub3.
  - by rewrite Hsh3.
  - by rewrite Hlast3.
  - intros Hne. rewrite Hg2, Hd2 in Hnew. rewrite Hd2 in Hne.
    specialize (Hnew Hne).
    eapply Forall_impl; [exact Hnew|]. intros h Hh. cbv beta in Hh. lia.
Qed.

(** *** Handlers and callbacks leave the wiring alone *)

(** A world built by setters has the wiring of the world below. *)
Ltac same_wiring :=
  unfold wiring;
  repeat match goal with w : World |- _ => open_world w end;
  proj; reflexivity.

Section KeepsWiring.

Context {A B : Type}.

Lemma keeps_ret (a : A) : keeps_wiring (ret a).
Proof. by intros env w. Qed.

Lemma keeps_throw : keeps_wiring (@throw A).
Proof. by intros env w. Qed.

Lemma keeps_bind (m : Act A) (k : A → Act B) :
  keeps_wiring m → (∀ a, keeps_wiring (k a)) → keeps_wiring (bind m k).
Proof.
  intros Hm Hk env w. unfold bind. specialize (Hm env w).
  destruct (m env w) as [[a|] w']; cbn [snd] in *; [|done].
  by rewrite Hk.
Qed.

Lemma keeps_try_catch (body handler : Act A) :
  keeps_wiring body → keeps_wiring handler →
  keeps_wiring (try_catch body handler).
Proof.
  intros Hb Hh env w. unfold try_catch. specialize (Hb env w).
  destruct (body env w) as [[a|] w']; cbn [snd] in *; [done|].
  by rewrite Hh.
Qed.

End KeepsWiring.

Lemma keeps_act (f : World → World) :
  (∀ w, wiring (f w) = wiring w) → keeps_wiring (act f).
Proof. intros Hf env w. apply Hf. Qed.

Lemma keeps_getState : keeps_wiring getState.
Proof. by intros env w. Qed.

Lemma keeps_newDocId : keeps_wiring newDocId.
Proof. by intros env w. Qed.

Lemma keeps_serverTimestamp : keeps_wiring serverTimestamp.
Proof. by intros env w. Qed.

Lemma keeps_docSegment o : keeps_wiring (docSegment o).
Proof.
  destruct o as [s|]; [|apply keeps_throw]. unfold docSegment.
  destruct (truthy s); [apply keeps_ret | apply keeps_throw].
Qed.

Lemma keeps_commitWrites ws : keeps_wiring (commitWrites ws).
Proof.
  intros env w. unfold commitWrites. destruct (write_ok env); [|done].
  cbn [snd]. same_wiring.
Qed.

Lemma keeps_getDoc ref : keeps_wiring (getDoc ref).
Proof. intros env w. unfold getDoc. by destruct (read_ok env). Qed.

Lemma keeps_docRef cs : keeps_wiring (docRef cs).
Proof.
  unfold docRef. destruct (Firestore.doc cs); [apply keeps_ret|].
  apply keeps_throw.
Qed.

Lemma keeps_setLastGroupId id : keeps_wiring (setLastGroupId id).
Proof.
  intros env w. unfold setLastGroupId. destruct (storage_ok env); [|done].
  cbn [snd]. same_wiring.
Qed.

Create HintDb keeps discriminated.
#[export] Hint Resolve keeps_getState keeps_newDocId keeps_serverTimestamp
  keeps_docSegment keeps_commitWrites keeps_getDoc keeps_docRef
  keeps_setLastGroupId : keeps.

(** Walks through a handler. *)
Ltac keeps_handler :=
  cbv zeta;
  repeat match goal with
  | |- keeps_wiring (bind _ _) => apply keeps_bind; [|intros ?]
  | |- keeps_wiring (try_catch _ _) => apply keeps_try_catch
  | |- keeps_wiring (if ?b then _ else _) => destruct b
  | |- keeps_wiring (match ?o with Some _ => _ | None => _ end) =>
      destruct o
  | |- keeps_wiring (act _) => apply keeps_act; intros ?; same_wiring
  | |- keeps_wiring _ => solve [auto with keeps]
  end.

Lemma keeps_handleSaveName : keeps_wiring handleSaveName.
Proof. unfold handleSaveName. keeps_handler. Qed.

Lemma keeps_handleCreateGroup n : keeps_wiring (handleCreateGroup n).
Proof. unfold handleCreateGroup. keeps_handler. Qed.

Lemma keeps_handleJoinGroup g : keeps_wiring (handleJoinGroup g).
Proof. unfold handleJoinGroup. keeps_handler. Qed.

Lemma keeps_handleSendCompliment : keeps_wiring handleSendCompliment.
Proof. unfold handleSendCompliment. keeps_handler. Qed.

Lemma wiring_deliver h w : wiring (deliver h w) = wiring w.
Proof.
  unfold deliver. destruct (List.find _ _) as [l|]; [|done].
  destruct (target l).
  - unfold onProfileSnapshot.
    destruct (_ !! _) as [d|]; [|same_wiring].
    destruct (d !! _) as [n|]; [|same_wiring].
    destruct (truthy n); same_wiring.
  - unfold onGroupSnapshot. destruct (_ !! _); same_wiring.
  - unfold onMembersSnapshot. same_wiring.
  - unfold onReceivedSnapshot. same_wiring.
  - unfold onSentSnapshot. same_wiring.
Qed.

Lemma wiring_handle_event e w : wiring (handle_event e w) = wiring w.
Proof.
  destruct e as [[u|]| | | | | | | | | | | | |]; cbn [handle_event];
    try same_wiring; try reflexivity.
  - apply keeps_handleSaveName.
  - apply keeps_handleCreateGroup.
  - apply keeps_handleJoinGroup.
  - apply keeps_handleSendCompliment.
  - apply wiring_deliver.
Qed.

(** *** Reachable worlds are wired *)

Lemma step_wired (w : World) (e : Event) :
  Wired w → Synced w → Wired (step w e) ∧ Synced (step w e).
Proof.
  intros HW HS. unfold step. destruct (enabled e w); [|done].
  assert (HW' : Wired (handle_event e w)).
  { eapply Wired_ext; [|exact HW]. symmetry. apply wiring_handle_event. }
  destruct (commitEffects_wired _ HW') as (H1 & H2 & _). done.
Qed.

Lemma run_wired (evs : list Event) (w : World) :
  Wired w → Synced w → Wired (run evs w) ∧ Synced (run evs w).
Proof.
  revert w. induction evs as [|e evs IH]; intros w HW HS; [done|].
  destruct (step_wired w e HW HS). by apply IH.
Qed.

Lemma mount_wired (s : Firestore.Store) (last : option jsstring) :
  Wired (mount s last) ∧ Synced (mount s last).
Proof.
  unfold mount.
  match goal with |- Wired (commitEffects ?w0) ∧ _ =>
    assert (HW : Wired w0) by (constructor; cbn; constructor);
    destruct (commitEffects_wired w0 HW) as (H1 & H2 & _)
  end.
  done.
Qed.

Lemma reachable_wired s last evs :
  Wired (run evs (mount s last)) ∧ Synced (run evs (mount s last)).
Proof. destruct (mount_wired s last). by apply run_wired. Qed.

(** In a wired and synced world the listeners of the group effect are the
    four of the current identity and group, or none. *)
Lemma wired_group_listeners (w : World) :
  Wired w → Synced w →
  map target (List.filter isGroupListener (listeners w))
  = group_targets (group_deps w).
Proof.
  intros HW [_ HS]. rewrite (wired_group_targets w HW).
  unfold slot_targets. by rewrite HS.
Qed.

Lemma wired_listener_current (w : World) (l : Listener) (g : jsstring) :
  Wired w → Synced w → l ∈ listeners w →
  target_group (target l) = Some g →
  currentGroupId (ui w) = Some g
  ∧ ∀ u g', target l = TReceived u g' ∨ target l = TSent u g' →
            userId (ui w) = Some u.
Proof.
  intros HW HS Hl Hg.
  assert (Ht : target l ∈ group_targets (group_deps w)).
  { rewrite <- wired_group_listeners by done.
    apply list_elem_of_fmap. exists l. split; [done|].
    apply list_elem_of_In, filter_In. split; [by apply list_elem_of_In|].
    unfold isGroupListener, isGroupTarget. by rewrite Hg. }
  apply group_targets_keyed in Ht as (u & g0 & Hd & _ & _ & Hg0 & Hu).
  unfold group_deps in Hd. injection Hd as _ Hui Hgi.
  split; [congruence|].
  intros u' g' Hor. rewrite Hui. f_equal. symmetry. by eapply Hu.
Qed.

(** What a delivery leaves in the compliment views. *)
Lemma deliver_views (h : nat) (w : World) :
  match List.find (λ l, (handle l =? h)%nat) (listeners w) with
  | Some l =>
      match target l with
      | TReceived u g =>
          receivedCompliments (ui (deliver h w)) = receivedView (db w) u g
          ∧ sentCompliments (ui (deliver h w)) = sentCompliments (ui w)
      | TSent u g =>
          receivedCompliments (ui (deliver h w)) = receivedCompliments (ui w)
          ∧ sentCompliments (ui (deliver h w)) = sentView (db w) u g
      | _ =>
          receivedCompliments (ui (deliver h w)) = receivedCompliments (ui w)
          ∧ sentCompliments (ui (deliver h w)) = sentCompliments (ui w)
      end
  | None => deliver h w = w
  end.
Proof.
  unfold deliver. destruct (List.find _ _) as [l|]; [|done].
  destruct (target l).
  - unfold onProfileSnapshot.
    destruct (_ !! _) as [d|]; [|open_world w; by proj].
    destruct (d !! _) as [n|]; [|open_world w; by proj].
    destruct (truthy n); open_world w; by proj.
  - unfold onGroupSnapshot. destruct (_ !! _); open_world w; by proj.
  - unfold onMembersSnapshot. open_world w; by proj.
  - unfold onReceivedSnapshot, receivedView. open_world w; by proj.
  - unfold onSentSnapshot, sentView. open_world w; by proj.
Qed.

(** ** Re-subscription *)

(** C9 (no stale subscription).  In every world a session can reach from
    its first render: (a) the live listeners of the group effect are
    exactly the four (group document, roster, received, sent) of the
    current identity and group, or none when there is no current group;
    (b) the cleanup of the group effect, which [useEffect] calls before
    the body attaches anything, disposes all of them, and in a turn that
    changes the identity or the group no listener of the group effect
    that was live before the turn is live after it; (c) a snapshot is
    only ever delivered to a listener of the current group; and so (d)
    whatever a delivery puts into the received or the sent view is tagged
    with the current group's id. *)
Theorem no_stale_group_listeners (s : Firestore.Store)
    (last : option jsstring) (evs : list Event) :
  let w := run evs (mount s last) in
  map target (List.filter isGroupListener (listeners w))
  = group_targets (group_deps w)
  ∧ List.filter isGroupListener
      (listeners (runCleanup (cleanup (group_fx w)) w)) = []
  ∧ (∀ e l, group_deps (step w e) ≠ group_deps w →
            l ∈ listeners w → isGroupListener l = true →
            l ∉ listeners (step w e))
  ∧ (∀ h l g,
       List.find (λ l, (handle l =? h)%nat) (listeners w) = Some l →
       target_group (target l) = Some g →
       currentGroupId (ui w) = Some g)
  ∧ (∀ h c,
       (c ∈ receivedCompliments (ui (deliver h w)) →
        c ∈ receivedCompliments (ui w)
        ∨ Firestore.groupId (Firestore.item_data c) = currentGroupId (ui w))
       ∧ (c ∈ sentCompliments (ui (deliver h w)) →
          c ∈ sentCompliments (ui w)
          ∨ Firestore.groupId (Firestore.item_data c)
            = currentGroupId (ui w))).
Proof.
  intros w. destruct (reachable_wired s last evs) as [HW HS]. fold w in HW, HS.
  clearbody w. split_and!.
  - by apply wired_group_listeners.
  - destruct (runCleanup_spec (cleanup (group_fx w)) w) as (-> & _).
    rewrite (dispose_selected isGroupTarget)
      by (apply HW || apply (wired_group_handles w HW)).
    rewrite filter_filter_b. apply filter_none, Forall_forall.
    intros l _. unfold isGroupListener. by destruct (isGroupTarget _).
  - intros e l Hd Hl Hg Hl'. unfold step in *.
    destruct (enabled e w); [|done].
    pose proof (wiring_handle_event e w) as Hwi. unfold wiring in Hwi.
    injection Hwi as HwL Hwn Hwp Hwg.
    assert (HW' : Wired (handle_event e w)).
    { eapply Wired_ext; [|exact HW]. symmetry. apply wiring_handle_event. }
    destruct (commitEffects_wired _ HW')
      as (HW2 & _ & Hd2 & _ & _ & _ & _ & _ & Hnew).
    cbv zeta in *. rewrite Hd2 in Hd.
    assert (Hold : (handle l < next_handle w)%nat).
    { pose proof (wired_below w HW) as Hb. rewrite Forall_forall in Hb.
      by apply Hb. }
    assert (Hin : handle l ∈ cleanup (group_fx (commitEffects (handle_event e w)))).
    { rewrite <- (wired_group_handles _ HW2). apply list_elem_of_fmap.
      exists l. split; [done|]. apply list_elem_of_In, filter_In.
      split; [by apply list_elem_of_In | done]. }
    assert (Hne : last_deps (group_fx (handle_event e w))
                  ≠ Some (group_deps (handle_event e w))).
    { rewrite Hwg. destruct HS as [_ HS]. rewrite HS. congruence. }
    specialize (Hnew Hne). rewrite Forall_forall in Hnew.
    specialize (Hnew _ Hin). rewrite Hwn in Hnew. lia.
  - intros h l g Hf Hg. apply find_some in Hf as [Hl%list_elem_of_In _].
    by destruct (wired_listener_current w l g HW HS Hl Hg).
  - intros h c. pose proof (deliver_views h w) as Hv.
    destruct (List.find _ _) as [l|] eqn:Hf; [|rewrite Hv; auto].
    apply find_some in Hf as [Hl%list_elem_of_In _].
    destruct (target l) as [u|g|g|u g|u g] eqn:Ht;
      destruct Hv as [Hr Hs]; rewrite Hr, Hs; split; auto.
    + intros Hc%elem_of_receivedView. right.
      destruct (wired_listener_current w l g HW HS Hl) as [Hg _];
        [by rewrite Ht|].
      rewrite Hg. tauto.
    + intros Hc%elem_of_sentView. right.
      destruct (wired_listener_current w l g HW HS Hl) as [Hg _];
        [by rewrite Ht|].
      rewrite Hg. tauto.
Qed.

(** ** The statements at work on a concrete session *)

Import Scenario.

(** Decides a closed statement by evaluation. *)
Ltac by_eval :=
  first [ vm_compute; reflexivity
        | let H := fresh in intros H; vm_compute in H; discriminate H ].

(** C1 at work: Alice creates the group [g1]; its roster is not empty. *)
Lemma create_group_atomic_witness :
  (1 ≤ length (Firestore.membersQuery
                 (db (exec (handleCreateGroup (lit " Book Club "))
                        (at_time 100 "g1") named)) g1))%nat.
Proof.
  destruct (create_group_atomic (at_time 100 "g1") named
              (lit " Book Club ") alice
              ltac:(by_eval) ltac:(by_eval) ltac:(by_eval) ltac:(by_eval))
    as [Hok _].
  destruct (Hok eq_refl) as (_ & _ & _ & H & _). exact H.
Defined.


(** C3 at work: in the pushed snapshot, the record without a timestamp,
    first in the snapshot, ends up (at index 2) after the record stamped 9
    (at index 0). *)
Lemma views_sorted_by_timestamp_desc_witness :
  receivedCompliments (ui (onReceivedSnapshot pending_snapshot in_group))
    !! 2%nat = Some (Firestore.withId (lit "c3", to_bob None))
  ∧ (0 < 2)%nat.
Proof.
  split; [by_eval|].
  destruct (views_sorted_by_timestamp_desc pending_snapshot in_group)
    as [(_ & _ & _ & H & _) _].
  exact (H 2%nat 0%nat
           (Firestore.withId (lit "c3", to_bob None))
           (Firestore.withId (lit "c4", to_bob (Some 9)))
           (at_second 9)
           ltac:(by_eval) ltac:(by_eval) ltac:(by_eval) ltac:(by_eval)
           ltac:(by_eval)).
Defined.

(** C3 as the specification words it fails: of two compliments stamped
    within the same second the sent view shows the earlier one first, as
    the snapshot had them. *)
Lemma views_sorted_by_timestamp_desc_counterexample :
  map Firestore.item_id
    (sentCompliments (ui (onSentSnapshot within_a_second in_group)))
  = [lit "c5"; lit "c6"]
  ∧ ¬ mostRecentFirst
        (sentCompliments (ui (onSentSnapshot within_a_second in_group))).
Proof.
  split; [by_eval|]. intros H.
  assert (E : sentCompliments (ui (onSentSnapshot within_a_second in_group))
              = map Firestore.withId within_a_second) by by_eval.
  rewrite E in H. unfold mostRecentFirst in H.
  apply StronglySorted_inv in H as [_ H].
  apply Forall_cons in H as [H _]. vm_compute in H. by apply H.
Qed.

(** C4 at work: Alice, a member of [g1], pastes the path of her own
    membership document: no group document is stored under it, and she
    ends up in a group named after herself. *)
Lemma join_unknown_group_witness :
  Firestore.getDoc (db in_group) [lit "groups"; alice] = None
  ∧ currentGroupId
      (ui (exec (handleJoinGroup (lit " g1/members/alice "))
             (at_time 200 "-") in_group))
    = Some alice.
Proof.
  split; [by_eval|].
  destruct (join_unknown_group (at_time 200 "-") in_group
              (lit " g1/members/alice ")) as [_ H].
  destruct (H g1 alice alice
              {| Firestore.userName := lit "Al";
                 Firestore.joinedAt := at_second 100 |}
              ltac:(by_eval) ltac:(by_eval) ltac:(by_eval) ltac:(by_eval)
              ltac:(by_eval) ltac:(by_eval) ltac:(by_eval) ltac:(by_eval)
              ltac:(by_eval))
    as (_ & _ & _ & _ & Hcur & _).
  exact Hcur.
Defined.

(** C5 at work: Alice, creator of [g1], joins it again twice. *)
Lemma join_twice_upsert_witness :
  length (List.filter (λ m, bool_decide (m.1 = alice))
            (Firestore.membersQuery
               (db (exec (handleJoinGroup g1) (at_time 300 "-")
                      (exec (handleJoinGroup g1) (at_time 200 "-") in_group)))
               g1)) = 1%nat.
Proof.
  destruct (join_twice_upsert (at_time 200 "-") (at_time 300 "-") in_group
              g1 g1 alice
              {| Firestore.groupName := lit "Book Club";
                 Firestore.creatorId := Some alice;
                 Firestore.createdAt := at_second 100 |}
              ltac:(by_eval) ltac:(by_eval) ltac:(by_eval) ltac:(by_eval)
              ltac:(by_eval) ltac:(by_eval) ltac:(by_eval) ltac:(by_eval)
              ltac:(by_eval) ltac:(by_eval))
    as (_ & _ & H & _).
  exact H.
Defined.

(** C6 at work: Alice saves the name she typed with blanks around it. *)
Lemma save_name_validates_and_replaces_witness :
  Firestore.users (db (exec handleSaveName (at_time 90 "-") typed_name))
    !! alice
  = Some {[ "name"%string := lit "Al" ]}.
Proof.
  destruct (save_name_validates_and_replaces (at_time 90 "-") typed_name)
    as [_ H].
  destruct (H ltac:(by_eval) alice ltac:(by_eval) ltac:(by_eval)
              ltac:(by_eval)) as (Hdoc & _).
  exact Hdoc.
Defined.

(** C7 at work: the compliment Alice composed is written under a fresh
    id, and is the only new record. *)
Lemma send_validates_and_writes_one_witness :
  size (Firestore.compliments
          (db (exec handleSendCompliment (at_time 120 "c9") composing)))
  = S (size (Firestore.compliments (db composing))).
Proof.
  destruct (send_validates_and_writes_one (at_time 120 "c9") composing)
    as (_ & _ & H).
  assert (Hvalid : ¬ (selectedFriendId (ui composing) = []
                      ∨ trim (complimentMessage (ui composing)) = []))
    by (intros [H0|H0]; vm_compute in H0; discriminate H0).
  destruct (H Hvalid ltac:(by_eval) ltac:(by_eval)) as (_ & Hsize & _).
  exact Hsize.
Defined.

(** C8 at work: the group document disappears under Alice's session. *)
Lemma group_deleted_raises_two_notices_witness :
  shown (deliver 1 group_gone)
  = shown group_gone ++
      [notice (lit "The group you were in may have been deleted.") error;
       notice (lit "You have left the group.") success].
Proof.
  destruct (group_deleted_raises_two_notices group_gone 1
              {| handle := 1; target := TGroup g1 |} g1
              ltac:(by_eval) ltac:(by_eval) ltac:(by_eval))
    as (_ & _ & H & _).
  exact H.
Defined.

(** C9 at work: the listener of handle 3 in Alice's session is one of her
    current group. *)
Lemma no_stale_group_listeners_witness :
  currentGroupId (ui (run session (mount Firestore.empty_store None)))
  = Some g1.
Proof.
  destruct (no_stale_group_listeners Firestore.empty_store None session)
    as (_ & _ & _ & H & _).
  exact (H 3%nat {| handle := 3; target := TReceived alice g1 |} g1
           ltac:(by_eval) ltac:(by_eval)).
Defined.

(** C10 at work: the message typed as " hi " is stored as " hi ". *)
Lemma compliment_message_stored_verbatim_witness :
  ∃ d, Firestore.compliments
         (db (exec handleSendCompliment (at_time 120 "c9") composing))
         !! lit "c9" = Some d
       ∧ Firestore.message d = lit " hi ".
Proof.
  exact (compliment_message_stored_verbatim (at_time 120 "c9") composing
           ltac:(by_eval) ltac:(by_eval) ltac:(by_eval)).
Defined.

(* ===================================================================== *)
(** * Further properties of the component *)
(* ===================================================================== *)

Import Page.

(** ** Every way a handler can end *)

(** [handleSaveName] either shows an error notice and does nothing else,
    or commits the profile of the signed-in identity. *)
Lemma saveName_cases (env : Env) (w : World) :
  (∃ m, exec handleSaveName env w = showNotification m error w
        ∧ (m = lit "Could not save your name." → write_ok env = false))
  ∨ (∃ uid, userId (ui w) = Some uid ∧ uid ≠ []
            ∧ trim (editingName (ui w)) ≠ [] ∧ write_ok env = true
            ∧ exec handleSaveName env w
              = setIsEditingName false
                  (showNotification (lit "Name updated successfully!") success
                     (with_db
                        (Firestore.commit
                           [Firestore.SetUser uid
                              {[ "name"%string
                                 := trim (editingName (ui w)) ]}] (db w))
                        w))).
Proof.
  destruct (truthy (trim (editingName (ui w)))) eqn:Hn.
  2:{ left. eexists. split; [by run_handler|].
      intros Hl%lit_inj. discriminate Hl. }
  destruct (userId (ui w)) as [[|c uid]|] eqn:Hu.
  1,3: left; eexists; (split; [by run_handler|]);
       intros Hl%lit_inj; discriminate Hl.
  destruct (write_ok env) eqn:Hok.
  - right. exists (c :: uid). apply truthy_true in Hn.
    split_and!; try done. by apply saveName_committed.
  - left. eexists. split; [by run_handler|done].
Qed.

Lemma createGroup_cases (env : Env) (w : World) (newGroupName : jsstring) :
  (∃ m, exec (handleCreateGroup newGroupName) env w
        = showNotification m error w)
  ∨ (∃ uid, userId (ui w) = Some uid ∧ uid ≠ []
            ∧ trim newGroupName ≠ [] ∧ userName (ui w) ≠ []
            ∧ write_ok env = true ∧ storage_ok env = true
            ∧ exec (handleCreateGroup newGroupName) env w
              = showNotification
                  (lit "Group " ++ dquote ++ newGroupName ++ dquote
                     ++ lit " created!") success
                  (with_lastGroupId (Some (auto_id env))
                     (setCurrentGroupId (Some (auto_id env))
                        (with_db
                           (Firestore.commit
                              (createBatch env (ui w) newGroupName uid)
                              (db w)) w))))
  ∨ (∃ uid, userId (ui w) = Some uid ∧ uid ≠ []
            ∧ trim newGroupName ≠ [] ∧ userName (ui w) ≠ []
            ∧ write_ok env = true ∧ storage_ok env = false
            ∧ exec (handleCreateGroup newGroupName) env w
              = showNotification (lit "Could not create the group.") error
                  (setCurrentGroupId (Some (auto_id env))
                     (with_db
                        (Firestore.commit
                           (createBatch env (ui w) newGroupName uid)
                           (db w)) w))).
Proof.
  destruct (truthy (trim newGroupName)) eqn:Hn.
  2:{ left. eexists. by run_handler. }
  destruct (truthy (userName (ui w))) eqn:Hun.
  2:{ left. eexists. by run_handler. }
  destruct (userId (ui w)) as [[|c uid]|] eqn:Hu.
  1,3: left; eexists; by run_handler.
  apply truthy_true in Hn, Hun.
  destruct (write_ok env) eqn:Hok.
  2:{ left. eexists. by apply (createGroup_rejected env w _ (c :: uid)). }
  right. destruct (storage_ok env) eqn:Hst; [left|right];
    exists (c :: uid); split_and!; try done.
  - by apply createGroup_committed.
  - by apply createGroup_unremembered.
Qed.

Lemma joinGroup_cases (env : Env) (w : World) (groupIdToJoin : jsstring) :
  (∃ m, exec (handleJoinGroup groupIdToJoin) env w
        = showNotification m error w)
  ∨ (∃ uid p data,
       userId (ui w) = Some uid ∧ uid ≠ []
       ∧ trim groupIdToJoin ≠ [] ∧ userName (ui w) ≠ []
       ∧ read_ok env = true ∧ write_ok env = true ∧ storage_ok env = true
       ∧ Firestore.doc [lit "groups"; trim groupIdToJoin] = Some p
       ∧ Firestore.getDoc (db w) p = Some data
       ∧ exec (handleJoinGroup groupIdToJoin) env w
         = showNotification
             (lit "Successfully joined " ++ dquote
                ++ Firestore.groupNameField data ++ dquote ++ lit "!") success
             (with_lastGroupId (Some (Firestore.refId p))
                (setCurrentGroupId (Some (Firestore.refId p))
                   (with_db
                      (Firestore.commit
                         [Firestore.SetMember (Firestore.refId p) uid
                            {| Firestore.userName := userName (ui w);
                               Firestore.joinedAt := server_time env |}]
                         (db w)) w))))
  ∨ (∃ uid p data,
       userId (ui w) = Some uid ∧ uid ≠ []
       ∧ trim groupIdToJoin ≠ [] ∧ userName (ui w) ≠ []
       ∧ read_ok env = true ∧ write_ok env = true ∧ storage_ok env = false
       ∧ Firestore.doc [lit "groups"; trim groupIdToJoin] = Some p
       ∧ Firestore.getDoc (db w) p = Some data
       ∧ exec (handleJoinGroup groupIdToJoin) env w
         = showNotification (lit "Could not join the group.") error
             (setCurrentGroupId (Some (Firestore.refId p))
                (with_db
                   (Firestore.commit
                      [Firestore.SetMember (Firestore.refId p) uid
                         {| Firestore.userName := userName (ui w);
                            Firestore.joinedAt := server_time env |}]
                      (db w)) w))).
Proof.
  destruct (truthy (trim groupIdToJoin)) eqn:Hn.
  2:{ left. eexists. by run_handler. }
  destruct (truthy (userName (ui w))) eqn:Hun.
  2:{ left. eexists. by run_handler. }
  apply truthy_true in Hn, Hun.
  destruct (Firestore.doc [lit "groups"; trim groupIdToJoin]) as [p|] eqn:Hd.
  2:{ left. eexists. by apply joinGroup_no_ref. }
  destruct (read_ok env) eqn:Hr.
  2:{ left. eexists. by apply joinGroup_unread. }
  destruct (Firestore.getDoc (db w) p) as [data|] eqn:Hg.
  2:{ left. eexists. by apply (joinGroup_not_found env w _ p). }
  destruct (userId (ui w)) as [[|c uid]|] eqn:Hu.
  1,3: left; eexists; apply truthy_true in Hn, Hun; by run_handler.
  destruct (write_ok env) eqn:Hok.
  2:{ left. eexists.
      by apply (joinGroup_rejected env w _ (c :: uid) p data). }
  right. destruct (storage_ok env) eqn:Hst; [left|right];
    exists (c :: uid), p, data; split_and!; try done.
  - by apply (joinGroup_committed env w _ _ p data).
  - by apply (joinGroup_unremembered env w _ _ p data).
Qed.

(** What the two handlers that remember the group do to the store does
    not depend on [localStorage]. *)
Lemma createGroup_db (env : Env) (w : World) (newGroupName : jsstring) :
  db (exec (handleCreateGroup newGroupName) env w) = db w
  ∨ ∃ uid, userId (ui w) = Some uid ∧ uid ≠ []
           ∧ trim newGroupName ≠ [] ∧ userName (ui w) ≠ []
           ∧ db (exec (handleCreateGroup newGroupName) env w)
             = Firestore.commit (createBatch env (ui w) newGroupName uid)
                 (db w).
Proof.
  destruct (createGroup_cases env w newGroupName)
    as [(m & ->)|[(uid & Hu & Hne & Hn & Hun & _ & _ & ->)
                 |(uid & Hu & Hne & Hn & Hun & _ & _ & ->)]].
  - left. open_world w. proj. reflexivity.
  - right. exists uid. split_and!; [done..|].
    generalize (Firestore.commit (createBatch env (ui w) newGroupName uid)
                  (db w)).
    intros s'. clear. open_world w. proj. reflexivity.
  - right. exists uid. split_and!; [done..|].
    generalize (Firestore.commit (createBatch env (ui w) newGroupName uid)
                  (db w)).
    intros s'. clear. open_world w. proj. reflexivity.
Qed.

Lemma joinGroup_db (env : Env) (w : World) (groupIdToJoin : jsstring) :
  db (exec (handleJoinGroup groupIdToJoin) env w) = db w
  ∨ ∃ uid p data,
      userId (ui w) = Some uid ∧ uid ≠ [] ∧ userName (ui w) ≠ []
      ∧ Firestore.doc [lit "groups"; trim groupIdToJoin] = Some p
      ∧ Firestore.getDoc (db w) p = Some data
      ∧ db (exec (handleJoinGroup groupIdToJoin) env w)
        = Firestore.apply_write (db w)
            (Firestore.SetMember (Firestore.refId p) uid
               {| Firestore.userName := userName (ui w);
                  Firestore.joinedAt := server_time env |}).
Proof.
  destruct (joinGroup_cases env w groupIdToJoin)
    as [(m & ->)
       |[(uid & p & d & Hu & Hne & _ & Hun & _ & _ & _ & Hd & Hg & ->)
        |(uid & p & d & Hu & Hne & _ & Hun & _ & _ & _ & Hd & Hg & ->)]].
  - left. open_world w. proj. reflexivity.
  - right. exists uid, p, d. split_and!; [done..|].
    clear. open_world w. proj. by rewrite commit_cons, commit_nil.
  - right. exists uid, p, d. split_and!; [done..|].
    clear. open_world w. proj. by rewrite commit_cons, commit_nil.
Qed.

Lemma sendCompliment_cases (env : Env) (w : World) :
  (∃ m, exec handleSendCompliment env w = showNotification m error w)
  ∨ (selectedFriendId (ui w) ≠ [] ∧ trim (complimentMessage (ui w)) ≠ []
     ∧ write_ok env = true
     ∧ exec handleSendCompliment env w
       = setSelectedFriendId []
           (setComplimentMessage []
              (showNotification (lit "Secret compliment sent!") success
                 (with_db
                    (Firestore.commit
                       [Firestore.SetCompliment (auto_id env)
                          (complimentRecord env (ui w))] (db w)) w)))).
Proof.
  destruct (selectedFriendId (ui w)) as [|c f] eqn:Hf.
  { left. eexists. apply sendCompliment_invalid. by left. }
  destruct (trim (complimentMessage (ui w))) as [|c' m] eqn:Hm.
  { left. eexists. apply sendCompliment_invalid. by right. }
  destruct (write_ok env) eqn:Hok.
  - right. split_and!; try done.
    apply sendCompliment_committed; [by rewrite Hf | by rewrite Hm | done].
  - left. eexists.
    apply sendCompliment_rejected; [by rewrite Hf | by rewrite Hm | done].
Qed.

(** ** Notices and commits *)

(** X1: every call of a handler raises exactly one notice, whatever branch it
    takes, and the notification slot holds it when the handler is done. *)
Theorem handlers_raise_one_notice (env : Env) (w : World)
    (newGroupName groupIdToJoin : jsstring) :
  let one_notice w' :=
    ∃ a, shown w' = shown w ++ [a] ∧ notification (ui w') = a
         ∧ show a = true in
  one_notice (exec handleSaveName env w)
  ∧ one_notice (exec (handleCreateGroup newGroupName) env w)
  ∧ one_notice (exec (handleJoinGroup groupIdToJoin) env w)
  ∧ one_notice (exec handleSendCompliment env w)
  ∧ one_notice (handleLeaveGroup w).
Proof.
  intros one_notice. subst one_notice. cbv beta.
  split_and!.
  - destruct (saveName_cases env w) as [(m & -> & _)|(uid & _ & _ & _ & _ & ->)];
      eexists; open_world w; proj; by split_and!.
  - destruct (createGroup_cases env w newGroupName)
      as [(m & ->)|[(uid & _ & _ & _ & _ & _ & _ & ->)
                   |(uid & _ & _ & _ & _ & _ & _ & ->)]];
      eexists; open_world w; proj; by split_and!.
  - destruct (joinGroup_cases env w groupIdToJoin)
      as [(m & ->)|[(uid & p & d & _ & _ & _ & _ & _ & _ & _ & _ & _ & ->)
                   |(uid & p & d & _ & _ & _ & _ & _ & _ & _ & _ & _ & ->)]];
      eexists; open_world w; proj; by split_and!.
  - destruct (sendCompliment_cases env w) as [(m & ->)|(_ & _ & _ & ->)];
      eexists; open_world w; proj; by split_and!.
  - eexists. open_world w. proj. by split_and!.
Qed.

(** X2: the type of the notice tells what happened to the store, unless
    [localStorage] refuses the group id.  [handleSaveName] and
    [handleSendCompliment]: on an error notice nothing was written and
    nothing published; on a success notice exactly one commit was
    published.  [handleCreateGroup] and [handleJoinGroup]: on a success
    notice exactly one commit was published and the group is the current
    and the remembered one; on an error notice either nothing was written
    and the current and the remembered group are as before, or, only when
    [setItem] threw, the commit was published and the group entered, but
    the remembered group is as before. *)
Theorem notice_tells_outcome (env : Env) (w : World)
    (newGroupName groupIdToJoin : jsstring) :
  let quiet w' :=
    type (notification (ui w')) = error
    ∧ db w' = db w ∧ published w' = published w
    ∧ currentGroupId (ui w') = currentGroupId (ui w)
    ∧ lastGroupId w' = lastGroupId w in
  let committed w' :=
    write_ok env = true ∧ published w' = published w ++ [db w'] in
  let plain w' :=
    quiet w' ∨ (type (notification (ui w')) = success ∧ committed w') in
  let remembering w' :=
    quiet w'
    ∨ (type (notification (ui w')) = success ∧ committed w'
       ∧ storage_ok env = true
       ∧ is_Some (currentGroupId (ui w'))
       ∧ lastGroupId w' = currentGroupId (ui w'))
    ∨ (type (notification (ui w')) = error ∧ committed w'
       ∧ storage_ok env = false
       ∧ is_Some (currentGroupId (ui w'))
       ∧ lastGroupId w' = lastGroupId w) in
  plain (exec handleSaveName env w)
  ∧ remembering (exec (handleCreateGroup newGroupName) env w)
  ∧ remembering (exec (handleJoinGroup groupIdToJoin) env w)
  ∧ plain (exec handleSendCompliment env w).
Proof.
  intros quiet committed plain remembering.
  subst quiet committed plain remembering. cbv beta.
  split_and!.
  - destruct (saveName_cases env w)
      as [(m & -> & _)|(uid & _ & _ & _ & Hok & ->)];
      [left|right]; open_world w; proj; by split_and!.
  - destruct (createGroup_cases env w newGroupName)
      as [(m & ->)|[(uid & _ & _ & _ & _ & Hok & Hst & ->)
                   |(uid & _ & _ & _ & _ & Hok & Hst & ->)]];
      [left|right; left|right; right]; open_world w; proj; by split_and!.
  - destruct (joinGroup_cases env w groupIdToJoin)
      as [(m & ->)
         |[(uid & p & d & _ & _ & _ & _ & _ & Hok & Hst & _ & _ & ->)
          |(uid & p & d & _ & _ & _ & _ & _ & Hok & Hst & _ & _ & ->)]];
      [left|right; left|right; right]; open_world w; proj; by split_and!.
  - destruct (sendCompliment_cases env w) as [(m & ->)|(_ & _ & Hok & ->)];
      [left|right]; open_world w; proj; by split_and!.
Qed.

(** ** What each handler leaves alone *)

(** X3: [handleSaveName] can only change the profile document of the signed-in
    identity: every other profile and the three other collections are as
    before.  It never changes [userName] itself: the name shown comes from
    the profile subscription only. *)
Theorem save_name_frame (env : Env) (w : World) :
  let w' := exec handleSaveName env w in
  Firestore.groups (db w') = Firestore.groups (db w)
  ∧ Firestore.members (db w') = Firestore.members (db w)
  ∧ Firestore.compliments (db w') = Firestore.compliments (db w)
  ∧ (∀ uid, userId (ui w) ≠ Some uid →
            Firestore.users (db w') !! uid = Firestore.users (db w) !! uid)
  ∧ userName (ui w') = userName (ui w)
  ∧ editingName (ui w') = editingName (ui w).
Proof.
  intros w'. subst w'.
  destruct (saveName_cases env w)
    as [(m & -> & _)|(uid & Hu & _ & _ & _ & ->)].
  - open_world w. proj. by split_and!.
  - revert Hu. generalize (trim (editingName (ui w))). intros n Hu.
    open_world w. proj. rewrite commit_cons, commit_nil.
    split_and!; try reflexivity.
    intros uid' Hne. rewrite users_SetUser. apply lookup_insert_ne.
    congruence.
Qed.

(** X4: [handleSendCompliment] is append-only: it changes nothing but the
    compliment document of the id the store drew, so that with a fresh id
    every compliment already stored is still there unchanged. *)
Theorem send_is_append_only (env : Env) (w : World) :
  let w' := exec handleSendCompliment env w in
  Firestore.users (db w') = Firestore.users (db w)
  ∧ Firestore.groups (db w') = Firestore.groups (db w)
  ∧ Firestore.members (db w') = Firestore.members (db w)
  ∧ (∀ id, id ≠ auto_id env →
           Firestore.compliments (db w') !! id
           = Firestore.compliments (db w) !! id)
  ∧ (Firestore.compliments (db w) !! auto_id env = None →
     Firestore.compliments (db w) ⊆ Firestore.compliments (db w')).
Proof.
  intros w'. subst w'.
  destruct (sendCompliment_cases env w) as [(m & ->)|(_ & _ & _ & ->)].
  - open_world w. proj. by split_and!.
  - generalize (complimentRecord env (ui w)). intros d.
    open_world w. proj.
    rewrite commit_cons, commit_nil, compliments_SetCompliment.
    split_and!; try reflexivity.
    + intros id Hne. by apply lookup_insert_ne.
    + intros Hfresh. by apply insert_subseteq.
Qed.

(** X5: [handleCreateGroup] can only change the group document of the id the
    store drew and the creator's entry in the roster under it. *)
Theorem create_group_frame (env : Env) (w : World) (newGroupName : jsstring) :
  let w' := exec (handleCreateGroup newGroupName) env w in
  Firestore.users (db w') = Firestore.users (db w)
  ∧ Firestore.compliments (db w') = Firestore.compliments (db w)
  ∧ (∀ gid, gid ≠ auto_id env →
            Firestore.groups (db w') !! gid = Firestore.groups (db w) !! gid
            ∧ Firestore.roster_of (db w') gid
              = Firestore.roster_of (db w) gid)
  ∧ (∀ uid, userId (ui w) ≠ Some uid →
            Firestore.roster_of (db w') (auto_id env) !! uid
            = Firestore.roster_of (db w) (auto_id env) !! uid).
Proof.
  intros w'. subst w'.
  destruct (createGroup_db env w newGroupName)
    as [->|(uid & Hu & _ & _ & _ & ->)]; [done|].
  pose proof (commit_createBatch env (ui w) newGroupName uid (db w)) as Hs.
  cbv zeta in Hs. destruct Hs as (Hg & Hr & Hr').
  split_and!; try done.
  - intros gid Hne. split; [|by apply Hr'].
    rewrite Hg. by apply lookup_insert_ne.
  - intros uid' Hne. rewrite Hr. apply lookup_insert_ne. congruence.
Qed.

(** X6: [handleJoinGroup] can only change the entry of the joining
    identity in one roster: the one under the last segment of the
    reference [doc(db, "groups", id)] of the trimmed id, which for an id
    without '/' is the trimmed id itself.  It never writes a profile, a
    group document or a compliment, another roster or another member's
    entry, and it writes only when a document is stored under the
    reference.  Every visible group still has a member if that was so
    before. *)
Theorem join_group_frame (env : Env) (w : World) (groupIdToJoin : jsstring) :
  let w' := exec (handleJoinGroup groupIdToJoin) env w in
  let ref := Firestore.doc [lit "groups"; trim groupIdToJoin] in
  Firestore.users (db w') = Firestore.users (db w)
  ∧ Firestore.groups (db w') = Firestore.groups (db w)
  ∧ Firestore.compliments (db w') = Firestore.compliments (db w)
  ∧ (∀ gid, (Firestore.refId <$> ref) ≠ Some gid →
            Firestore.roster_of (db w') gid = Firestore.roster_of (db w) gid)
  ∧ (∀ gid uid, userId (ui w) ≠ Some uid →
                Firestore.roster_of (db w') gid !! uid
                = Firestore.roster_of (db w) gid !! uid)
  ∧ (db w' ≠ db w →
     ∃ p, ref = Some p ∧ is_Some (Firestore.getDoc (db w) p))
  ∧ (Firestore.slash ∉ trim groupIdToJoin → trim groupIdToJoin ≠ [] →
     (Firestore.refId <$> ref) = Some (trim groupIdToJoin))
  ∧ (groupsHaveMembers (db w) → groupsHaveMembers (db w')).
Proof.
  intros w' ref. subst w' ref.
  assert (Hseg : Firestore.slash ∉ trim groupIdToJoin →
                 trim groupIdToJoin ≠ [] →
                 Firestore.refId
                   <$> Firestore.doc [lit "groups"; trim groupIdToJoin]
                 = Some (trim groupIdToJoin)).
  { intros Hs Hn. by rewrite doc_group_id. }
  destruct (joinGroup_db env w groupIdToJoin)
    as [->|(uid & p & d & Hu & _ & _ & Hd & Hg & ->)]; [by split_and!|].
  rewrite Hd in *.
  change (Firestore.refId <$> Some p) with (Some (Firestore.refId p)) in *.
  set (gid0 := Firestore.refId p) in *. clearbody gid0.
  generalize (server_time env). intros t.
  split_and!; try reflexivity.
  - intros gid Hne. apply roster_of_SetMember_ne. congruence.
  - intros gid uid' Hne. destruct (decide (gid0 = gid)) as [<-|Hg'].
    + rewrite roster_of_SetMember. apply lookup_insert_ne. congruence.
    + by rewrite roster_of_SetMember_ne.
  - intros _. exists p. by rewrite Hg.
  - exact Hseg.
  - intros HI gid' Hg'. rewrite groups_SetMember in Hg'.
    destruct (decide (gid0 = gid')) as [<-|Hne].
    + eapply membersQuery_inhabited. rewrite roster_of_SetMember.
      apply lookup_insert_eq.
    + unfold Firestore.membersQuery.
      rewrite roster_of_SetMember_ne by done. by apply HI.
Qed.

(** ** The draft of a compliment *)

(** X7: a compliment that could not be sent stays in the form: on an error
    notice the message and the selected receiver are as typed; on success
    both are cleared. *)
Theorem send_keeps_draft_on_error (env : Env) (w : World) :
  let w' := exec handleSendCompliment env w in
  (type (notification (ui w')) = error
   ∧ complimentMessage (ui w') = complimentMessage (ui w)
   ∧ selectedFriendId (ui w') = selectedFriendId (ui w))
  ∨ (type (notification (ui w')) = success
     ∧ complimentMessage (ui w') = []
     ∧ selectedFriendId (ui w') = []
     ∧ Firestore.compliments (db w') !! auto_id env
       = Some (complimentRecord env (ui w))).
Proof.
  intros w'. subst w'.
  destruct (sendCompliment_cases env w) as [(m & ->)|(_ & _ & _ & ->)].
  - left. open_world w. proj. by split_and!.
  - right. generalize (complimentRecord env (ui w)). intros d.
    open_world w. proj.
    rewrite commit_cons, commit_nil, compliments_SetCompliment.
    split_and!; try reflexivity. apply lookup_insert_eq.
Qed.

(** ** Trimmed input *)

Lemma trimStart_split (s : jsstring) :
  ∃ p, s = p ++ trimStart s ∧ Forall (λ c, isWhiteSpace c = true) p.
Proof.
  induction s as [|c s (p & Hs & Hp)]; [by exists []|].
  cbn [trimStart]. destruct (isWhiteSpace c) eqn:Hc.
  - exists (c :: p). split; [by rewrite Hs at 1 | by constructor].
  - by exists [].
Qed.

Lemma trimStart_head (s : jsstring) (c : N) :
  head (trimStart s) = Some c → isWhiteSpace c = false.
Proof.
  induction s as [|c' s IH]; [done|]. cbn [trimStart].
  destruct (isWhiteSpace c') eqn:Hc; [done|]. by intros [= <-].
Qed.

Lemma trimStart_id (s : jsstring) :
  (∀ c, head s = Some c → isWhiteSpace c = false) → trimStart s = s.
Proof.
  destruct s as [|c s]; [done|]. intros H. cbn [trimStart].
  by rewrite (H c eq_refl).
Qed.

Lemma last_rev (s : jsstring) : last (rev s) = head s.
Proof. destruct s as [|c s]; [done|]. simpl. apply last_snoc. Qed.

Lemma head_rev (s : jsstring) : head (rev s) = last s.
Proof. by rewrite <- last_rev, rev_involutive. Qed.

Lemma trim_last (s : jsstring) (c : N) :
  last (trim s) = Some c → isWhiteSpace c = false.
Proof. unfold trim, trimEnd. rewrite last_rev. apply trimStart_head. Qed.

Lemma trim_head (s : jsstring) (c : N) :
  head (trim s) = Some c → isWhiteSpace c = false.
Proof.
  unfold trim, trimEnd. intros Hc.
  destruct (trimStart_split (rev (trimStart s))) as (p & Hs & _).
  apply (f_equal (@rev N)) in Hs. rewrite rev_involutive, rev_app_distr in Hs.
  apply (trimStart_head s). rewrite Hs.
  destruct (rev (trimStart (rev (trimStart s)))); [done|]. exact Hc.
Qed.

(** Trimming twice is trimming once. *)
Lemma trim_idempotent (s : jsstring) : trim (trim s) = trim s.
Proof.
  unfold trim at 1. unfold trimEnd.
  rewrite (trimStart_id (trim s)) by apply trim_head.
  rewrite trimStart_id; [apply rev_involutive|].
  intros c. rewrite head_rev. apply trim_last.
Qed.

(** X8: the names the handlers store carry no blanks around them.  A
    profile document that [handleSaveName] leaves in the store and that
    was not there before holds a name that is not empty, starts and ends
    with a character that is not white space, and is its own trim; the
    same holds for the name of a group document that [handleCreateGroup]
    leaves and that was not there before. *)
Theorem stored_names_are_trimmed (env : Env) (w : World)
    (newGroupName : jsstring) :
  let trimmed n :=
    n ≠ [] ∧ trim n = n
    ∧ (∀ c, head n = Some c → isWhiteSpace c = false)
    ∧ (∀ c, last n = Some c → isWhiteSpace c = false) in
  (∀ uid d,
     Firestore.users (db (exec handleSaveName env w)) !! uid = Some d →
     Firestore.users (db w) !! uid = Some d
     ∨ ∃ n, d = {[ "name"%string := n ]} ∧ trimmed n)
  ∧ (∀ gid d,
       Firestore.groups (db (exec (handleCreateGroup newGroupName) env w))
         !! gid = Some d →
       Firestore.groups (db w) !! gid = Some d
       ∨ trimmed (Firestore.groupName d)).
Proof.
  intros trimmed.
  assert (Ht : ∀ s, trim s ≠ [] → trimmed (trim s)).
  { intros s Hs. split_and!; [done | apply trim_idempotent
                             | apply trim_head | apply trim_last]. }
  split.
  - intros uid d.
    destruct (saveName_cases env w)
      as [(m & -> & _)|(uid' & Hu & _ & Hn & _ & ->)].
    + intros Hd. left. revert Hd. open_world w. by proj.
    + specialize (Ht _ Hn). revert Ht.
      generalize (trim (editingName (ui w))). intros n Ht.
      open_world w. proj. rewrite commit_cons, commit_nil, users_SetUser.
      destruct (decide (uid' = uid)) as [->|Hne].
      * rewrite lookup_insert_eq. intros [= <-]. right. by exists n.
      * rewrite lookup_insert_ne by done. by left.
  - intros gid d.
    destruct (createGroup_db env w newGroupName)
      as [->|(uid & Hu & _ & Hn & _ & ->)]; [by left|].
    specialize (Ht _ Hn).
    destruct (commit_createBatch env (ui w) newGroupName uid (db w))
      as (Hg & _). rewrite Hg.
    destruct (decide (auto_id env = gid)) as [->|Hne].
    + rewrite lookup_insert_eq. intros [= <-]. by right.
    + rewrite lookup_insert_ne by done. by left.
Qed.

(** X9: a group id pasted with blanks around it joins the same group: the
    handler uses the id only through its trim. *)
Theorem join_ignores_surrounding_blanks (env : Env) (w : World)
    (groupIdToJoin : jsstring) :
  exec (handleJoinGroup groupIdToJoin) env w
  = exec (handleJoinGroup (trim groupIdToJoin)) env w.
Proof.
  unfold handleJoinGroup. cbv zeta. by rewrite trim_idempotent.
Qed.

(** X10: an accepted join enters the group.  For a signed-in user with a
    display name, an id whose reference names the group [gid] (for an id
    without '/', the trimmed id), a group document stored under it and
    store calls that succeed, the handler writes the user's membership
    with that display name and makes [gid] the current group.  When
    [localStorage] takes the id, [gid] is also the remembered group and
    the notice greets with the name of the group; when [setItem] throws,
    the remembered group is as before and the notice is "Could not join
    the group.", although the user is in the group. *)
Theorem join_enters_group (env : Env) (w : World)
    (groupIdToJoin gid uid : jsstring) (g : Firestore.GroupDoc) :
  trim groupIdToJoin ≠ [] → userName (ui w) ≠ [] →
  userId (ui w) = Some uid → uid ≠ [] →
  read_ok env = true → write_ok env = true →
  Firestore.doc [lit "groups"; trim groupIdToJoin]
  = Some [lit "groups"; gid] →
  Firestore.groups (db w) !! gid = Some g →
  let w' := exec (handleJoinGroup groupIdToJoin) env w in
  currentGroupId (ui w') = Some gid
  ∧ Firestore.roster_of (db w') gid !! uid
    = Some {| Firestore.userName := userName (ui w);
              Firestore.joinedAt := server_time env |}
  ∧ Firestore.groups (db w') !! gid = Some g
  ∧ (storage_ok env = true →
     lastGroupId w' = Some gid
     ∧ shown w' = shown w ++
         [notice (lit "Successfully joined " ++ dquote
                    ++ Firestore.groupName g ++ dquote ++ lit "!") success])
  ∧ (storage_ok env = false →
     lastGroupId w' = lastGroupId w
     ∧ shown w' = shown w ++
         [notice (lit "Could not join the group.") error]).
Proof.
  intros Hn Hun Hu Hne Hr Hok Hd Hg w'.
  assert (Hdoc : Firestore.getDoc (db w) [lit "groups"; gid]
                 = Some (Firestore.GroupData g))
    by (by rewrite getDoc_group, Hg).
  destruct (joinGroup_effect env w groupIdToJoin uid _ _
              Hn Hun Hu Hne Hr Hok Hd Hdoc) as (Hdb & _ & _ & _ & Hcur).
  fold w' in Hdb, Hcur.
  change (Firestore.refId [lit "groups"; gid]) with gid in Hdb, Hcur.
  split_and!.
  - exact Hcur.
  - rewrite Hdb, roster_of_SetMember. apply lookup_insert_eq.
  - by rewrite Hdb, groups_SetMember.
  - intros Hst. subst w'.
    rewrite (joinGroup_committed env w groupIdToJoin uid _ _
               Hn Hun Hu Hne Hr Hok Hst Hd Hdoc).
    change (Firestore.refId [lit "groups"; gid]) with gid.
    change (Firestore.groupNameField (Firestore.GroupData g))
      with (Firestore.groupName g).
    clear. open_world w. proj. by split.
  - intros Hst. subst w'.
    rewrite (joinGroup_unremembered env w groupIdToJoin uid _ _
               Hn Hun Hu Hne Hr Hok Hst Hd Hdoc).
    clear. open_world w. proj. by split.
Qed.

(** X24: a join enters the group of the last segment.  Whatever is
    typed, [handleJoinGroup] either leaves the store and the current
    group as they were, or enters the group named by the last segment of
    the typed path: that name is one of the segments of the trimmed id,
    is not empty and holds no '/', it becomes the current group, and the
    user's own membership is written under it. *)
Theorem join_enters_last_segment (env : Env) (w : World)
    (groupIdToJoin : jsstring) :
  let w' := exec (handleJoinGroup groupIdToJoin) env w in
  (db w' = db w ∧ currentGroupId (ui w') = currentGroupId (ui w))
  ∨ ∃ gid uid,
      gid ∈ Firestore.segments (trim groupIdToJoin)
      ∧ gid ≠ [] ∧ (Firestore.slash ∉ gid)
      ∧ (Firestore.refId <$> Firestore.doc [lit "groups"; trim groupIdToJoin])
        = Some gid
      ∧ userId (ui w) = Some uid
      ∧ currentGroupId (ui w') = Some gid
      ∧ Firestore.roster_of (db w') gid !! uid
        = Some {| Firestore.userName := userName (ui w);
                  Firestore.joinedAt := server_time env |}.
Proof.
  intros w'. subst w'.
  destruct (joinGroup_cases env w groupIdToJoin)
    as [(m & ->)
       |[(uid & p & d & Hu & Hne & Hn & Hun & Hr & Hok & _ & Hd & Hg & _)
        |(uid & p & d & Hu & Hne & Hn & Hun & Hr & Hok & _ & Hd & Hg & _)]].
  { left. open_world w. proj. by split. }
  all: right; exists (Firestore.refId p), uid;
    destruct (doc_groups_spec _ _ Hd) as [_ Hin];
    destruct (segments_spec _ _ Hin) as [Hgne Hgs];
    destruct (joinGroup_effect env w groupIdToJoin uid p d
                Hn Hun Hu Hne Hr Hok Hd Hg) as (Hdb & _ & _ & _ & Hcur);
    rewrite Hd; split_and!; try done;
    rewrite Hdb, roster_of_SetMember; apply lookup_insert_eq.
Qed.

(** ** Invariants of a session *)

(** The world after the first render. *)
Lemma mount_eq (s : Firestore.Store) (last : option jsstring) :
  mount s last
  = {| db := s; published := [s]; ui := initialState last;
       lastGroupId := last; shown := []; listeners := [];
       next_handle := 0%nat;
       profile_fx := {| last_deps := Some (false, None); cleanup := [] |};
       group_fx := {| last_deps := Some (false, None, last);
                      cleanup := [] |} |}.
Proof. reflexivity. Qed.

(** To show that something holds in every world a session reaches, it is
    enough to show it after the first render and after every turn taken
    from a wired world where it holds. *)
Lemma run_invariant_on (Q : Event → Prop) (P : World → Prop)
    (s : Firestore.Store) (last : option jsstring) (evs : list Event) :
  Forall Q evs →
  P (mount s last) →
  (∀ w e, Q e → Wired w → Synced w → P w → enabled e w = true →
          P (commitEffects (handle_event e w))) →
  P (run evs (mount s last)).
Proof.
  intros HQ H0 Hstep. destruct (mount_wired s last) as [HW HS].
  revert HW HS H0. generalize (mount s last).
  induction HQ as [|e evs He HQ IH]; intros w HW HS HP; [done|].
  cbn [run foldl]. destruct (step_wired w e HW HS) as [HW' HS'].
  apply IH; [done..|].
  unfold step in *. destruct (enabled e w) eqn:Hen; [|done]. by apply Hstep.
Qed.

Lemma run_invariant (P : World → Prop)
    (s : Firestore.Store) (last : option jsstring) (evs : list Event) :
  P (mount s last) →
  (∀ w e, Wired w → Synced w → P w → enabled e w = true →
          P (commitEffects (handle_event e w))) →
  P (run evs (mount s last)).
Proof.
  intros H0 Hstep. apply (run_invariant_on (λ _, True)); [|done|].
  - apply Forall_forall. done.
  - intros w e _. apply Hstep.
Qed.

(** *** What the effects do to the state *)

Lemma groupEffect_ui (w : World) :
  selectedFriendId (ui (groupEffect w).1) = selectedFriendId (ui w)
  ∧ complimentMessage (ui (groupEffect w).1) = complimentMessage (ui w)
  ∧ (group_targets (group_deps w) = [] →
     views (groupEffect w).1 = ([], [], [], []))
  ∧ (group_targets (group_deps w) ≠ [] →
     ui (groupEffect w).1 = ui w).
Proof.
  open_world w. unfold groupEffect, group_deps, group_targets, views.
  cbn [ui isAuthReady userId currentGroupId].
  destruct isAuthReady0, userId0 as [[|c u]|], currentGroupId0 as [[|c' g]|];
    cbn [negb orb andb truthy truthy_opt];
    unfold onSnapshot; proj; cbn [fst snd]; by split_and!.
Qed.

Lemma commitEffects_ui (w : World) :
  Wired w →
  selectedFriendId (ui (commitEffects w)) = selectedFriendId (ui w)
  ∧ complimentMessage (ui (commitEffects w)) = complimentMessage (ui w)
  ∧ (last_deps (group_fx w) = Some (group_deps w) →
     ui (commitEffects w) = ui w)
  ∧ (group_targets (group_deps w) ≠ [] → ui (commitEffects w) = ui w)
  ∧ (last_deps (group_fx w) ≠ Some (group_deps w) →
     group_targets (group_deps w) = [] →
     views (commitEffects w) = ([], [], [], [])).
Proof.
  intros HW. rewrite commitEffects_eq. cbv zeta.
  destruct (profile_effect_wired w HW) as (_ & _ & Hg2 & Hui2 & _).
  cbv zeta in *.
  set (w2 := with_profile_fx _ _) in *. clearbody w2.
  assert (Hd2 : group_deps w2 = group_deps w)
    by (unfold group_deps; by rewrite Hui2).
  rewrite <- Hd2, <- Hg2, <- Hui2. clear Hd2 Hg2 Hui2 HW w.
  rewrite useEffect_eq.
  destruct (bool_decide_reflect
              (last_deps (group_fx w2) = Some (group_deps w2))) as [Heq|Hne];
    cbn [fst snd].
  - assert (E : ui (with_group_fx (group_fx w2) w2) = ui w2) by by destruct w2.
    unfold views. rewrite E. by split_and!.
  - destruct (runCleanup_spec (cleanup (group_fx w2)) w2)
      as (_ & _ & _ & _ & Hui & _).
    set (w1 := runCleanup _ w2) in *.
    assert (Hd : group_deps w1 = group_deps w2)
      by (unfold group_deps; by rewrite Hui).
    destruct (groupEffect_ui w1) as (Hs & Hm & Hclr & Hsame).
    rewrite Hd, Hui in *.
    set (w3 := (groupEffect w1).1) in *.
    assert (E : ∀ e, ui (with_group_fx e w3) = ui w3) by (intros; by destruct w3).
    unfold views in *. rewrite !E. by split_and!.
Qed.

(** *** What an event does to the state, before the effects *)

(** Splits a goal about [handle_event e w] into one goal for each way the
    event can end, each about a world built from [w] by the setters. *)
Ltac event_cases e w :=
  let H := fresh "Hex" in
  destruct e as [[?|]| ? | | ?env | ?env ?n | ?env ?g | | | ? | ? | ?env
                | ?h | ? | ?];
  cbn [handle_event];
  [ | | | |
    match goal with env : Env |- _ =>
      destruct (saveName_cases env w)
        as [(? & H & _)|(? & ? & ? & ? & ? & H)]; rewrite H; clear H end
  | match goal with env : Env, n : jsstring |- _ =>
      destruct (createGroup_cases env w n)
        as [(? & H)|[(? & ? & ? & ? & ? & ? & ?Hst & H)
                    |(? & ? & ? & ? & ? & ? & ?Hst & H)]];
      rewrite H; clear H end
  | match goal with env : Env, g : jsstring |- _ =>
      destruct (joinGroup_cases env w g)
        as [(? & H)
           |[(? & ?p & ?d & ? & ? & ? & ? & ? & ? & ?Hst & ? & ? & H)
            |(? & ?p & ?d & ? & ? & ? & ? & ? & ? & ?Hst & ? & ? & H)]];
      rewrite H; clear H end
  | | | | |
    match goal with env : Env |- _ =>
      destruct (sendCompliment_cases env w)
        as [(? & H)|(? & ? & ? & H)]; rewrite H; clear H end
  | unfold deliver;
    destruct (List.find _ (listeners w)) as [?l|] eqn:?Hfind;
    [ destruct (target _) eqn:?Htarget;
      [ unfold onProfileSnapshot;
        destruct (Firestore.users (db w) !! _) as [?d|];
        [ destruct (_ !! "name"%string) as [?n|];
          [ destruct (truthy _) | ] | ]
      | unfold onGroupSnapshot;
        destruct (Firestore.groups (db w) !! _) as [?d|] eqn:?Hgroup
      | unfold onMembersSnapshot
      | unfold onReceivedSnapshot
      | unfold onSentSnapshot ]
    | ]
  | | ].

(** Only the identity provider changes the identity. *)
Lemma handle_event_identity (e : Event) (w : World) :
  (isAuthReady (ui (handle_event e w)) = isAuthReady (ui w)
   ∧ userId (ui (handle_event e w)) = userId (ui w))
  ∨ (∃ u, e = AuthStateChanged (Some u)
          ∧ isAuthReady (ui (handle_event e w)) = true
          ∧ userId (ui (handle_event e w)) = Some u).
Proof.
  event_cases e w;
    try (left; open_world w; proj; by split).
  right. eexists. split; [done|]. open_world w. proj. by split.
Qed.

(** While [localStorage] is quiet, the current and the remembered group
    change together. *)
Lemma handle_event_group (e : Event) (w : World) :
  storage_quiet e = true →
  (currentGroupId (ui (handle_event e w)) = currentGroupId (ui w)
   ∧ lastGroupId (handle_event e w) = lastGroupId w)
  ∨ (currentGroupId (ui (handle_event e w)) = lastGroupId (handle_event e w)).
Proof.
  intros Hq.
  event_cases e w; cbn [storage_quiet] in Hq;
    first [ left; open_world w; proj; by split
          | right; open_world w; proj; reflexivity
          | congruence ].
Qed.

(** Only a snapshot changes what the group page shows, and the receiver
    selection changes only by the selector or a sent compliment. *)
Lemma handle_event_views (e : Event) (w : World) :
  (∀ h, e ≠ Snapshot h) → views (handle_event e w) = views w.
Proof.
  intros Hne. unfold views.
  event_cases e w; try (open_world w; proj; reflexivity);
    by destruct (Hne h).
Qed.

Lemma deliver_views_without_group (h : nat) (w : World) :
  List.filter isGroupListener (listeners w) = [] →
  views (deliver h w) = views w.
Proof.
  intros Hnone. unfold views.
  assert (Hno : ∀ l, List.find (λ l, (handle l =? h)%nat) (listeners w) = Some l →
                     isGroupTarget (target l) = false).
  { intros l [Hl _]%find_some.
    destruct (isGroupTarget (target l)) eqn:Hg; [|done].
    assert (Hin : In l (List.filter isGroupListener (listeners w)))
      by (apply filter_In; by split).
    rewrite Hnone in Hin. destruct Hin. }
  change (handle_event (Snapshot h) w) with (deliver h w) || idtac.
  unfold deliver.
  destruct (List.find _ (listeners w)) as [l|] eqn:Hf; [|done].
  specialize (Hno l eq_refl).
  destruct (target l); try discriminate Hno.
  unfold onProfileSnapshot.
  destruct (_ !! _) as [d|]; [|open_world w; proj; reflexivity].
  destruct (d !! _) as [n|]; [|open_world w; proj; reflexivity].
  destruct (truthy n); open_world w; proj; reflexivity.
Qed.

(** What a whole turn keeps. *)
Lemma turn_frame (e : Event) (w : World) :
  Wired w →
  let w1 := handle_event e w in
  let w2 := commitEffects w1 in
  Wired w1
  ∧ group_deps w2 = group_deps w1
  ∧ db w2 = db w1 ∧ published w2 = published w1
  ∧ shown w2 = shown w1 ∧ lastGroupId w2 = lastGroupId w1
  ∧ selectedFriendId (ui w2) = selectedFriendId (ui w1)
  ∧ complimentMessage (ui w2) = complimentMessage (ui w1)
  ∧ userName (ui w2) = userName (ui w1).
Proof.
  intros HW w1 w2.
  assert (HW1 : Wired w1).
  { eapply Wired_ext; [|exact HW]. symmetry. apply wiring_handle_event. }
  destruct (commitEffects_wired w1 HW1)
    as (_ & _ & Hd & Hun & Hdb & Hpub & Hsh & Hlast & _).
  destruct (commitEffects_ui w1 HW1) as (Hsel & Hmsg & _).
  by split_and!.
Qed.

(** X11: readiness and identity go together and are never lost.  In every
    world a session reaches, [isAuthReady] holds exactly when there is a
    user id; once ready the session stays ready after every event, and
    only the identity provider changes the user id. *)
Theorem identity_never_lost (s : Firestore.Store) (last : option jsstring)
    (evs : list Event) :
  let w := run evs (mount s last) in
  (isAuthReady (ui w) = true ↔ is_Some (userId (ui w)))
  ∧ (∀ e, isAuthReady (ui w) = true → isAuthReady (ui (step w e)) = true)
  ∧ (∀ e, (∀ u, e ≠ AuthStateChanged (Some u)) →
          userId (ui (step w e)) = userId (ui w)).
Proof.
  intros w. destruct (reachable_wired s last evs) as [HW HS]. fold w in HW, HS.
  assert (Hturn : ∀ w e, Wired w →
            isAuthReady (ui (commitEffects (handle_event e w)))
            = isAuthReady (ui (handle_event e w))
            ∧ userId (ui (commitEffects (handle_event e w)))
              = userId (ui (handle_event e w))).
  { intros w0 e HW0. destruct (turn_frame e w0 HW0) as (_ & Hd & _).
    unfold group_deps in Hd. by injection Hd as -> -> _. }
  split_and!.
  - subst w.
    apply (run_invariant
             (λ w, isAuthReady (ui w) = true ↔ is_Some (userId (ui w)))).
    + rewrite mount_eq. cbn. split; [done|]. by intros [? ?].
    + intros w e HW0 _ HP _. destruct (Hturn w e HW0) as [-> ->].
      destruct (handle_event_identity e w) as [[-> ->]|(u & _ & -> & ->)];
        [done|]. split; [by eexists|done].
  - intros e Hr. unfold step. destruct (enabled e w); [|done].
    destruct (Hturn w e HW) as [-> _].
    by destruct (handle_event_identity e w) as [[-> _]|(u & _ & -> & _)].
  - intros e Hne. unfold step. destruct (enabled e w); [|done].
    destruct (Hturn w e HW) as [_ ->].
    destruct (handle_event_identity e w) as [[_ ->]|(u & -> & _)]; [done|].
    by destruct (Hne u).
Qed.

(** X12: while [localStorage] is quiet, the remembered group is the
    current group.  In a session in which [setItem] never throws and no
    other tab writes the remembered group id, [localStorage] holds
    exactly the current group id in every world the session reaches, so
    that a restart resumes the group the user was in, and no group after
    leaving.  (A [setItem] that throws leaves the two apart: see X2 and
    X10.) *)
Theorem remembered_group_is_current (s : Firestore.Store)
    (last : option jsstring) (evs : list Event) :
  forallb storage_quiet evs = true →
  let w := run evs (mount s last) in
  lastGroupId w = currentGroupId (ui w)
  ∧ ∀ s', currentGroupId (ui (mount s' (getLastGroupId w)))
          = currentGroupId (ui w).
Proof.
  intros Hq w.
  assert (H : lastGroupId w = currentGroupId (ui w)).
  { subst w.
    apply (run_invariant_on (λ e, storage_quiet e = true)
             (λ w, lastGroupId w = currentGroupId (ui w))).
    - apply Forall_forall. intros e He%list_elem_of_In.
      revert e He. by apply forallb_forall.
    - by rewrite mount_eq.
    - intros w e He HW _ HP _.
      destruct (turn_frame e w HW) as (_ & Hd & _ & _ & _ & -> & _).
      unfold group_deps in Hd. injection Hd as _ _ ->.
      destruct (handle_event_group e w He) as [[-> ->]| ->]; done. }
  split; [done|]. intros s'. rewrite mount_eq. unfold getLastGroupId.
  by rewrite H.
Qed.

Lemma filter_split_nil {A} (f : A → bool) (l : list A) :
  List.filter f l = [] → List.filter (λ x, negb (f x)) l = [] → l = [].
Proof.
  destruct l as [|x l]; [done|]. simpl. by destruct (f x).
Qed.

(** X13: nothing is subscribed before authentication.  In every world a
    session reaches, there is no listener at all while [isAuthReady] is
    false; once ready with a user id that is not empty, the profile
    document of that id has exactly one listener, and there is none for
    any other profile. *)
Theorem subscriptions_wait_for_identity (s : Firestore.Store)
    (last : option jsstring) (evs : list Event) :
  let w := run evs (mount s last) in
  (isAuthReady (ui w) = false → listeners w = [])
  ∧ map target (List.filter isProfileListener (listeners w))
    = profile_targets (profile_deps w)
  ∧ (∀ u, isAuthReady (ui w) = true → userId (ui w) = Some u → u ≠ [] →
          map target (List.filter isProfileListener (listeners w))
          = [TProfile u]).
Proof.
  intros w. destruct (reachable_wired s last evs) as [HW [HSp HSg]].
  fold w in HW, HSp, HSg. clearbody w.
  assert (Hp : map target (List.filter isProfileListener (listeners w))
               = profile_targets (profile_deps w)).
  { rewrite (wired_profile_targets w HW). unfold slot_targets. by rewrite HSp. }
  assert (Hg : map target (List.filter isGroupListener (listeners w))
               = group_targets (group_deps w)).
  { rewrite (wired_group_targets w HW). unfold slot_targets. by rewrite HSg. }
  split_and!; [|done|].
  - intros Hr. unfold profile_deps, group_deps in *. rewrite Hr in *.
    apply (filter_split_nil isGroupListener).
    + apply (fmap_nil_inv target). etrans; [exact Hg|].
      by destruct (userId (ui w)), (currentGroupId (ui w)).
    + apply (fmap_nil_inv target). etrans; [exact Hp|].
      by destruct (userId (ui w)).
  - intros u Hr Hu Hne. rewrite Hp. unfold profile_deps. rewrite Hr, Hu.
    simpl. by destruct u.
Qed.

(** X14: outside a group the group page is empty.  In every world a session
    reaches where the group effect has nothing to subscribe to (not
    ready, no user id, or no current group), the group name, the roster
    and both compliment views are empty: nothing of a group that was left
    or deleted stays in the state. *)
Theorem no_group_no_views (s : Firestore.Store) (last : option jsstring)
    (evs : list Event) :
  let w := run evs (mount s last) in
  group_targets (group_deps w) = [] → views w = ([], [], [], []).
Proof.
  intros w. subst w.
  apply (run_invariant
           (λ w, group_targets (group_deps w) = [] → views w = ([], [], [], []))).
  - by rewrite mount_eq.
  - intros w e HW [_ HS] HP _ Hnil.
    destruct (turn_frame e w HW) as (HW1 & Hd & _).
    rewrite Hd in Hnil.
    destruct (commitEffects_ui _ HW1) as (_ & _ & Hsame & _ & Hclr).
    pose proof (wiring_handle_event e w) as Hwi. unfold wiring in Hwi.
    injection Hwi as _ _ _ Hgfx.
    destruct (decide (last_deps (group_fx (handle_event e w))
                      = Some (group_deps (handle_event e w)))) as [Heq|Hne];
      [|by apply Hclr].
    unfold views in *. rewrite (Hsame Heq).
    rewrite Hgfx, HS in Heq.
    assert (Hdeps : group_deps w = group_deps (handle_event e w)) by congruence.
    rewrite <- Hdeps in Hnil.
    specialize (HP Hnil).
    assert (Hnone : List.filter isGroupListener (listeners w) = []).
    { apply (fmap_nil_inv target). etrans; [exact (wired_group_targets w HW)|].
      unfold slot_targets. by rewrite HS. }
    assert (Hcase : (∃ h, e = Snapshot h) ∨ (∀ h, e ≠ Snapshot h))
      by (destruct e; eauto).
    destruct Hcase as [[h Hsnap]|Hns].
    + rewrite Hsnap. cbn [handle_event].
      pose proof (deliver_views_without_group h w Hnone) as Hv.
      unfold views in Hv. by rewrite Hv.
    + pose proof (handle_event_views e w Hns) as Hv. unfold views in Hv.
      by rewrite Hv.
Qed.

(** ** Leaving a group *)

(** An event ends the current group only as a click on Leave or as the
    snapshot that reports the group document missing; neither writes. *)
Lemma handle_event_leaves (e : Event) (w : World) :
  currentGroupId (ui w) ≠ None →
  currentGroupId (ui (handle_event e w)) = None →
  (e = Leave
   ∨ ∃ h l g, e = Snapshot h
        ∧ List.find (λ l, (handle l =? h)%nat) (listeners w) = Some l
        ∧ target l = TGroup g ∧ Firestore.groups (db w) !! g = None)
  ∧ db (handle_event e w) = db w
  ∧ published (handle_event e w) = published w
  ∧ lastGroupId (handle_event e w) = None
  ∧ last (shown (handle_event e w))
    = Some (notice (lit "You have left the group.") success)
  ∧ userName (ui (handle_event e w)) = userName (ui w).
Proof.
  event_cases e w; open_world w; proj; intros Hcur Hnone;
    try (by destruct (Hcur Hnone)); try discriminate Hnone.
  - split_and!; try reflexivity; [by left|]. apply last_snoc.
  - split_and!; try reflexivity; [|apply last_snoc].
    right. by eexists _, _, _.
Qed.

(** X15: leaving a group is local and complete.  When a turn taken from a
    world a session reaches ends the current group, the event was the
    Leave button or the snapshot reporting the group document missing;
    the turn writes nothing (the member document stays in the roster of
    the group), forgets the remembered group id, disposes every listener
    of the group effect, empties the group name, the roster and both
    compliment views, and its last notice is "You have left the
    group.". *)
Theorem leaving_is_local_and_complete (s : Firestore.Store)
    (last : option jsstring) (evs : list Event) (e : Event) :
  let w := run evs (mount s last) in
  let w' := step w e in
  currentGroupId (ui w) ≠ None → currentGroupId (ui w') = None →
  (e = Leave
   ∨ ∃ h l g, e = Snapshot h
        ∧ List.find (λ l, (handle l =? h)%nat) (listeners w) = Some l
        ∧ target l = TGroup g ∧ Firestore.groups (db w) !! g = None)
  ∧ db w' = db w ∧ published w' = published w
  ∧ lastGroupId w' = None
  ∧ List.filter isGroupListener (listeners w') = []
  ∧ views w' = ([], [], [], [])
  ∧ List.last (shown w') (notice [] error)
    = notice (lit "You have left the group.") success
  ∧ userId (ui w') = userId (ui w) ∧ userName (ui w') = userName (ui w).
Proof.
  intros w w'. destruct (reachable_wired s last evs) as [HW [HSp HS]].
  fold w in HW, HSp, HS. subst w'. clearbody w. unfold step.
  destruct (enabled e w); [|by intros H1 H2; destruct (H1 H2)].
  intros H1 H2.
  destruct (turn_frame e w HW)
    as (HW1 & Hd & Hdb & Hpub & Hsh & Hlast & _ & _ & Hun).
  cbv zeta in *.
  assert (H3 : currentGroupId (ui (handle_event e w)) = None).
  { unfold group_deps in Hd. injection Hd as _ _ <-. exact H2. }
  destruct (handle_event_leaves e w H1 H3)
    as (Hwhy & Hdb1 & Hpub1 & Hlast1 & Hsh1 & Hun1).
  assert (Hnil : group_targets (group_deps (handle_event e w)) = []).
  { unfold group_deps. rewrite H3. by destruct (userId _). }
  destruct (commitEffects_wired _ HW1) as (HW2 & HS2 & _).
  cbv zeta in *.
  destruct (commitEffects_ui _ HW1) as (_ & _ & _ & _ & Hclr).
  split_and!; try congruence.
  - apply (fmap_nil_inv target).
    etrans; [exact (wired_group_listeners _ HW2 HS2)|]. by rewrite Hd.
  - apply Hclr; [|done].
    pose proof (wiring_handle_event e w) as Hwi. unfold wiring in Hwi.
    injection Hwi as _ _ _ Hgfx. rewrite Hgfx, HS. intros Heq.
    apply H1.
    assert (Hdd : group_deps w = group_deps (handle_event e w)) by congruence.
    unfold group_deps in Hdd. injection Hdd as _ _ ->. exact H3.
  - rewrite Hsh. revert Hsh1. generalize (shown (handle_event e w)).
    intros l Hl. destruct l as [|x l] using rev_ind; [done|].
    rewrite last_snoc in Hl. injection Hl as ->. apply last_last.
  - unfold group_deps in Hd. injection Hd as _ -> _.
    destruct (handle_event_identity e w) as [[_ ->]|(u & -> & _)]; [done|].
    destruct Hwhy as [?|(? & ? & ? & ? & _)]; done.
Qed.

(** ** Who a compliment goes to *)

(** The receiver selection changes only by the selector, or is emptied by
    a compliment that was sent. *)
Lemma handle_event_selection (e : Event) (w : World) :
  selectedFriendId (ui (handle_event e w)) = selectedFriendId (ui w)
  ∨ e = SelectFriend (selectedFriendId (ui (handle_event e w)))
  ∨ ∃ env, e = SubmitCompliment env
           ∧ selectedFriendId (ui (handle_event e w)) = [].
Proof.
  event_cases e w;
    first [ left; open_world w; proj; reflexivity
          | right; left; open_world w; proj; reflexivity
          | right; right; eexists; split; [reflexivity|];
            open_world w; proj; reflexivity ].
Qed.

(** The selector can be set to exactly the ids of the options the page
    renders. *)
Lemma enabled_SelectFriend (id : jsstring) (w : World) :
  enabled (SelectFriend id) w = true
  ↔ isAuthReady (ui w) = true ∧ truthy_opt (currentGroupId (ui w)) = true
    ∧ ∃ m, m ∈ selectableMembers (ui w) ∧ Firestore.item_id m = id.
Proof.
  unfold enabled, selectableMembers.
  rewrite !andb_true_iff, existsb_exists, negb_true_iff, bool_decide_eq_false.
  split.
  - intros [[[Hr Hg] (m & Hin & Hm%bool_decide_eq_true)] Hne].
    split_and!; [done..|]. exists m. split; [|done].
    apply list_elem_of_In, filter_In. split; [done|].
    apply negb_true_iff, bool_decide_eq_false. congruence.
  - intros (Hr & Hg & m & [Hin Hm]%list_elem_of_In%filter_In & Hid).
    apply negb_true_iff, bool_decide_eq_false in Hm.
    split_and!; [done..| |congruence].
    exists m. split; [done|]. by apply bool_decide_eq_true.
Qed.

(** X16: nobody sends a compliment to themselves.  In a session whose
    identity provider keeps reporting the user [u], the selector offers
    exactly the members other than the user, a receiver that is selected
    is never [u], and a turn of the send form either leaves the store as
    it is or writes one record whose sender is [u], whose receiver is
    neither empty nor [u], and whose group is the current group. *)
Theorem never_sends_to_self (u : jsstring) (s : Firestore.Store)
    (last : option jsstring) (evs : list Event) :
  identity_stable u evs →
  let w := run evs (mount s last) in
  (∀ id, enabled (SelectFriend id) w = true
         ↔ isAuthReady (ui w) = true
           ∧ truthy_opt (currentGroupId (ui w)) = true
           ∧ ∃ m, m ∈ selectableMembers (ui w) ∧ Firestore.item_id m = id)
  ∧ (selectedFriendId (ui w) ≠ [] →
     userId (ui w) = Some u ∧ selectedFriendId (ui w) ≠ u)
  ∧ ∀ env,
      let w' := step w (SubmitCompliment env) in
      db w' = db w
      ∨ ∃ c, db w' = Firestore.commit
                       [Firestore.SetCompliment (auto_id env) c] (db w)
             ∧ Firestore.senderId c = Some u
             ∧ Firestore.receiverId c ≠ u
             ∧ Firestore.receiverId c ≠ []
             ∧ Firestore.groupId c = currentGroupId (ui w)
             ∧ truthy_opt (currentGroupId (ui w)) = true.
Proof.
  intros Hid w.
  assert (HP : (isAuthReady (ui w) = true → userId (ui w) = Some u)
               ∧ (selectedFriendId (ui w) ≠ [] →
                  userId (ui w) = Some u ∧ selectedFriendId (ui w) ≠ u)).
  { subst w.
    apply (run_invariant_on (λ e, ∀ u', e = AuthStateChanged (Some u') → u' = u)
             (λ w, (isAuthReady (ui w) = true → userId (ui w) = Some u)
                   ∧ (selectedFriendId (ui w) ≠ [] →
                      userId (ui w) = Some u ∧ selectedFriendId (ui w) ≠ u)));
      [exact Hid|by rewrite mount_eq|].
    intros w e HQ HW _ [Hr Hsel] Hen.
    destruct (turn_frame e w HW) as (_ & Hd & _ & _ & _ & _ & -> & _).
    unfold group_deps in Hd. injection Hd as -> -> _.
    destruct (handle_event_identity e w) as [[-> ->]|(u' & He & -> & ->)].
    - split; [done|].
      destruct (handle_event_selection e w) as [->|[He|(env & _ & ->)]];
        [done| |done].
      intros _. rewrite He in Hen. revert He Hen.
      generalize (selectedFriendId (ui (handle_event e w))). intros id _ Hen.
      unfold enabled in Hen.
      apply andb_true_iff in Hen as [[[Hready _]%andb_true_iff _]%andb_true_iff
                                     Hne%negb_true_iff%bool_decide_eq_false].
      specialize (Hr Hready). split; [done|]. congruence.
    - rewrite (HQ u' He). split; [done|].
      assert (Hs : selectedFriendId (ui (handle_event e w))
                   = selectedFriendId (ui w))
        by (rewrite He; open_world w; proj; reflexivity).
      rewrite Hs. intros Hne. split; [done|]. by apply Hsel. }
  destruct HP as [Hr Hsel]. split_and!; [|done|].
  - intros id. apply enabled_SelectFriend.
  - intros env w'. subst w'.
    destruct (reachable_wired s last evs) as [HW _]. fold w in HW.
    clearbody w. unfold step.
    destruct (enabled (SubmitCompliment env) w) eqn:Hen; [|by left].
    destruct (turn_frame (SubmitCompliment env) w HW) as (_ & _ & -> & _).
    cbn [handle_event].
    destruct (sendCompliment_cases env w) as [(m & ->)|(Hne & _ & _ & ->)].
    { left. open_world w. proj. reflexivity. }
    right. exists (complimentRecord env (ui w)).
    destruct (Hsel Hne) as [Hu Hnu].
    unfold enabled in Hen. apply andb_true_iff in Hen as [_ Hg].
    split_and!; [|done..].
    generalize (complimentRecord env (ui w)). intros c.
    open_world w. proj. reflexivity.
Qed.

(** ** Drafts *)

Lemma handle_event_message (e : Event) (w : World) :
  complimentMessage (ui (handle_event e w)) = complimentMessage (ui w)
  ∨ (∃ m, e = TypeMessage m)
  ∨ (∃ env, e = SubmitCompliment env
            ∧ complimentMessage (ui (handle_event e w)) = []
            ∧ selectedFriendId (ui (handle_event e w)) = []
            ∧ List.last (shown (handle_event e w)) (notice [] error)
              = notice (lit "Secret compliment sent!") success).
Proof.
  event_cases e w;
    first [ left; open_world w; proj; reflexivity
          | right; left; by eexists
          | right; right; eexists; split; [reflexivity|];
            open_world w; proj; split_and!; try reflexivity; apply last_last ].
Qed.

(** X17: the send form keeps what was entered.  In every world a session
    reaches, the receiver selection changes only by the selector and the
    message draft only by typing in it, except that a compliment that was
    sent empties both; in particular leaving a group, or joining another
    one, keeps the selection and the draft. *)
Theorem draft_changes_only_by_its_inputs (s : Firestore.Store)
    (last : option jsstring) (evs : list Event) (e : Event) :
  let w := run evs (mount s last) in
  let w' := step w e in
  (selectedFriendId (ui w') = selectedFriendId (ui w)
   ∨ e = SelectFriend (selectedFriendId (ui w'))
   ∨ ∃ env, e = SubmitCompliment env ∧ selectedFriendId (ui w') = [])
  ∧ (complimentMessage (ui w') = complimentMessage (ui w)
     ∨ (∃ m, e = TypeMessage m ∧ complimentMessage (ui w') = m)
     ∨ ∃ env, e = SubmitCompliment env ∧ complimentMessage (ui w') = []
              ∧ selectedFriendId (ui w') = []
              ∧ List.last (shown w') (notice [] error)
                = notice (lit "Secret compliment sent!") success).
Proof.
  intros w w'. destruct (reachable_wired s last evs) as [HW _]. fold w in HW.
  subst w'. clearbody w. unfold step.
  destruct (enabled e w); [|split; by left].
  destruct (turn_frame e w HW) as (_ & _ & _ & _ & -> & _ & -> & -> & _).
  split.
  - destruct (handle_event_selection e w) as [->|[He|(env & -> & ?)]];
      [by left|by right; left|].
    right. right. by exists env.
  - destruct (handle_event_message e w) as [->|[[m ->]|(env & -> & ? & ? & ?)]];
      [by left| |].
    + right. left. exists m. split; [done|]. open_world w. proj. reflexivity.
    + right. right. by exists env.
Qed.

(** ** Names under the sent compliments *)

Lemma memberMap_snoc (l : list (Firestore.Item Firestore.MemberDoc))
    (x : Firestore.Item Firestore.MemberDoc) :
  memberMap (l ++ [x])
  = <[Firestore.item_id x := Firestore.userName (Firestore.item_data x)]>
      (memberMap l).
Proof. unfold memberMap. by rewrite foldl_app. Qed.

(** In the map a later entry of an id wins. *)
Lemma memberMap_lookup (l : list (Firestore.Item Firestore.MemberDoc))
    (k : jsstring) :
  memberMap l !! k
  = (λ x, Firestore.userName (Firestore.item_data x))
      <$> last (List.filter (λ x, bool_decide (Firestore.item_id x = k)) l).
Proof.
  induction l as [|x l IH] using rev_ind; [done|].
  rewrite memberMap_snoc, List.filter_app. cbn [List.filter].
  destruct (bool_decide_reflect (Firestore.item_id x = k)) as [<-|Hne].
  - by rewrite lookup_insert_eq, last_snoc.
  - by rewrite lookup_insert_ne, app_nil_r.
Qed.

(** The map built from a push of the roster is the roster's names. *)
Lemma memberMap_roster (m : gmap (list N) Firestore.MemberDoc) :
  memberMap (map Firestore.withId (map_to_list m)) = Firestore.userName <$> m.
Proof.
  apply map_eq. intros k. rewrite memberMap_lookup, lookup_fmap.
  destruct (last _) as [it|] eqn:Hlast.
  - apply last_Some_elem_of, list_elem_of_In, filter_In in Hlast as [Hin Hk].
    apply bool_decide_eq_true in Hk.
    apply list_elem_of_In, list_elem_of_fmap in Hin as ([k' d] & -> & Hin).
    apply elem_of_map_to_list in Hin. cbn in Hk. subst k'.
    by rewrite Hin.
  - destruct (m !! k) as [d|] eqn:Hk; [|done].
    apply elem_of_map_to_list in Hk.
    assert (Hin : In (Firestore.withId (k, d))
                    (List.filter (λ x, bool_decide (Firestore.item_id x = k))
                       (map Firestore.withId (map_to_list m)))).
    { apply filter_In. split; [|by apply bool_decide_eq_true].
      apply list_elem_of_In, list_elem_of_fmap. by exists (k, d). }
    apply last_None in Hlast. rewrite Hlast in Hin. destruct Hin.
Qed.

(** X18: the name under a sent compliment.  When the roster listener of the
    group [g] delivers, the page's [memberMap] becomes the map from each
    member's id to the name in the roster; under every sent compliment
    the page then shows the receiver's name in the roster, or "a member"
    when the receiver is not in the roster or the name there is empty.
    Whatever the roster, the label is never empty. *)
Theorem sent_label_is_roster_name (w : World) (h : nat) (l : Listener)
    (g : jsstring) :
  List.find (λ l, (handle l =? h)%nat) (listeners w) = Some l →
  target l = TMembers g →
  let members := groupMembers (ui (deliver h w)) in
  memberMap members = Firestore.userName <$> Firestore.roster_of (db w) g
  ∧ (∀ c, sentTo members c
          = match Firestore.roster_of (db w) g
                  !! Firestore.receiverId (Firestore.item_data c) with
            | Some d => if truthy (Firestore.userName d)
                        then Firestore.userName d else lit "a member"
            | None => lit "a member"
            end)
  ∧ (∀ ms c, sentTo ms c ≠ []).
Proof.
  intros Hf Ht members.
  assert (Hm : members
               = map Firestore.withId (Firestore.membersQuery (db w) g)).
  { subst members. unfold deliver. rewrite Hf, Ht. unfold onMembersSnapshot.
    generalize (Firestore.membersQuery (db w) g). intros q.
    open_world w. proj. reflexivity. }
  rewrite Hm. unfold Firestore.membersQuery.
  split_and!.
  - apply memberMap_roster.
  - intros c. unfold sentTo. rewrite memberMap_roster, lookup_fmap.
    by destruct (_ !! _).
  - intros ms c. unfold sentTo.
    destruct (_ !! _) as [[|x n]|]; done.
Qed.

(** ** Renders that change no dependency *)

Lemma listeners_eq (L1 L2 : list Listener) :
  map handle L1 = map handle L2 → map target L1 = map target L2 → L1 = L2.
Proof.
  revert L2. induction L1 as [|[h t] L1 IH]; intros [|[h' t'] L2] Hh Ht;
    try discriminate; [done|].
  simpl in Hh, Ht. injection Hh as -> Hh. injection Ht as -> Ht.
  f_equal. by apply IH.
Qed.


(** When both effects have run for the dependencies of the state, the
    render runs neither. *)
Lemma commitEffects_idle (w : World) : Synced w → commitEffects w = w.
Proof.
  intros [Hp Hg]. rewrite commitEffects_eq. cbv zeta.
  rewrite (useEffect_eq (profile_fx w)), bool_decide_eq_true_2 by done.
  cbn [fst snd].
  assert (E : with_profile_fx (profile_fx w) w = w) by by destruct w.
  rewrite E, useEffect_eq, bool_decide_eq_true_2 by done.
  cbn [fst snd]. by destruct w.
Qed.

Lemma commitEffects_profile_idle (w : World) :
  Wired w → last_deps (profile_fx w) = Some (profile_deps w) →
  profile_fx (commitEffects w) = profile_fx w.
Proof.
  intros HW Hp. rewrite commitEffects_eq. cbv zeta.
  rewrite (useEffect_eq (profile_fx w)), bool_decide_eq_true_2 by done.
  cbn [fst snd].
  assert (E : with_profile_fx (profile_fx w) w = w) by by destruct w.
  rewrite E.
  by destruct (group_effect_wired w HW) as (_ & _ & -> & _).
Qed.

Lemma synced_handle_event (e : Event) (w : World) :
  Synced w → group_deps (handle_event e w) = group_deps w →
  Synced (handle_event e w).
Proof.
  intros [Hp Hg] Hd.
  pose proof (wiring_handle_event e w) as Hwi. unfold wiring in Hwi.
  injection Hwi as _ _ Hpfx Hgfx.
  split; rewrite ?Hpfx, ?Hgfx, ?Hd; [|done].
  rewrite Hp. unfold group_deps in Hd. injection Hd as Hr Hu _.
  unfold profile_deps. by rewrite Hr, Hu.
Qed.

Lemma step_idle (e : Event) (w : World) :
  Synced w → enabled e w = true →
  group_deps (handle_event e w) = group_deps w →
  step w e = handle_event e w.
Proof.
  intros HS Hen Hd. unfold step. rewrite Hen.
  by apply commitEffects_idle, synced_handle_event.
Qed.

(** X19: no subscription churn.  In every world a session reaches, a turn
    that leaves readiness, identity and current group as they were
    attaches and disposes nothing: the listeners and their handles are
    the same after it; and a turn that changes only the group keeps the
    profile listener it had. *)
Theorem no_resubscription_without_change (s : Firestore.Store)
    (last : option jsstring) (evs : list Event) (e : Event) :
  let w := run evs (mount s last) in
  let w' := step w e in
  (group_deps w' = group_deps w →
   listeners w' = listeners w ∧ next_handle w' = next_handle w)
  ∧ (profile_deps w' = profile_deps w →
     List.filter isProfileListener (listeners w')
     = List.filter isProfileListener (listeners w)).
Proof.
  intros w w'. destruct (reachable_wired s last evs) as [HW HS].
  fold w in HW, HS. subst w'. clearbody w. unfold step.
  destruct (enabled e w) eqn:Hen; [|done].
  destruct (turn_frame e w HW) as (HW1 & Hd & _). cbv zeta in *.
  pose proof (wiring_handle_event e w) as Hwi. unfold wiring in Hwi.
  injection Hwi as HL Hn Hpfx Hgfx.
  split.
  - rewrite Hd. intros Hsame.
    rewrite commitEffects_idle by by apply synced_handle_event. done.
  - intros Hsame.
    assert (Hp1 : profile_deps (handle_event e w) = profile_deps w).
    { rewrite <- Hsame. unfold group_deps in Hd. injection Hd as Hr Hu _.
      unfold profile_deps. by rewrite Hr, Hu. }
    destruct (commitEffects_wired _ HW1) as (HW2 & _). cbv zeta in HW2.
    assert (Hfx : profile_fx (commitEffects (handle_event e w)) = profile_fx w).
    { rewrite commitEffects_profile_idle; [done..|].
      rewrite Hpfx, Hp1. apply HS. }
    apply listeners_eq.
    + etrans; [exact (wired_profile_handles _ HW2)|].
      rewrite Hfx. symmetry. exact (wired_profile_handles _ HW).
    + etrans; [exact (wired_profile_targets _ HW2)|].
      rewrite Hfx. symmetry. exact (wired_profile_targets _ HW).
Qed.

(** ** What is written comes back through the listeners *)

(** A listener found by its handle that is a profile listener is the one
    of the signed-in user. *)
Lemma profile_listener_current (w : World) (h : nat) (l : Listener)
    (uid : jsstring) :
  Wired w → Synced w →
  List.find (λ l, (handle l =? h)%nat) (listeners w) = Some l →
  target l = TProfile uid →
  userId (ui w) = Some uid ∧ uid ≠ [].
Proof.
  intros HW [HS _] [Hl _]%find_some Ht.
  assert (Hin : TProfile uid ∈ profile_targets (profile_deps w)).
  { pose proof (wired_profile_targets w HW) as Hp.
    unfold slot_targets in Hp. rewrite HS in Hp. rewrite <- Hp, <- Ht.
    apply list_elem_of_fmap. exists l. split; [done|].
    apply list_elem_of_In, filter_In. split; [done|].
    unfold isProfileListener. by rewrite Ht. }
  unfold profile_deps, profile_targets in Hin.
  destruct (userId (ui w)) as [u|]; [|by apply elem_of_nil in Hin].
  destruct (isAuthReady (ui w) && truthy u) eqn:Hb;
    [|by apply elem_of_nil in Hin].
  apply list_elem_of_singleton in Hin. injection Hin as ->.
  apply andb_true_iff in Hb as [_ Hu]. split; [done|]. by destruct u.
Qed.

(** X20: a saved name comes back.  In a world a session reaches, when the
    name form is submitted with a name that is not blank and the write
    succeeds, the profile document of the user holds the trimmed name,
    and the next snapshot of the profile listener makes the trimmed name
    the display name, puts it into the name field and closes the
    editor. *)
Theorem saved_name_comes_back (s : Firestore.Store) (last : option jsstring)
    (evs : list Event) (env : Env) (h : nat) (l : Listener) (uid : jsstring) :
  let w := run evs (mount s last) in
  List.find (λ l, (handle l =? h)%nat) (listeners w) = Some l →
  target l = TProfile uid →
  enabled (SubmitName env) w = true →
  trim (editingName (ui w)) ≠ [] → write_ok env = true →
  let w1 := step w (SubmitName env) in
  let w2 := step w1 (Snapshot h) in
  Firestore.users (db w1) !! uid
  = Some {[ "name"%string := trim (editingName (ui w)) ]}
  ∧ userName (ui w2) = trim (editingName (ui w))
  ∧ editingName (ui w2) = trim (editingName (ui w))
  ∧ isEditingName (ui w2) = false
  ∧ listeners w2 = listeners w.
Proof.
  intros w Hf Ht Hen Hn Hok w1 w2.
  destruct (reachable_wired s last evs) as [HW HS]. fold w in HW, HS.
  clearbody w.
  destruct (profile_listener_current w h l uid HW HS Hf Ht) as [Hu Hne].
  destruct (step_wired w (SubmitName env) HW HS) as [HW1 HS1]. fold w1 in HW1, HS1.
  assert (E1 : w1 = handle_event (SubmitName env) w).
  { apply step_idle; [done..|]. cbn [handle_event].
    rewrite (saveName_committed env w uid) by done.
    generalize (Firestore.commit
      [Firestore.SetUser uid {[ "name"%string := trim (editingName (ui w)) ]}]
      (db w)). intros s1.
    clear. open_world w. unfold group_deps. proj. reflexivity. }
  cbn [handle_event] in E1.
  rewrite (saveName_committed env w uid) in E1 by done.
  revert Hn E1. generalize (trim (editingName (ui w))). intros n Hn E1.
  assert (Hdb : Firestore.users (db w1) !! uid = Some {[ "name"%string := n ]}).
  { rewrite E1. clear. open_world w. proj.
    rewrite commit_cons, commit_nil, users_SetUser. apply lookup_insert_eq. }
  assert (HL : listeners w1 = listeners w).
  { rewrite E1. generalize (Firestore.commit
      [Firestore.SetUser uid {[ "name"%string := n ]}] (db w)). intros s1.
    clear. open_world w. proj. reflexivity. }
  clear E1. clearbody w1.
  assert (Hdel : deliver h w1
                 = setIsEditingName false (setEditingName n (setUserName n w1))).
  { unfold deliver. rewrite HL, Hf, Ht. unfold onProfileSnapshot.
    rewrite Hdb, lookup_singleton_eq.
    by destruct n. }
  assert (E2 : w2 = handle_event (Snapshot h) w1).
  { apply step_idle; [done..|]. cbn [handle_event]. rewrite Hdel.
    clear. open_world w1. unfold group_deps. proj. reflexivity. }
  cbn [handle_event] in E2. rewrite Hdel in E2. rewrite E2, <- HL.
  split; [done|]. clear. open_world w1. proj. by split_and!.
Qed.


(** ** Names of members *)

(** X22: every membership a handler writes is the caller's own and carries
    a name.  A member document that [handleCreateGroup] or
    [handleJoinGroup] leaves in a roster and that was not there before is
    filed under the user id of the session, which is not empty, and holds
    the display name of the session, which is not empty, and the time of
    the server. *)
Theorem written_members_are_named (env : Env) (w : World)
    (newGroupName groupIdToJoin : jsstring) :
  let own (w' : World) :=
    ∀ gid uid m,
      Firestore.roster_of (db w') gid !! uid = Some m →
      Firestore.roster_of (db w) gid !! uid = Some m
      ∨ (userId (ui w) = Some uid ∧ uid ≠ []
         ∧ m = {| Firestore.userName := userName (ui w);
                  Firestore.joinedAt := server_time env |}
         ∧ Firestore.userName m ≠ []) in
  own (exec (handleCreateGroup newGroupName) env w)
  ∧ own (exec (handleJoinGroup groupIdToJoin) env w).
Proof.
  intros own. subst own. cbv beta. split; intros gid uid m.
  - destruct (createGroup_db env w newGroupName)
      as [->|(uid0 & Hu & Hne & _ & Hun & ->)]; [by left|].
    destruct (commit_createBatch env (ui w) newGroupName uid0 (db w))
      as (_ & Hr & Hother).
    destruct (decide (auto_id env = gid)) as [<-|Hg];
      [|rewrite Hother by done; by left].
    rewrite Hr. destruct (decide (uid0 = uid)) as [<-|Hne'].
    + rewrite lookup_insert_eq. intros [= <-]. by right.
    + rewrite lookup_insert_ne by done. by left.
  - destruct (joinGroup_db env w groupIdToJoin)
      as [->|(uid0 & p & d & Hu & Hne & Hun & _ & _ & ->)]; [by left|].
    destruct (decide (Firestore.refId p = gid)) as [<-|Hg];
      [|rewrite roster_of_SetMember_ne by done; by left].
    rewrite roster_of_SetMember. destruct (decide (uid0 = uid)) as [<-|Hne'].
    + rewrite lookup_insert_eq. intros [= <-]. by right.
    + rewrite lookup_insert_ne by done. by left.
Qed.

(** The display name changes only by a snapshot of the user's own
    profile. *)
Lemma handle_event_name (e : Event) (w : World) :
  Wired w → Synced w →
  userName (ui (handle_event e w)) = userName (ui w)
  ∨ ∃ h uid d n,
      e = Snapshot h ∧ userId (ui w) = Some uid
      ∧ Firestore.users (db w) !! uid = Some d
      ∧ d !! "name"%string = Some n ∧ n ≠ []
      ∧ userName (ui (handle_event e w)) = n
      ∧ editingName (ui (handle_event e w)) = n
      ∧ isEditingName (ui (handle_event e w)) = false.
Proof.
  intros HW HS.
  assert (Hcase : (∃ h, e = Snapshot h) ∨ (∀ h, e ≠ Snapshot h))
    by (destruct e; eauto).
  destruct Hcase as [[h ->]|Hns].
  - cbn [handle_event]. unfold deliver.
    destruct (List.find _ (listeners w)) as [l|] eqn:Hf; [|by left].
    destruct (target l) as [uid|g|g|u g|u g] eqn:Ht;
      try (left; unfold onGroupSnapshot, onMembersSnapshot,
             onReceivedSnapshot, onSentSnapshot;
           try destruct (Firestore.groups (db w) !! g);
           clear; open_world w; proj; reflexivity).
    destruct (profile_listener_current w h l uid HW HS Hf Ht) as [Hu Hne].
    unfold onProfileSnapshot.
    destruct (Firestore.users (db w) !! uid) as [d|] eqn:Hd;
      [|left; clear; open_world w; proj; reflexivity].
    destruct (d !! "name"%string) as [n|] eqn:Hn;
      [|left; clear; open_world w; proj; reflexivity].
    destruct (truthy n) eqn:Htn;
      [|left; clear; open_world w; proj; reflexivity].
    right. exists h, uid, d, n.
    split_and!; try done;
      first [ by destruct n | clear; open_world w; proj; reflexivity ].
  - left. clear HW HS.
    event_cases e w; try (open_world w; proj; reflexivity).
    by destruct (Hns h).
Qed.

(** The effects leave the name form alone. *)
Lemma groupEffect_form (w : World) :
  editingName (ui (groupEffect w).1) = editingName (ui w)
  ∧ isEditingName (ui (groupEffect w).1) = isEditingName (ui w).
Proof.
  open_world w. unfold groupEffect.
  cbn [ui isAuthReady userId currentGroupId].
  destruct isAuthReady0, userId0 as [[|c u]|], currentGroupId0 as [[|c' g]|];
    cbn [negb orb andb truthy truthy_opt];
    unfold onSnapshot; proj; cbn [fst snd]; by split.
Qed.

Lemma commitEffects_form (w : World) :
  Wired w →
  editingName (ui (commitEffects w)) = editingName (ui w)
  ∧ isEditingName (ui (commitEffects w)) = isEditingName (ui w).
Proof.
  intros HW. rewrite commitEffects_eq. cbv zeta.
  destruct (profile_effect_wired w HW) as (_ & _ & Hg2 & Hui2 & _).
  cbv zeta in *.
  set (w2 := with_profile_fx _ _) in *. clearbody w2.
  assert (Hd2 : group_deps w2 = group_deps w)
    by (unfold group_deps; by rewrite Hui2).
  rewrite <- Hd2, <- Hui2. clear Hd2 Hg2 Hui2 HW w.
  rewrite useEffect_eq.
  destruct (bool_decide (last_deps (group_fx w2) = Some (group_deps w2)));
    cbn [fst snd].
  - assert (E : ui (with_group_fx (group_fx w2) w2) = ui w2) by by destruct w2.
    by rewrite E.
  - destruct (runCleanup_spec (cleanup (group_fx w2)) w2)
      as (_ & _ & _ & _ & Hui & _).
    set (w1 := runCleanup _ w2) in *.
    destruct (groupEffect_form w1) as (Hs & Hm).
    rewrite Hui in *.
    set (w3 := (groupEffect w1).1) in *.
    assert (E : ∀ e, ui (with_group_fx e w3) = ui w3) by (intros; by destruct w3).
    by rewrite !E.
Qed.

(** X23: the display name is the user's own stored name.  In every world a
    session reaches, a turn changes the display name only when the
    profile listener delivers the profile document of the signed-in user
    with a name that is not empty, and then to that name; so a display
    name, once set, is never emptied, and no other event, in particular
    no save that failed, changes it. *)
Theorem display_name_comes_from_profile (s : Firestore.Store)
    (last : option jsstring) (evs : list Event) (e : Event) :
  let w := run evs (mount s last) in
  let w' := step w e in
  (userName (ui w') = userName (ui w)
   ∨ ∃ h uid d,
       e = Snapshot h ∧ userId (ui w) = Some uid
       ∧ Firestore.users (db w) !! uid = Some d
       ∧ d !! "name"%string = Some (userName (ui w'))
       ∧ editingName (ui w') = userName (ui w')
       ∧ isEditingName (ui w') = false)
  ∧ (userName (ui w) ≠ [] → userName (ui w') ≠ []).
Proof.
  intros w w'. destruct (reachable_wired s last evs) as [HW HS].
  fold w in HW, HS. subst w'. clearbody w. unfold step.
  destruct (enabled e w); [|split; [by left|done]].
  destruct (turn_frame e w HW) as (HW1 & Hd & _ & _ & _ & _ & _ & _ & Hun).
  cbv zeta in *.
  destruct (handle_event_name e w HW HS)
    as [Hsame|(h & uid & d & n & He & Hu & Hdoc & Hn & Hne & H1 & H2 & H3)].
  - rewrite Hun, Hsame. split; [by left|done].
  - destruct (commitEffects_form _ HW1) as [-> ->].
    rewrite Hun, H1, H2, H3. split; [|done].
    right. exists h, uid, d. by split_and!.
Qed.

(** ** The further properties at work on the concrete session *)

Import Cases.

(** No event of the list reports another identity than [u]. *)
Ltac one_identity :=
  unfold identity_stable;
  repeat (constructor;
          [let u := fresh in let H := fresh in
           intros u H; first [discriminate H | by injection H]|]);
  constructor.

(** X10 at work: Alice pastes the id of [g1] with blanks and a '/' around
    it. *)
Lemma join_enters_group_witness :
  lastGroupId (exec (handleJoinGroup (lit " g1/ ")) (at_time 200 "-") in_group)
  = Some g1.
Proof.
  destruct (join_enters_group (at_time 200 "-") in_group (lit " g1/ ") g1
              alice book_club
              ltac:(by_eval) ltac:(by_eval) ltac:(by_eval) ltac:(by_eval)
              ltac:(by_eval) ltac:(by_eval) ltac:(by_eval) ltac:(by_eval))
    as (_ & _ & _ & H & _).
  exact (proj1 (H ltac:(by_eval))).
Defined.

(** X12 at work: after Alice left, no group is remembered. *)
Lemma remembered_group_is_current_witness :
  lastGroupId (run session_left (mount Firestore.empty_store None))
  = currentGroupId (ui (run session_left (mount Firestore.empty_store None))).
Proof.
  destruct (remembered_group_is_current Firestore.empty_store None
              session_left ltac:(by_eval)) as [H _].
  exact H.
Defined.

(** X14 at work: after Alice left, the group page holds nothing. *)
Lemma no_group_no_views_witness :
  views (run session_left (mount Firestore.empty_store None))
  = ([], [], [], []).
Proof.
  exact (no_group_no_views Firestore.empty_store None session_left
           ltac:(by_eval)).
Defined.

(** X15 at work: Alice leaves [g1]; no listener of the group is left. *)
Lemma leaving_is_local_and_complete_witness :
  List.filter isGroupListener
    (listeners (step (run session (mount Firestore.empty_store None)) Leave))
  = [].
Proof.
  destruct (leaving_is_local_and_complete Firestore.empty_store None session
              Leave ltac:(by_eval) ltac:(by_eval))
    as (_ & _ & _ & _ & H & _).
  exact H.
Defined.

(** X16 at work: the receiver Alice selected is not Alice. *)
Lemma never_sends_to_self_witness :
  userId (ui (run session_composing (mount Firestore.empty_store None)))
  = Some alice
  ∧ selectedFriendId
      (ui (run session_composing (mount Firestore.empty_store None)))
    ≠ alice.
Proof.
  destruct (never_sends_to_self alice Firestore.empty_store None
              session_composing ltac:(one_identity))
    as (_ & H & _).
  exact (H ltac:(by_eval)).
Defined.

(** X18 at work: the roster with Bob is delivered; a compliment to Bob is
    labelled with his name. *)
Lemma sent_label_is_roster_name_witness :
  sentTo (groupMembers (ui (deliver 2 bob_in_store)))
    (Firestore.withId (lit "c1", to_bob (Some 5)))
  = lit "Bob".
Proof.
  destruct (sent_label_is_roster_name bob_in_store 2
              {| handle := 2; target := TMembers g1 |} g1
              ltac:(by_eval) ltac:(by_eval))
    as (_ & H & _).
  etrans; [apply H|]. by_eval.
Defined.

(** X20 at work: Alice saves "  Al "; the profile listener brings back
    "Al". *)
Lemma saved_name_comes_back_witness :
  userName
    (ui (step (step (run before_save (mount Firestore.empty_store None))
                 (SubmitName (at_time 90 "-")))
           (Snapshot 0)))
  = lit "Al".
Proof.
  destruct (saved_name_comes_back Firestore.empty_store None before_save
              (at_time 90 "-") 0 {| handle := 0; target := TProfile alice |}
              alice
              ltac:(by_eval) ltac:(by_eval) ltac:(by_eval) ltac:(by_eval)
              ltac:(by_eval))
    as (_ & H & _).
  etrans; [exact H|]. by_eval.
Defined.

